(** * FABADA stream cleaner: a shallow embedding of [fabada1x]

    The embedded program is [examples/streamclean_rx_buffer.py].  Its core,
    [fabada1x], de-interleaves a stereo block, estimates a per-sample noise
    variance for each channel, runs the iterative Bayesian smoother on the
    concatenation of the two channels and re-interleaves the quantised
    result.
    Around it, [StreamSampler] picks the capture and playback devices from
    the host's device table, and its two stream callbacks fill the capture
    buffer from the bytes PortAudio hands over and return the cleaned
    block.

    The numpy code is written once, over an interface [NumOps] of the
    scalar operations it uses.  Two instances interpret it:
    - [R_ops]: exact real arithmetic (the reading under which the
      algebraic laws of the algorithm are stated);
    - [F64_ops]: IEEE-754 binary64, the [float64] of numpy, with NaN,
      infinities and signed zeros.
    [numpy.exp] (binary64 only) and [scipy.stats.chi2.pdf] are library
    functions outside the repository: they are parameters of the instances. *)

From Stdlib Require Import List ZArith Bool Lia.
From Stdlib Require Import Reals Lra.
From Stdlib Require Import Floats.
From Stdlib Require Strings.String Strings.Ascii DecimalString.
From Stdlib Require Import Init.Byte.
Import ListNotations.

Set Implicit Arguments.

(** ** The scalar interface *)

Class NumOps (T : Type) : Type := {
  of_int : Z -> T;                 (* int -> float64 conversion *)
  fadd : T -> T -> T;
  fsub : T -> T -> T;
  fmul : T -> T -> T;
  fdiv : T -> T -> T;
  fneg : T -> T;
  np_abs : T -> T;
  np_sqrt : T -> T;
  np_exp : T -> T;
  np_pi : T;
  flt : T -> T -> bool;            (* x < y *)
  fle : T -> T -> bool;            (* x <= y *)
  scipy_chi2_pdf : T -> nat -> T;  (* scipy.stats.chi2.pdf(x, df) *)
  astype_int16 : T -> option Z     (* one sample of .astype(numpy.int16);
                                      None: the C conversion is undefined *)
}.

Declare Scope num_scope.
Delimit Scope num_scope with num.
Notation "x + y" := (fadd x y) : num_scope.
Notation "x - y" := (fsub x y) : num_scope.
Notation "x * y" := (fmul x y) : num_scope.
Notation "x / y" := (fdiv x y) : num_scope.
Notation "- x" := (fneg x) : num_scope.

(** ** Array helpers (type-generic) *)

Section Arrays.
Variables A B C : Type.

(** Elementwise binary operation of two arrays of one shape. *)
Fixpoint map2 (f : A -> B -> C) (xs : list A) (ys : list B) : list C :=
  match xs, ys with
  | x :: xs', y :: ys' => f x y :: map2 f xs' ys'
  | _, _ => []
  end.

(** [a[0::2]]; [a[1::2]] is [stride2 (tl a)]. *)
Fixpoint stride2 (l : list A) : list A :=
  match l with
  | [] => []
  | [x] => [x]
  | x :: _ :: t => x :: stride2 t
  end.

(** [a[-k]] for [k >= 1]: IndexError (None) when [k] exceeds the length. *)
Definition nth_back (l : list A) (k : nat) : option A :=
  if (k <=? length l)%nat then nth_error l (length l - k) else None.

(** [numpy.column_stack((l, r)).ravel()]. *)
Fixpoint interleave (l r : list A) : list A :=
  match l, r with
  | x :: l', y :: r' => x :: y :: interleave l' r'
  | _, _ => []
  end.

(** [numpy.split(a, 2)]: ValueError (None) unless the length is even. *)
Definition np_split2 (a : list A) : option (list A * list A) :=
  if Nat.even (length a)
  then Some (firstn (Nat.div2 (length a)) a, skipn (Nat.div2 (length a)) a)
  else None.
End Arrays.

Section SliceUpdates.
Variable A : Type.

(** [xs[:len(ys)] op= ys], the rest of [xs] kept. *)
Fixpoint zip_keep (f : A -> A -> A) (xs ys : list A) : list A :=
  match xs, ys with
  | x :: xs', y :: ys' => f x y :: zip_keep f xs' ys'
  | _, _ => xs
  end.

(** [a[0] = f a[0]]. *)
Definition upd_head (f : A -> A) (l : list A) : list A :=
  match l with
  | [] => []
  | x :: t => f x :: t
  end.

(** [a[-1] = f a[-1]]. *)
Fixpoint upd_last (f : A -> A) (l : list A) : list A :=
  match l with
  | [] => []
  | [x] => [f x]
  | x :: t => x :: upd_last f t
  end.

(** [a[:-1] = f a[:-1]] elementwise. *)
Fixpoint upd_init (f : A -> A) (l : list A) : list A :=
  match l with
  | [] => []
  | [x] => [x]
  | x :: t => f x :: upd_init f t
  end.

(** [a[1:] = g a[1:]] for a whole-slice update [g]. *)
Definition on_tail (g : list A -> list A) (l : list A) : list A :=
  match l with
  | [] => []
  | x :: t => x :: g t
  end.
End SliceUpdates.

(** ** The program *)

Definition max_iter : nat := 128.

(** The length [32768] of the [numpy.full] arrays holding the means. *)
Definition residues_len : nat := Z.to_nat 32768.

Section Fabada.
Context {T : Type} {ops : NumOps T}.
Local Open Scope num_scope.

Definition lit (z : Z) : T := of_int z.
Definition size_of (a : list T) : T := of_int (Z.of_nat (length a)).

(** [x ** 2] *)
Definition sq (x : T) : T := x * x.

(** [numpy.sum], [numpy.mean], [numpy.var] (ddof = 0).  The sum is taken
    left to right. *)
Definition np_sum (a : list T) : T := fold_left fadd a (lit 0).
Definition np_mean (a : list T) : T := np_sum a / size_of a.
Definition np_var (a : list T) : T :=
  let m := np_mean a in
  np_mean (map (fun x => sq (x - m)) a).

(** Lines 71-73: the channels and their concatenation. *)
Definition dleft_of (data : list T) : list T := stride2 data.
Definition dright_of (data : list T) : list T := stride2 (tl data).

(** Lines 78-84: the two synthetic edge samples and the padded channel.
    [c[1]] and [c[-2]] raise IndexError on a channel shorter than 2. *)
Definition avar (c : list T) : option T :=
  match nth_error c 0, nth_error c 1 with
  | Some c0, Some c1 => Some (c0 / lit 2 + c1 / lit 2)
  | _, _ => None
  end.

Definition zvar (c : list T) : option T :=
  match nth_back c 1, nth_back c 2 with
  | Some z1, Some z2 => Some (z1 / lit 2 + z2 / lit 2)
  | _, _ => None
  end.

Definition pad (c : list T) : option (list T) :=
  match avar c, zvar c with
  | Some a, Some z => Some ([a] ++ c ++ [z])
  | _, _ => None
  end.

(** Lines 87-90: [i + j + k / 3] over [zip(p, p[1:], p[2:])]. *)
Definition data_beta (p : list T) : list T :=
  map (fun ijk => match ijk with (i, (j, k)) => i + j + k / lit 3 end)
      (combine p (combine (tl p) (tl (tl p)))).

(** Lines 94-102: distance of every triplet value to the mean; the mean
    is held in an array of [residues_len] copies, which [zip] cuts to. *)
Definition data_variance_residues (beta : list T) : list T :=
  let x10 := np_mean beta in
  let data_mean_residues := repeat x10 residues_len in
  map (fun ij => np_abs (fst ij - snd ij)) (combine beta data_mean_residues).

(** Lines 106-109. *)
Definition scale_residues (res : list T) : list T :=
  let variance5 := np_var res in
  map (fun x => x * variance5) res.

(** NoiseModelEstimator: lines 87-109 for one padded channel. *)
Definition noise_variance (padded : list T) : list T :=
  scale_residues (data_variance_residues (data_beta padded)).

(** Lines 115-117. *)
Definition gauss (num den : T) : T :=
  np_exp ((- num) / (lit 2 * den)) / np_sqrt (lit 2 * np_pi * den).

Definition initial_evidence_of (data_variance : list T) : list T :=
  map (fun v => gauss (sq (lit 0 - np_sqrt v)) (lit 0 + v)) data_variance.

(** Line 145 at one sample: [1 / (1 / prior_variance + 1 / data_variance)]. *)
Definition harmonic (pv dv : T) : T := lit 1 / (lit 1 / pv + lit 1 / dv).

(** Lines 135-141: the prior mean. *)
Definition meanx_of (posterior_mean : list T) : list T :=
  let meanx := posterior_mean in
  let meanx := zip_keep fadd meanx (tl posterior_mean) in
  let meanx := on_tail (fun t => zip_keep fadd t posterior_mean) meanx in
  let meanx := on_tail (upd_init (fun x => x / lit 3)) meanx in
  let meanx := upd_head (fun x => x / lit 2) meanx in
  upd_last (fun x => x / lit 2) meanx.

(** The variables the loop carries from one iteration to the next. *)
Record state : Type := mkState {
  posterior_mean : list T;
  posterior_variance : list T;
  evidence : list T;
  chi2_pdf : T;
  chi2_data : T;
  chi2_pdf_derivative : T;
  chi2_data_min : T;
  iteration : nat;
  bayesian_weight : list T;
  bayesian_model : list T;
  converged : bool
}.

Section Smoother.
Variables data data_variance : list T.

(** Lines 113-124.  The scalar [0] the accumulators start from is
    broadcast by the first [+=]; it is held here as an array of zeros. *)
Definition initial_state : state :=
  {| posterior_mean := data;
     posterior_variance := data_variance;
     evidence := initial_evidence_of data_variance;
     chi2_pdf := lit 0;
     chi2_data := size_of data;
     chi2_pdf_derivative := lit 0;
     chi2_data_min := size_of data;
     iteration := 0;
     bayesian_weight := map (fun _ => lit 0) data;
     bayesian_model := map (fun _ => lit 0) data;
     converged := false |}.

(** The scalars of one iteration that the convergence test reads. *)
Record trend : Type := mkTrend {
  evidence_derivative : T;
  chi2_pdf_snd_derivative : T
}.

(** Lines 128-166. *)
Definition iterate (st : state) : state * trend :=
  let chi2_pdf_previous := chi2_pdf st in
  let chi2_pdf_derivative_previous := chi2_pdf_derivative st in
  let evidence_previous := np_mean (evidence st) in
  let iteration' := S (iteration st) in
  let prior_mean := meanx_of (posterior_mean st) in
  let prior_variance := posterior_variance st in
  let posterior_variance' :=
    map (fdiv (lit 1))
        (map2 fadd (map (fdiv (lit 1)) prior_variance)
                   (map (fdiv (lit 1)) data_variance)) in
  let posterior_mean' :=
    map2 fmul (map2 fadd (map2 fdiv prior_mean prior_variance)
                         (map2 fdiv data data_variance))
              posterior_variance' in
  let evidence' :=
    map2 gauss (map sq (map2 fsub prior_mean data))
               (map2 fadd prior_variance data_variance) in
  let evidence_derivative' := np_mean evidence' - evidence_previous in
  let chi2_data' :=
    np_sum (map2 fdiv (map sq (map2 fsub data posterior_mean'))
                      data_variance) in
  let chi2_pdf' := scipy_chi2_pdf chi2_data' (length data) in
  let chi2_pdf_derivative' := chi2_pdf' - chi2_pdf_previous in
  let chi2_pdf_snd_derivative' :=
    chi2_pdf_derivative' - chi2_pdf_derivative_previous in
  let model_weight := map (fun e => e * chi2_data') evidence' in
  let bayesian_weight' := map2 fadd (bayesian_weight st) model_weight in
  let bayesian_model' :=
    map2 fadd (bayesian_model st) (map2 fmul model_weight posterior_mean') in
  let chi2_data_min' :=
    if (iteration' =? 1)%nat then chi2_data' else chi2_data_min st in
  ({| posterior_mean := posterior_mean';
      posterior_variance := posterior_variance';
      evidence := evidence';
      chi2_pdf := chi2_pdf';
      chi2_data := chi2_data';
      chi2_pdf_derivative := chi2_pdf_derivative';
      chi2_data_min := chi2_data_min';
      iteration := iteration';
      bayesian_weight := bayesian_weight';
      bayesian_model := bayesian_model';
      converged := converged st |},
   {| evidence_derivative := evidence_derivative';
      chi2_pdf_snd_derivative := chi2_pdf_snd_derivative' |}).

(** Lines 168-172: the test. *)
Definition stop_test (st : state) (tr : trend) : bool :=
  (flt (size_of data) (chi2_data st)
     && fle (lit 0) (chi2_pdf_snd_derivative tr))
    && flt (evidence_derivative tr) (lit 0)
  || (max_iter <? iteration st)%nat.

(** Lines 173-178: the iteration-zero model enters the ensemble. *)
Definition combine_iteration_zero (st : state) : state :=
  let model_weight :=
    map (fun e => e * chi2_data_min st)
        (initial_evidence_of data_variance) in
  {| posterior_mean := posterior_mean st;
     posterior_variance := posterior_variance st;
     evidence := evidence st;
     chi2_pdf := chi2_pdf st;
     chi2_data := chi2_data st;
     chi2_pdf_derivative := chi2_pdf_derivative st;
     chi2_data_min := chi2_data_min st;
     iteration := iteration st;
     bayesian_weight := map2 fadd (bayesian_weight st) model_weight;
     bayesian_model :=
       map2 fadd (bayesian_model st) (map2 fmul model_weight data);
     converged := true |}.

(** One execution of the loop body, lines 128-178. *)
Definition body (st : state) : state :=
  let (st', tr) := iterate st in
  if stop_test st' tr then combine_iteration_zero st' else st'.

(** [while not converged: body], with the number of body executions
    allowed as fuel; None when the fuel runs out first. *)
Fixpoint while_not_converged (fuel : nat) (st : state) : option state :=
  if converged st then Some st
  else match fuel with
       | O => None
       | S fuel' => while_not_converged fuel' (body st)
       end.

(** The trace of the loop: the state after [k] executions of lines
    128-166, the scalars the [k]-th test reads, and its outcome. *)
Definition iterates (k : nat) : state :=
  Nat.iter k (fun st => fst (iterate st)) initial_state.
Definition trend_of (k : nat) : trend := snd (iterate (iterates (pred k))).
Definition stops_at (k : nat) : bool := stop_test (iterates k) (trend_of k).

(** Every array of the state has the shape of [data]. *)
Definition shaped (st : state) : Prop :=
  length (posterior_mean st) = length data /\
  length (posterior_variance st) = length data /\
  length (evidence st) = length data /\
  length (bayesian_weight st) = length data /\
  length (bayesian_model st) = length data.

(** Line 180. *)
Definition bayes_of (st : state) : list T :=
  map2 fdiv (bayesian_model st) (bayesian_weight st).

(** BayesianSmoother: lines 113-180.  The first elementwise operation
    on [data] and [data_variance] raises ValueError when their shapes
    differ; both arrays hold at least four elements here. *)
Definition smoother : option (list T) :=
  if (length data =? length data_variance)%nat
  then option_map bayes_of (while_not_converged (S max_iter) initial_state)
  else None.
End Smoother.

(** Line 182: [column_stack(split(bayes, 2)).ravel().astype(int16)]. *)
Definition merge (bayes : list T) : option (list (option Z)) :=
  match np_split2 bayes with
  | Some (l, r) => Some (map astype_int16 (interleave l r))
  | None => None
  end.

(** Lines 68-73. *)
Definition split (data : list T) : list T :=
  let data := map (fun x => x / lit 1) data in
  dleft_of data ++ dright_of data.

(** Lines 78-110: the variance array of a block. *)
Definition data_variance_of (data : list T) : option (list T) :=
  let data := map (fun x => x / lit 1) data in
  let dleft := dleft_of data in
  let dright := dright_of data in
  match pad dleft, pad dright with
  | Some data_alphal_padded, Some data_alphar_padded =>
      let data_betar := data_beta data_alphal_padded in
      let data_betal := data_beta data_alphar_padded in
      let data_variance_residuesr := data_variance_residues data_betar in
      let data_variance_residuesl := data_variance_residues data_betal in
      let data_variancer := scale_residues data_variance_residuesr in
      let data_variancel := scale_residues data_variance_residuesl in
      Some (data_variancer ++ data_variancel)
  | _, _ => None
  end.

(** [fabada1x], lines 64-183.  None: an exception is raised. *)
Definition fabada1x (data : list T) : option (list (option Z)) :=
  match data_variance_of data with
  | Some data_variance =>
      match smoother (split data) data_variance with
      | Some bayes => merge bayes
      | None => None
      end
  | None => None
  end.

(** [StreamSampler.non_blocking_stream_write] on the int16 capture buffer. *)
Definition stream_write (xbuffer : list Z) : option (list (option Z)) :=
  fabada1x (map of_int xbuffer).
End Fabada.

(** ** Exact real arithmetic *)

Definition R_trunc (x : R) : Z :=
  if Rle_dec 0 x then Int_part x else (- Int_part (- x))%Z.

Definition int16_range (z : Z) : bool := ((-32768 <=? z) && (z <=? 32767))%Z.

Definition R_astype_int16 (x : R) : option Z :=
  let z := R_trunc x in
  if int16_range z then Some z else None.

Definition R_ops (pdf : R -> nat -> R) : NumOps R :=
  {| of_int := IZR;
     fadd := Rplus; fsub := Rminus; fmul := Rmult; fdiv := Rdiv;
     fneg := Ropp;
     np_abs := Rabs; np_sqrt := R_sqrt.sqrt; np_exp := Rtrigo_def.exp;
     np_pi := PI;
     flt := fun x y => if Rlt_dec x y then true else false;
     fle := fun x y => if Rle_dec x y then true else false;
     scipy_chi2_pdf := pdf;
     astype_int16 := R_astype_int16 |}.

(** Sum, mean and population variance as mathematics writes them; the
    statements about the estimator are phrased with these. *)
Definition Rsum (l : list R) : R := fold_right Rplus 0%R l.
Definition Rmean (l : list R) : R := (Rsum l / INR (length l))%R.
Definition Rpop_variance (l : list R) : R :=
  Rmean (map (fun x => ((x - Rmean l) ^ 2)%R) l).

(** One channel of an interleaved block, and the half of a concatenated
    array that belongs to it ([false]: left, [true]: right). *)
Definition channel_of (A : Type) (right : bool) (block : list A) : list A :=
  if right then stride2 (tl block) else stride2 block.
Definition half_of (A : Type) (right : bool) (n : nat) (a : list A) : list A :=
  if right then skipn n a else firstn n a.

(** ** IEEE-754 binary64 *)

Definition f64_of_int (z : Z) : float :=
  match z with
  | Z0 => PrimFloat.zero
  | Zpos _ => PrimFloat.of_uint63 (Uint63.of_Z z)
  | Zneg p => PrimFloat.opp (PrimFloat.of_uint63 (Uint63.of_Z (Zpos p)))
  end.

(** The C conversion double -> short: the value truncated toward zero when
    that is representable, undefined otherwise (NaN, infinities, overflow). *)
Definition f64_astype_int16 (x : float) : option Z :=
  match Prim2SF x with
  | S754_zero _ => Some 0%Z
  | S754_finite s m e =>
      let q := if (0 <=? e)%Z then Z.shiftl (Zpos m) e
               else Z.shiftr (Zpos m) (- e) in
      let z := if s then (- q)%Z else q in
      if int16_range z then Some z else None
  | _ => None
  end.

Definition F64_ops (exp64 : float -> float) (pdf : float -> nat -> float)
  : NumOps float :=
  {| of_int := f64_of_int;
     fadd := PrimFloat.add; fsub := PrimFloat.sub;
     fmul := PrimFloat.mul; fdiv := PrimFloat.div;
     fneg := PrimFloat.opp;
     np_abs := PrimFloat.abs; np_sqrt := PrimFloat.sqrt;
     np_exp := exp64;
     np_pi := 0x1.921fb54442d18p+1%float;
     flt := PrimFloat.ltb;
     fle := PrimFloat.leb;
     scipy_chi2_pdf := pdf;
     astype_int16 := f64_astype_int16 |}.

(** Zero, infinite or NaN: what a variance must not be. *)
Definition f64_degenerate (v : float) : bool :=
  match Prim2SF v with
  | S754_finite _ _ _ => false
  | _ => true
  end.

(** [f] holds on the [n] integers from [lo] on. *)
Fixpoint check_from (f : Z -> bool) (lo : Z) (n : nat) : bool :=
  match n with
  | O => true
  | S n' => f lo && check_from f (lo + 1) n'
  end.

(** Zero of either sign, or NaN. *)
Definition f64_zero_or_nan (x : float) : bool :=
  match Prim2SF x with
  | S754_zero _ | S754_nan => true
  | _ => false
  end.

(** ** [StreamSampler]: the device scan *)

(** PyAudio's constants. *)
Definition paInt16 : Z := 8.
Definition paContinue : Z := 0.

(** The [32768] samples of the capture buffer [xbuffer]. *)
Definition xbuffer_len : nat := Z.to_nat 32768.

Module Devices.
Import Stdlib.Strings.String.
Local Open Scope string_scope.

(** One entry of the host's device table, with the keys the program reads
    from [get_device_info_by_index]. *)
Record devinfo : Type := mkDevinfo {
  name : string;
  maxInputChannels : Z;
  maxOutputChannels : Z
}.

(** The callbacks a stream is opened with. *)
Inductive callback : Type :=
| stream_read_callback
| stream_write_callback.

(** The arguments of one [pa.open] call; [device_index] is
    [input_device_index] of an input stream and [output_device_index] of an
    output stream. *)
Record stream : Type := mkStream {
  format : Z;
  channels : Z;
  rate : Z;
  input : bool;
  output : bool;
  device_index : nat;
  frames_per_buffer : Z;
  stream_callback : callback
}.

(** [keyword in s] *)
Fixpoint contains (keyword s : string) : bool :=
  prefix keyword s
  || match s with
     | EmptyString => false
     | String _ s' => contains keyword s'
     end.

(** ["%d" % i] *)
Definition dec (i : nat) : string :=
  DecimalString.NilZero.string_of_uint (Nat.to_uint i).

(** What the loop over the device table carries: the local [device_index],
    the attribute it assigns, and the lines printed so far. *)
Definition scan : Type := (option nat * nat * list string)%type.

(** The attributes of a [StreamSampler]. *)
Record StreamSampler : Type := mkStreamSampler {
  pa : list devinfo;
  micindex : nat;
  speakerindex : nat;
  micstream : stream;
  speakerstream : stream;
  xbuffer : list Z
}.

Section Scan.
(** [str.lower] of the Python runtime. *)
Variable lower : string -> string.

(** Lines 202-225. *)
Definition open_mic_stream (pa : list devinfo) (micindex : nat)
  : nat * stream * list string :=
  let device_index : option nat := None in
  let '(device_index, micindex, out) :=
    fold_left
      (fun (acc : scan) (idev : nat * devinfo) =>
         let '(i, devinfo) := idev in
         if (maxInputChannels devinfo =? 2)%Z then
           fold_left
             (fun (acc : scan) (keyword : string) =>
                let '(device_index, micindex, out) := acc in
                if contains keyword (lower (name devinfo)) then
                  (Some i, i,
                   List.app out
                     ["Found an input: device " ++ dec i ++ " - "
                        ++ name devinfo])
                else acc)
             ["microsoft"] acc
         else acc)
      (combine (seq 0 (List.length pa)) pa)
      (device_index, micindex, []) in
  let out :=
    match device_index with
    | None =>
        List.app out
          ["No preferred input found; using default input device."]
    | Some _ => out
    end in
  (micindex,
   {| format := paInt16; channels := 2; rate := 48000;
      input := true; output := false;
      device_index := micindex;
      frames_per_buffer := 16384;
      stream_callback := stream_read_callback |},
   out).

(** Lines 227-250. *)
Definition open_speaker_stream (pa : list devinfo) (speakerindex : nat)
  : nat * stream * list string :=
  let device_index : option nat := None in
  let '(device_index, speakerindex, out) :=
    fold_left
      (fun (acc : scan) (idev : nat * devinfo) =>
         let '(i, devinfo) := idev in
         if (maxOutputChannels devinfo =? 2)%Z then
           fold_left
             (fun (acc : scan) (keyword : string) =>
                let '(device_index, speakerindex, out) := acc in
                if contains keyword (lower (name devinfo)) then
                  (Some i, i,
                   List.app out
                     ["Found an output: device " ++ dec i ++ " - "
                        ++ name devinfo])
                else acc)
             ["microsoft"] acc
         else acc)
      (combine (seq 0 (List.length pa)) pa)
      (device_index, speakerindex, []) in
  let out :=
    match device_index with
    | None =>
        List.app out
          ["No preferred output found; using default output device."]
    | Some _ => out
    end in
  (speakerindex,
   {| format := paInt16; channels := 2; rate := 48000;
      input := false; output := true;
      device_index := speakerindex;
      frames_per_buffer := 16384;
      stream_callback := stream_write_callback |},
   out).

(** [__init__], lines 188-194, on a host with the device table [pa].
    [numpy.ndarray([1, 32768], dtype=int16)] is not initialised: the buffer
    holds at first what the memory [uninitialised] holds.  Returns the
    object and the lines printed. *)
Definition init (pa : list devinfo) (uninitialised : nat -> Z)
  : StreamSampler * list string :=
  let micindex := 1%nat in
  let speakerindex := 1%nat in
  let '(micindex, micstream, out1) := open_mic_stream pa micindex in
  let '(speakerindex, speakerstream, out2) :=
    open_speaker_stream pa speakerindex in
  ({| pa := pa; micindex := micindex; speakerindex := speakerindex;
      micstream := micstream; speakerstream := speakerstream;
      xbuffer := map uninitialised (seq 0 xbuffer_len) |},
   List.app out1 out2).

(** A device the scan for inputs (outputs) prefers: two channels of that
    direction and the keyword somewhere in its lowered name. *)
Definition preferred (channels_of : devinfo -> Z) (d : devinfo) : Prop :=
  channels_of d = 2%Z /\
  exists a b, lower (name d) = a ++ "microsoft" ++ b.
End Scan.
End Devices.

(** ** [StreamSampler]: the callbacks *)

(** [sys.byteorder]: [numpy.int16] has the byte order of the host. *)
Inductive byteorder : Type := little | big.

(** One [int16] read from two bytes of a buffer. *)
Definition int16_of_bytes (order : byteorder) (b0 b1 : byte) : Z :=
  let (lo, hi) := match order with
                  | little => (b0, b1)
                  | big => (b1, b0)
                  end in
  let u := (Z.of_N (Byte.to_N lo) + 256 * Z.of_N (Byte.to_N hi))%Z in
  if (u <? 32768)%Z then u else (u - 65536)%Z.

(** [numpy.ndarray(buffer=buffer, dtype=numpy.int16, shape=[1, n])], as its
    one row; TypeError (None) when the buffer is too small. *)
Fixpoint ndarray_int16 (order : byteorder) (n : nat) (buffer : list byte)
  : option (list Z) :=
  match n with
  | O => Some []
  | S n' =>
      match buffer with
      | b0 :: b1 :: rest =>
          option_map (cons (int16_of_bytes order b0 b1))
                     (ndarray_int16 order n' rest)
      | _ => None
      end
  end.

Section Callbacks.
Context {T : Type} {ops : NumOps T}.
Import Devices.

(** Lines 253-255.  The assignment to [xbuffer[0, :]] raises ValueError
    when the row does not have the shape of the array read. *)
Definition non_blocking_stream_read (order : byteorder)
    (self : StreamSampler) (in_data : list byte)
  : option (StreamSampler * (option (list Z) * Z)) :=
  match ndarray_int16 order xbuffer_len in_data with
  | Some row =>
      if (length (xbuffer self) =? length row)%nat
      then Some ({| pa := pa self;
                    micindex := micindex self;
                    speakerindex := speakerindex self;
                    micstream := micstream self;
                    speakerstream := speakerstream self;
                    xbuffer := row |},
                 (None, paContinue))
      else None
  | None => None
  end.

(** Lines 258-259; [in_data] is not read. *)
Definition non_blocking_stream_write (self : StreamSampler)
    (in_data : option (list byte))
  : option (list (option Z) * Z) :=
  match stream_write (xbuffer self) with
  | Some data2 => Some (data2, paContinue)
  | None => None
  end.
End Callbacks.

(** * Properties *)

Unset Implicit Arguments.

(** ** Arrays *)

Section ArrayFacts.
Variables A B C : Type.

Lemma map2_length (f : A -> B -> C) xs ys :
  length (map2 f xs ys) = Nat.min (length xs) (length ys).
Proof.
  revert ys; induction xs as [|x xs IH]; intros [|y ys]; simpl; auto.
Qed.

Lemma map2_nth (f : A -> B -> C) xs ys i da db dc :
  (i < length xs)%nat -> (i < length ys)%nat ->
  nth i (map2 f xs ys) dc = f (nth i xs da) (nth i ys db).
Proof.
  revert ys i; induction xs as [|x xs IH]; intros [|y ys] [|i]; simpl;
    intros; try lia; auto.
  apply IH; lia.
Qed.

End ArrayFacts.

Section StrideFacts.
Variable A : Type.

(** Induction two elements at a time. *)
Lemma list_ind2 (P : list A -> Prop) :
  P [] -> (forall x, P [x]) ->
  (forall x y l, P l -> P (x :: y :: l)) -> forall l, P l.
Proof.
  intros H0 H1 H2 l.
  assert (H : P l /\ forall x, P (x :: l)) by
    (induction l as [|y l [IHa IHb]]; split; auto).
  apply H.
Qed.

Lemma stride2_length (l : list A) :
  length (stride2 l) = Nat.div2 (S (length l)).
Proof.
  induction l as [| x | x y l IH] using list_ind2; simpl in *; auto.
Qed.

Lemma stride2_tl_length (l : list A) :
  length (stride2 (tl l)) = Nat.div2 (length l).
Proof.
  destruct l as [|x l]; simpl; auto. apply stride2_length.
Qed.

Lemma stride2_map (B : Type) (f : A -> B) (l : list A) :
  stride2 (map f l) = map f (stride2 l).
Proof.
  induction l as [| x | x y l IH] using list_ind2; simpl; auto.
  now rewrite IH.
Qed.

Lemma interleave_stride2 (l : list A) :
  Nat.even (length l) = true ->
  interleave (stride2 l) (stride2 (tl l)) = l.
Proof.
  induction l as [| x | x y l IH] using list_ind2; intros E;
    try discriminate; auto.
  destruct l as [|z l]; auto.
  change (x :: y :: interleave (stride2 (z :: l)) (stride2 (tl (z :: l)))
          = x :: y :: z :: l).
  now rewrite IH.
Qed.

Lemma interleave_length (l r : list A) :
  length l = length r -> length (interleave l r) = (2 * length l)%nat.
Proof.
  revert r; induction l as [|x l IH]; intros [|y r]; simpl; intros E;
    try discriminate; auto.
  rewrite IH by lia. lia.
Qed.

Lemma interleave_nth (l r : list A) i d :
  length l = length r -> (i < length l)%nat ->
  nth (2 * i) (interleave l r) d = nth i l d /\
  nth (2 * i + 1) (interleave l r) d = nth i r d.
Proof.
  revert r i; induction l as [|x l IH]; intros [|y r] [|i]; simpl;
    intros E Hi; try discriminate; try lia; auto.
  replace (i + S (i + 0))%nat with (S (2 * i)) by lia.
  replace (S (2 * i) + 1)%nat with (S (2 * i + 1)) by lia.
  apply IH; lia.
Qed.

Lemma div2_double (n : nat) : Nat.div2 (n + n) = n.
Proof.
  induction n as [|n IH]; simpl; auto.
  replace (n + S n)%nat with (S (n + n)) by lia. now rewrite IH.
Qed.

Lemma even_double (n : nat) : Nat.even (n + n) = true.
Proof.
  induction n as [|n IH]; simpl; auto.
  replace (n + S n)%nat with (S (n + n)) by lia. exact IH.
Qed.

Lemma np_split2_app (l r : list A) :
  length l = length r -> np_split2 (l ++ r) = Some (l, r).
Proof.
  intros E. unfold np_split2.
  rewrite length_app, <- E, even_double, div2_double.
  rewrite firstn_app, Nat.sub_diag, firstn_all; simpl; rewrite app_nil_r.
  now rewrite skipn_app, Nat.sub_diag, skipn_all.
Qed.
End StrideFacts.

(** ** The loop *)

Section LoopFacts.
Context {T : Type} {ops : NumOps T}.
Variables data data_variance : list T.

Lemma iterates_S k :
  iterates data data_variance (S k)
  = fst (iterate data data_variance (iterates data data_variance k)).
Proof. reflexivity. Qed.

Lemma iterates_iteration k : iteration (iterates data data_variance k) = k.
Proof.
  induction k as [|k IH]; [reflexivity|].
  rewrite iterates_S. simpl. now rewrite IH.
Qed.

Lemma iterates_converged k :
  converged (iterates data data_variance k) = false.
Proof.
  induction k as [|k IH]; [reflexivity|].
  rewrite iterates_S. simpl. exact IH.
Qed.

Lemma body_iterates k :
  body data data_variance (iterates data data_variance k)
  = if stops_at data data_variance (S k)
    then combine_iteration_zero data data_variance
           (iterates data data_variance (S k))
    else iterates data data_variance (S k).
Proof.
  unfold body, stops_at, trend_of. rewrite iterates_S. simpl pred.
  now destruct (iterate data data_variance (iterates data data_variance k)).
Qed.

Lemma stops_at_cap k :
  (max_iter < k)%nat -> stops_at data data_variance k = true.
Proof.
  intros Hk. unfold stops_at, stop_test. rewrite iterates_iteration.
  apply Nat.ltb_lt in Hk. rewrite Hk. apply orb_true_r.
Qed.

Lemma while_from fuel : forall k,
  (S max_iter <= k + fuel)%nat ->
  (forall j, (1 <= j <= k)%nat -> stops_at data data_variance j = false) ->
  exists K, (k < K <= S max_iter)%nat /\
    while_not_converged data data_variance fuel (iterates data data_variance k)
    = Some (combine_iteration_zero data data_variance
              (iterates data data_variance K)) /\
    stops_at data data_variance K = true /\
    (forall j, (1 <= j < K)%nat -> stops_at data data_variance j = false).
Proof.
  induction fuel as [|fuel IH]; intros k Hk Hno.
  - assert (E : stops_at data data_variance (S max_iter) = true)
      by (apply stops_at_cap; lia).
    rewrite Hno in E by (unfold max_iter in *; lia). discriminate.
  - cbn [while_not_converged]. rewrite iterates_converged, body_iterates.
    destruct (stops_at data data_variance (S k)) eqn:Es.
    + exists (S k). repeat split.
      * lia.
      * destruct (Nat.le_gt_cases (S k) (S max_iter)) as [Hle|Hgt]; auto.
        rewrite Hno in Es; [discriminate|].
        assert (E : stops_at data data_variance (S max_iter) = true)
          by (apply stops_at_cap; lia).
        rewrite Hno in E by lia. discriminate.
      * destruct fuel; reflexivity.
      * exact Es.
      * intros j Hj. apply Hno. lia.
    + destruct (IH (S k)) as (K & HK & Hw & Hs & Hn).
      * lia.
      * intros j Hj. destruct (Nat.eq_dec j (S k)) as [->|Hne]; auto.
        apply Hno. lia.
      * exists K. repeat split; auto; lia.
Qed.

(** The loop returns: some test [K <= max_iter + 1] is the first to pass,
    and the result is the [K]-th iterate with iteration zero folded in. *)
Lemma loop_result :
  exists K, (1 <= K <= S max_iter)%nat /\
    while_not_converged data data_variance (S max_iter)
      (initial_state data data_variance)
    = Some (combine_iteration_zero data data_variance
              (iterates data data_variance K)) /\
    stops_at data data_variance K = true /\
    (forall j, (1 <= j < K)%nat -> stops_at data data_variance j = false).
Proof.
  destruct (while_from (S max_iter) 0) as (K & HK & Hw & Hs & Hn).
  - lia.
  - intros j Hj. lia.
  - exists K. repeat split; auto; lia.
Qed.
End LoopFacts.

Section Termination.
Context {T : Type} {ops : NumOps T}.
Variables data data_variance : list T.

Lemma body_iter_iterates k :
  (forall j, (1 <= j <= k)%nat -> stops_at data data_variance j = false) ->
  Nat.iter k (body data data_variance) (initial_state data data_variance)
  = iterates data data_variance k.
Proof.
  induction k as [|k IH]; intros Hno; [reflexivity|].
  rewrite Nat.iter_succ, IH by (intros; apply Hno; lia).
  rewrite body_iterates, Hno by lia. reflexivity.
Qed.

Lemma first_stop_unique K K' :
  stops_at data data_variance K = true ->
  (forall j, (1 <= j < K)%nat -> stops_at data data_variance j = false) ->
  stops_at data data_variance K' = true ->
  (forall j, (1 <= j < K')%nat -> stops_at data data_variance j = false) ->
  (1 <= K)%nat -> (1 <= K')%nat -> K = K'.
Proof.
  intros HK HnK HK' HnK' H1 H1'.
  destruct (Nat.lt_trichotomy K K') as [Hlt|[->|Hgt]]; auto.
  - rewrite HnK' in HK by lia. discriminate.
  - rewrite HnK in HK' by lia. discriminate.
Qed.
End Termination.

(** C4. The convergence loop of the smoother terminates for every input:
    run with room for [max_iter + 1 = 129] executions of its body (or any
    larger number) it returns a converged state, reached by [k] executions
    of the body with [1 <= k <= 129], the iteration counter standing at [k]. *)
Theorem smoother_loop_terminates :
  forall (T : Type) (ops : NumOps T) (data data_variance : list T),
  exists (st : state) (k : nat),
    (1 <= k <= 129)%nat /\
    st = Nat.iter k (body data data_variance)
           (initial_state data data_variance) /\
    iteration st = k /\ converged st = true /\
    forall fuel, (129 <= fuel)%nat ->
      while_not_converged data data_variance fuel
        (initial_state data data_variance) = Some st.
Proof.
  intros T ops data dv.
  destruct (loop_result data dv) as (K & HK & Hw & Hs & Hn).
  exists (combine_iteration_zero data dv (iterates data dv K)), K.
  change (S max_iter) with 129%nat in HK.
  split; [exact HK|]. split; [|split; [|split]].
  - destruct K as [|K]; [lia|]. rewrite Nat.iter_succ.
    rewrite body_iter_iterates by (intros; apply Hn; lia).
    now rewrite body_iterates, Hs.
  - simpl. apply iterates_iteration.
  - reflexivity.
  - intros fuel Hf.
    destruct (while_from data dv fuel 0) as (K' & HK' & Hw' & Hs' & Hn').
    + unfold max_iter. lia.
    + intros j Hj. lia.
    + change (iterates data dv 0) with (initial_state data dv) in Hw'.
      rewrite Hw'. do 3 f_equal.
      apply (first_stop_unique data dv K' K); auto; lia.
Qed.

(** ** BoundaryPadder *)

Section PadFacts.
Context {T : Type} {ops : NumOps T}.
Local Open Scope num_scope.

Lemma nth_back_nth (c : list T) k d :
  (1 <= k <= length c)%nat ->
  nth_back c k = Some (nth (length c - k) c d).
Proof.
  intros Hk. unfold nth_back.
  destruct (Nat.leb_spec k (length c)); [|lia].
  apply nth_error_nth'. lia.
Qed.

Lemma pad_some (c : list T) d :
  (2 <= length c)%nat ->
  pad c = Some ([nth 0 c d / lit 2 + nth 1 c d / lit 2] ++ c ++
                [nth (length c - 1) c d / lit 2
                 + nth (length c - 2) c d / lit 2]).
Proof.
  intros Hn. unfold pad, avar, zvar.
  rewrite (nth_error_nth' c d (n:=0)), (nth_error_nth' c d (n:=1)) by lia.
  rewrite (nth_back_nth c 1 d), (nth_back_nth c 2 d) by lia.
  reflexivity.
Qed.

Lemma pad_none (c : list T) : (length c < 2)%nat -> pad c = None.
Proof.
  destruct c as [|x [|y c]]; simpl; intros; try lia; reflexivity.
Qed.

Lemma pad_length (c p : list T) :
  pad c = Some p -> (2 <= length c)%nat /\ length p = (length c + 2)%nat.
Proof.
  intros Hp.
  destruct (Nat.le_gt_cases 2 (length c)) as [Hn|Hn].
  - destruct c as [|d c]; [simpl in Hn; lia|].
    rewrite (pad_some _ d Hn) in Hp. injection Hp as <-.
    split; auto. cbn [app length]. rewrite length_app. simpl. lia.
  - rewrite pad_none in Hp by lia. discriminate.
Qed.
End PadFacts.

(** C9. For every channel of length [n >= 2] the padder returns a sequence
    of length [n + 2] whose interior is the channel itself, whose first
    element is [(channel[0] + channel[1]) / 2] and whose last element is
    [(channel[n-1] + channel[n-2]) / 2] (exact arithmetic). *)
Theorem pad_boundary_estimates :
  forall (pdf : R -> nat -> R) (channel : list R),
    (2 <= length channel)%nat ->
    exists p,
      pad (ops := R_ops pdf) channel = Some p /\
      length p = (length channel + 2)%nat /\
      (forall i, (i < length channel)%nat ->
         nth (S i) p 0%R = nth i channel 0%R) /\
      nth 0 p 0%R = ((nth 0 channel 0 + nth 1 channel 0) / 2)%R /\
      nth (length channel + 1) p 0%R
      = ((nth (length channel - 1) channel 0
          + nth (length channel - 2) channel 0) / 2)%R.
Proof.
  intros pdf channel Hn.
  eexists. split; [apply (pad_some (ops := R_ops pdf) channel 0%R Hn)|].
  cbn [app]. split; [|split; [|split]].
  - simpl. rewrite length_app. simpl. lia.
  - intros i Hi. cbn [nth]. now rewrite app_nth1.
  - cbn [nth]. unfold lit. simpl. lra.
  - replace (length channel + 1)%nat with (S (length channel)) by lia.
    cbn [nth]. rewrite app_nth2, Nat.sub_diag by lia.
    cbn [nth]. unfold lit. simpl. lra.
Qed.

Lemma pad_boundary_estimates_witness :
  exists p,
    pad (ops := R_ops (fun _ _ => 0%R)) [1; 2; 4]%R = Some p /\
    length p = 5%nat /\
    (forall i, (i < 3)%nat -> nth (S i) p 0%R = nth i [1; 2; 4]%R 0%R) /\
    nth 0 p 0%R = ((1 + 2) / 2)%R /\
    nth 4 p 0%R = ((4 + 2) / 2)%R.
Proof.
  apply (pad_boundary_estimates (fun _ _ => 0%R) [1; 2; 4]%R).
  simpl. lia.
Defined.

(** ** NoiseModelEstimator *)

Section EstimatorFacts.
Context {T : Type} {ops : NumOps T}.
Local Open Scope num_scope.

Lemma data_beta_cons (x y z : T) (t : list T) :
  data_beta (x :: y :: z :: t)
  = (x + y + z / lit 3) :: data_beta (y :: z :: t).
Proof. reflexivity. Qed.

Lemma data_beta_length (p : list T) :
  length (data_beta p) = (length p - 2)%nat.
Proof.
  induction p as [|x p IH]; [reflexivity|].
  destruct p as [|y [|z t]]; try reflexivity.
  rewrite data_beta_cons. cbn [length] in *. rewrite IH. lia.
Qed.

Lemma data_beta_nth (p : list T) i d :
  (i + 2 < length p)%nat ->
  nth i (data_beta p) d
  = nth i p d + nth (i + 1) p d + nth (i + 2) p d / lit 3.
Proof.
  revert i; induction p as [|x p IH]; intros i Hi; [simpl in Hi; lia|].
  destruct p as [|y [|z t]]; try (simpl in Hi; lia).
  rewrite data_beta_cons. destruct i as [|i]; [reflexivity|].
  cbn [nth]. rewrite IH by (simpl in *; lia). reflexivity.
Qed.

Lemma map_combine_repeat (A B : Type) (f : A * A -> B) (x : A) n :
  forall l, map f (combine l (repeat x n))
            = map (fun b => f (b, x)) (firstn n l).
Proof.
  induction n as [|n IH]; intros [|b l]; simpl; auto.
  now rewrite IH.
Qed.

Lemma data_variance_residues_eq (beta : list T) :
  data_variance_residues beta
  = map (fun b => np_abs (b - np_mean beta)) (firstn residues_len beta).
Proof.
  unfold data_variance_residues.
  now rewrite (map_combine_repeat _ _ (fun ij => np_abs (fst ij - snd ij))).
Qed.

Lemma data_variance_residues_length (beta : list T) :
  length (data_variance_residues beta)
  = Nat.min residues_len (length beta).
Proof.
  rewrite data_variance_residues_eq, length_map. apply length_firstn.
Qed.

Lemma scale_residues_length (res : list T) :
  length (scale_residues res) = length res.
Proof. unfold scale_residues. apply length_map. Qed.

Lemma noise_variance_length (p : list T) :
  length (noise_variance p) = Nat.min residues_len (length p - 2).
Proof.
  unfold noise_variance.
  now rewrite scale_residues_length, data_variance_residues_length,
    data_beta_length.
Qed.

End EstimatorFacts.

Section RealEstimator.
Variable pdf : R -> nat -> R.
Local Abbreviation Rops := (R_ops pdf).
Local Open Scope R_scope.

Lemma fold_left_Rplus (l : list R) (a : R) :
  fold_left Rplus l a = a + Rsum l.
Proof.
  revert a; induction l as [|x l IH]; intros a; simpl.
  - lra.
  - rewrite IH. lra.
Qed.

Lemma np_sum_R (l : list R) : np_sum (ops := Rops) l = Rsum l.
Proof.
  unfold np_sum, lit. simpl. rewrite fold_left_Rplus. lra.
Qed.

Lemma size_of_R (l : list R) : size_of (ops := Rops) l = INR (length l).
Proof. unfold size_of. simpl. symmetry. apply INR_IZR_INZ. Qed.

Lemma np_mean_R (l : list R) : np_mean (ops := Rops) l = Rmean l.
Proof. unfold np_mean, Rmean. now rewrite np_sum_R, size_of_R. Qed.

Lemma np_var_R (l : list R) : np_var (ops := Rops) l = Rpop_variance l.
Proof.
  unfold np_var, Rpop_variance. rewrite !np_mean_R. f_equal.
  apply map_ext. intros x. unfold sq. simpl. ring.
Qed.

Lemma Rsum_nonneg (l : list R) : Forall (fun x => 0 <= x) l -> 0 <= Rsum l.
Proof.
  induction 1 as [|x l Hx _ IH]; simpl; lra.
Qed.

Lemma Rmean_nonneg (l : list R) : Forall (fun x => 0 <= x) l -> 0 <= Rmean l.
Proof.
  intros Hl. unfold Rmean. destruct l as [|x l].
  - simpl. unfold Rdiv. rewrite Rmult_0_l. lra.
  - apply Rmult_le_pos; [now apply Rsum_nonneg|].
    apply Rlt_le, Rinv_0_lt_compat, lt_0_INR. simpl. lia.
Qed.

Lemma Rpop_variance_nonneg (l : list R) : 0 <= Rpop_variance l.
Proof.
  apply Rmean_nonneg, Forall_forall. intros y Hy.
  apply in_map_iff in Hy. destruct Hy as (x & <- & _). apply pow2_ge_0.
Qed.
End RealEstimator.

(** C5 (as the code has it).  For a channel of length [n <= 32768] and its
    padded sequence, the estimator forms
    [triplet_avg[i] = padded[i] + padded[i+1] + padded[i+2]/3] for [i < n],
    [residual[i] = |triplet_avg[i] - mean(triplet_avg)|], scales the
    residuals by their population variance, and so returns [n] values, each
    [>= 0].  The bound on [n] is the length of the arrays of means. *)
Theorem noise_variance_spec :
  forall (pdf : R -> nat -> R) (channel padded : list R),
    pad (ops := R_ops pdf) channel = Some padded ->
    (length channel <= residues_len)%nat ->
    let triplet_avg := data_beta (ops := R_ops pdf) padded in
    let residual := map (fun t => Rabs (t - Rmean triplet_avg)) triplet_avg in
    length triplet_avg = length channel /\
    (forall i, (i < length channel)%nat ->
       nth i triplet_avg 0
       = nth i padded 0 + nth (i + 1) padded 0 + nth (i + 2) padded 0 / 3)%R /\
    noise_variance (ops := R_ops pdf) padded
    = map (fun r => (r * Rpop_variance residual)%R) residual /\
    length (noise_variance (ops := R_ops pdf) padded) = length channel /\
    Forall (fun v => (0 <= v)%R) (noise_variance (ops := R_ops pdf) padded).
Proof.
  intros pdf channel padded Hpad Hn triplet_avg residual.
  destruct (pad_length _ _ Hpad) as [H2 Hlen].
  assert (Hb : length triplet_avg = length channel)
    by (unfold triplet_avg; rewrite data_beta_length; lia).
  assert (Hres : data_variance_residues (ops := R_ops pdf) triplet_avg
                 = residual).
  { rewrite data_variance_residues_eq, firstn_all2 by lia.
    unfold residual. apply map_ext. intros t. now rewrite np_mean_R. }
  assert (Hnv : noise_variance (ops := R_ops pdf) padded
                = map (fun r => (r * Rpop_variance residual)%R) residual).
  { unfold noise_variance. fold triplet_avg. rewrite Hres.
    unfold scale_residues. now rewrite np_var_R. }
  split; [exact Hb|]. split; [|split; [exact Hnv|split]].
  - intros i Hi. unfold triplet_avg.
    rewrite data_beta_nth by lia. reflexivity.
  - rewrite noise_variance_length. lia.
  - rewrite Hnv. apply Forall_forall. intros v Hv.
    apply in_map_iff in Hv. destruct Hv as (r & <- & Hr).
    apply in_map_iff in Hr. destruct Hr as (t & <- & _).
    apply Rmult_le_pos; [apply Rabs_pos|apply Rpop_variance_nonneg].
Qed.

Lemma noise_variance_spec_witness :
  let pdf := fun (_ : R) (_ : nat) => 0%R in
  let padded := [1 / 2; 0; 1; 3; 2]%R in
  let triplet_avg := data_beta (ops := R_ops pdf) padded in
  let residual := map (fun t => Rabs (t - Rmean triplet_avg)) triplet_avg in
  length triplet_avg = 3%nat /\
  (forall i, (i < 3)%nat ->
     nth i triplet_avg 0
     = nth i padded 0 + nth (i + 1) padded 0 + nth (i + 2) padded 0 / 3)%R /\
  noise_variance (ops := R_ops pdf) padded
  = map (fun r => (r * Rpop_variance residual)%R) residual /\
  length (noise_variance (ops := R_ops pdf) padded) = 3%nat /\
  Forall (fun v => (0 <= v)%R) (noise_variance (ops := R_ops pdf) padded).
Proof.
  apply (noise_variance_spec (fun _ _ => 0%R) [0; 1; 3]%R).
  - unfold pad, avar, zvar, nth_back, lit. simpl.
    replace (0 / 2 + 1 / 2)%R with (1 / 2)%R by lra.
    replace (3 / 2 + 1 / 2)%R with 2%R by lra. reflexivity.
  - unfold residues_len. simpl length. lia.
Defined.

(** C5, the length as stated.  A channel of 32769 samples has a variance
    estimate of 32768 values: [zip] stops at the end of the array of means. *)
Lemma noise_variance_length_capped :
  exists channel padded : list R,
    pad (ops := R_ops (fun _ _ => 0%R)) channel = Some padded /\
    length channel = Z.to_nat 32769 /\
    length (noise_variance (ops := R_ops (fun _ _ => 0%R)) padded)
    = Z.to_nat 32768.
Proof.
  exists (repeat 0%R (Z.to_nat 32769)). eexists.
  split; [apply (pad_some (ops := R_ops (fun _ _ => 0%R)) _ 0%R);
          rewrite repeat_length; lia|].
  split; [apply repeat_length|].
  rewrite noise_variance_length. cbn [app length].
  rewrite length_app, repeat_length. unfold residues_len. simpl length. lia.
Qed.

(** ** ChannelCodec.split and the variance array *)

Section SplitFacts.
Context {T : Type} {ops : NumOps T}.
Local Open Scope num_scope.

Lemma div2_S_double (n : nat) : Nat.div2 (S (n + n)) = n.
Proof.
  induction n as [|n IH]; simpl; auto.
  replace (n + S n)%nat with (S (n + n)) by lia. now rewrite IH.
Qed.

Lemma channels_length (data : list T) n :
  length data = (2 * n)%nat ->
  length (dleft_of (map (fun x => x / lit 1) data)) = n /\
  length (dright_of (map (fun x => x / lit 1) data)) = n.
Proof.
  intros Hn. unfold dleft_of, dright_of.
  rewrite stride2_length, stride2_tl_length, length_map, Hn.
  replace (2 * n)%nat with (n + n)%nat by lia.
  now rewrite div2_S_double, div2_double.
Qed.

Lemma data_variance_of_some (data : list T) padl padr :
  pad (dleft_of (map (fun x => x / lit 1) data)) = Some padl ->
  pad (dright_of (map (fun x => x / lit 1) data)) = Some padr ->
  data_variance_of data = Some (noise_variance padl ++ noise_variance padr).
Proof.
  intros Hl Hr. unfold data_variance_of. now rewrite Hl, Hr.
Qed.

Lemma data_variance_of_inv (data dv : list T) :
  data_variance_of data = Some dv ->
  exists padl padr,
    pad (dleft_of (map (fun x => x / lit 1) data)) = Some padl /\
    pad (dright_of (map (fun x => x / lit 1) data)) = Some padr /\
    dv = noise_variance padl ++ noise_variance padr.
Proof.
  unfold data_variance_of.
  destruct (pad (dleft_of _)) as [padl|]; [|discriminate].
  destruct (pad (dright_of _)) as [padr|]; [|discriminate].
  intros E. injection E as <-. now exists padl, padr.
Qed.

Lemma data_variance_of_defined (data : list T) n :
  length data = (2 * n)%nat -> (2 <= n)%nat ->
  exists dv, data_variance_of data = Some dv.
Proof.
  intros Hlen Hn. destruct (channels_length data n Hlen) as [Hl Hr].
  eexists. apply data_variance_of_some; apply (pad_some _ (lit 0)); lia.
Qed.

Lemma padded_variance_length (c p : list T) :
  pad c = Some p -> (length c <= residues_len)%nat ->
  length (noise_variance p) = length c.
Proof.
  intros Hp Hn. destruct (pad_length _ _ Hp) as [_ Hl].
  rewrite noise_variance_length. lia.
Qed.
End SplitFacts.

(** C10. For a block of [2n] samples, [2 <= n <= 32768], the variance
    array is aligned with the data array the smoother processes: the data
    are the left channel followed by the right channel, and the variances
    are those of the padded left channel (the variables suffixed [r])
    followed by those of the padded right channel (suffixed [l]), each of
    length [n]. *)
Theorem variance_channel_aligned :
  forall (T : Type) (ops : NumOps T) (data : list T) (n : nat),
    length data = (2 * n)%nat -> (2 <= n <= residues_len)%nat ->
    let dleft := dleft_of (map (fun x => fdiv x (lit 1)) data) in
    let dright := dright_of (map (fun x => fdiv x (lit 1)) data) in
    exists data_alphal_padded data_alphar_padded data_variance,
      pad dleft = Some data_alphal_padded /\
      pad dright = Some data_alphar_padded /\
      data_variance_of data = Some data_variance /\
      length dleft = n /\ length dright = n /\
      firstn n (split data) = dleft /\
      skipn n (split data) = dright /\
      firstn n data_variance = noise_variance data_alphal_padded /\
      skipn n data_variance = noise_variance data_alphar_padded /\
      length data_variance = length (split data).
Proof.
  intros T ops data n Hlen Hn dleft dright.
  destruct (channels_length data n Hlen) as [Hl Hr].
  fold dleft in Hl. fold dright in Hr.
  assert (Hsplit : split data = dleft ++ dright) by reflexivity.
  assert (Hdv := data_variance_of_some data).
  fold dleft dright in Hdv. rewrite Hsplit. clearbody dleft dright.
  assert (H2l : (2 <= length dleft)%nat) by lia.
  assert (H2r : (2 <= length dright)%nat) by lia.
  assert (Hpl := pad_some dleft (lit 0) H2l).
  assert (Hpr := pad_some dright (lit 0) H2r).
  set (padl := _ ++ dleft ++ _) in Hpl. clearbody padl.
  set (padr := _ ++ dright ++ _) in Hpr. clearbody padr.
  eexists _, _, _. split; [exact Hpl|]. split; [exact Hpr|].
  split; [apply Hdv; [exact Hpl|exact Hpr]|].
  assert (Hcl : (length dleft <= residues_len)%nat) by lia.
  assert (Hcr : (length dright <= residues_len)%nat) by lia.
  assert (Hvl := padded_variance_length _ _ Hpl Hcl).
  assert (Hvr := padded_variance_length _ _ Hpr Hcr).
  repeat split; auto.
  - rewrite firstn_app, <- Hl at 1. rewrite firstn_all, Hl, Nat.sub_diag.
    simpl. apply app_nil_r.
  - rewrite skipn_app, <- Hl at 1. rewrite skipn_all, Hl, Nat.sub_diag.
    reflexivity.
  - rewrite firstn_app, Hvl, Hl, Nat.sub_diag, firstn_O, app_nil_r.
    apply firstn_all2. lia.
  - rewrite skipn_app, Hvl, Hl, Nat.sub_diag, skipn_O.
    rewrite skipn_all2 by lia. reflexivity.
  - rewrite !length_app. lia.
Qed.

Lemma variance_channel_aligned_witness :
  let ops := R_ops (fun _ _ => 0%R) in
  let data := [1; 2; 3; 4]%R in
  let dleft := dleft_of (map (fun x => fdiv x (lit 1)) data) in
  let dright := dright_of (map (fun x => fdiv x (lit 1)) data) in
  exists data_alphal_padded data_alphar_padded data_variance,
    pad dleft = Some data_alphal_padded /\
    pad dright = Some data_alphar_padded /\
    data_variance_of data = Some data_variance /\
    length dleft = 2%nat /\ length dright = 2%nat /\
    firstn 2 (split data) = dleft /\
    skipn 2 (split data) = dright /\
    firstn 2 data_variance = noise_variance data_alphal_padded /\
    skipn 2 data_variance = noise_variance data_alphar_padded /\
    length data_variance = length (split data).
Proof.
  apply (variance_channel_aligned R (R_ops (fun _ _ => 0%R)) [1; 2; 3; 4]%R 2).
  - reflexivity.
  - unfold residues_len. lia.
Defined.

(** C1 (as the code has it).  What the smoother is given for one channel
    depends on that channel alone: when two blocks of [2n] samples,
    [n <= 32768], agree on the left (right) channel, the left (right) halves
    of their data arrays agree and so do the left (right) halves of their
    variance arrays.  The smoother then runs once on the concatenation. *)
Theorem smoother_inputs_per_channel :
  forall (T : Type) (ops : NumOps T) (right : bool)
         (data1 data2 dv1 dv2 : list T) (n : nat),
    length data1 = (2 * n)%nat -> length data2 = (2 * n)%nat ->
    (n <= residues_len)%nat ->
    channel_of right data1 = channel_of right data2 ->
    data_variance_of data1 = Some dv1 ->
    data_variance_of data2 = Some dv2 ->
    half_of right n (split data1) = half_of right n (split data2) /\
    half_of right n dv1 = half_of right n dv2.
Proof.
  intros T ops right data1 data2 dv1 dv2 n H1 H2 Hn Hc Hv1 Hv2.
  destruct (data_variance_of_inv _ _ Hv1) as (pl1 & pr1 & Hpl1 & Hpr1 & ->).
  destruct (data_variance_of_inv _ _ Hv2) as (pl2 & pr2 & Hpl2 & Hpr2 & ->).
  destruct (channels_length data1 n H1) as [Hl1 Hr1].
  destruct (channels_length data2 n H2) as [Hl2 Hr2].
  assert (Hvl1 := padded_variance_length _ _ Hpl1).
  assert (Hvl2 := padded_variance_length _ _ Hpl2).
  rewrite Hl1 in Hvl1. rewrite Hl2 in Hvl2.
  specialize (Hvl1 Hn). specialize (Hvl2 Hn).
  unfold split, half_of, channel_of in *. destruct right.
  - assert (E : dright_of (map (fun x => fdiv x (lit 1)) data1)
                = dright_of (map (fun x => fdiv x (lit 1)) data2)).
    { unfold dright_of.
      replace (tl (map (fun x => fdiv x (lit 1)) data1))
        with (map (fun x => fdiv x (lit 1)) (tl data1)) by now destruct data1.
      replace (tl (map (fun x => fdiv x (lit 1)) data2))
        with (map (fun x => fdiv x (lit 1)) (tl data2)) by now destruct data2.
      rewrite !stride2_map. now rewrite Hc. }
    rewrite E in Hpr1. rewrite Hpr1 in Hpr2. injection Hpr2 as <-.
    rewrite !skipn_app, Hl1, Hl2, Hvl1, Hvl2, !Nat.sub_diag, !skipn_O.
    rewrite !skipn_all2 by lia. rewrite E. split; reflexivity.
  - assert (E : dleft_of (map (fun x => fdiv x (lit 1)) data1)
                = dleft_of (map (fun x => fdiv x (lit 1)) data2)).
    { unfold dleft_of. rewrite !stride2_map. now rewrite Hc. }
    rewrite E in Hpl1. rewrite Hpl1 in Hpl2. injection Hpl2 as <-.
    rewrite !firstn_app, Hl1, Hl2, Hvl1, !Nat.sub_diag, !firstn_O.
    rewrite !app_nil_r, !firstn_all2 by lia. rewrite E. split; reflexivity.
Qed.

Lemma smoother_inputs_per_channel_witness :
  let ops := R_ops (fun _ _ => 0%R) in
  let data1 := [1; 5; 2; 6; 4; 7]%R in
  let data2 := [1; 0; 2; 3; 4; 9]%R in
  exists dv1 dv2,
    data_variance_of data1 = Some dv1 /\
    data_variance_of data2 = Some dv2 /\
    half_of false 3 (split data1) = half_of false 3 (split data2) /\
    half_of false 3 dv1 = half_of false 3 dv2.
Proof.
  intros ops data1 data2.
  destruct (data_variance_of_defined data1 3) as (dv1 & Hv1);
    [reflexivity|lia|].
  destruct (data_variance_of_defined data2 3) as (dv2 & Hv2);
    [reflexivity|lia|].
  exists dv1, dv2. split; [exact Hv1|]. split; [exact Hv2|].
  apply (smoother_inputs_per_channel R ops false data1 data2 dv1 dv2 3).
  - reflexivity.
  - reflexivity.
  - unfold residues_len. lia.
  - reflexivity.
  - exact Hv1.
  - exact Hv2.
Defined.

(** ** The Bayes update *)

Section UpdateFacts.
Context {T : Type} {ops : NumOps T}.
Variables data data_variance : list T.
Local Open Scope num_scope.

Lemma iterate_posterior_variance (st : state) :
  posterior_variance (fst (iterate data data_variance st))
  = map2 harmonic (posterior_variance st) data_variance.
Proof.
  cbn [iterate fst posterior_variance].
  generalize (posterior_variance st) as pv. generalize data_variance as dv.
  intros dv pv; revert dv; induction pv as [|p pv IH]; intros [|d dv];
    simpl; auto.
  now rewrite IH.
Qed.

Lemma body_posterior_variance (st : state) :
  posterior_variance (body data data_variance st)
  = map2 harmonic (posterior_variance st) data_variance.
Proof.
  rewrite <- iterate_posterior_variance. unfold body.
  destruct (iterate data data_variance st) as [st' tr].
  now destruct (stop_test data st' tr).
Qed.

End UpdateFacts.

Section RealUpdate.
Variable pdf : R -> nat -> R.
Local Abbreviation Rops := (R_ops pdf).
Local Open Scope R_scope.

Lemma harmonic_R (pv dv : R) :
  harmonic (ops := Rops) pv dv = 1 / (1 / pv + 1 / dv).
Proof. reflexivity. Qed.

Lemma harmonic_pos (pv dv : R) :
  0 < pv -> 0 < dv -> 0 < 1 / (1 / pv + 1 / dv).
Proof.
  intros Hp Hd.
  assert (0 < / pv) by now apply Rinv_0_lt_compat.
  assert (0 < / dv) by now apply Rinv_0_lt_compat.
  unfold Rdiv. rewrite !Rmult_1_l. apply Rinv_0_lt_compat. lra.
Qed.

Lemma map2_harmonic_pos (pv dv : list R) :
  Forall (fun v => 0 < v) pv -> Forall (fun v => 0 < v) dv ->
  Forall (fun v => 0 < v) (map2 (harmonic (ops := Rops)) pv dv).
Proof.
  intros Hp; revert dv; induction Hp as [|p pv Hp _ IH];
    intros dv Hd; [constructor|].
  destruct Hd as [|d dv Hd Hdv]; [constructor|].
  simpl. constructor; [now apply harmonic_pos|now apply IH].
Qed.
End RealUpdate.

(** C8. In exact arithmetic: whenever [prior_variance[i]] and
    [data_variance[i]] are strictly positive, the posterior variance the
    loop body computes at [i] is [1/(1/prior_variance[i] + 1/data_variance[i])]
    and is strictly positive; and when every data variance is strictly
    positive, every posterior variance is, after any number of executions
    of the loop body. *)
Theorem posterior_variance_positive :
  forall (pdf : R -> nat -> R) (data data_variance : list R),
    (forall (st : state) (i : nat),
        (i < length (posterior_variance st))%nat ->
        (i < length data_variance)%nat ->
        (0 < nth i (posterior_variance st) 0)%R ->
        (0 < nth i data_variance 0)%R ->
        nth i (posterior_variance
                 (body (ops := R_ops pdf) data data_variance st)) 0%R
        = (1 / (1 / nth i (posterior_variance st) 0
                + 1 / nth i data_variance 0))%R /\
        (0 < nth i (posterior_variance
                      (body (ops := R_ops pdf) data data_variance st)) 0)%R) /\
    (Forall (fun v => (0 < v)%R) data_variance ->
     forall k : nat,
       Forall (fun v => (0 < v)%R)
         (posterior_variance
            (Nat.iter k (body (ops := R_ops pdf) data data_variance)
               (initial_state (ops := R_ops pdf) data data_variance)))).
Proof.
  intros pdf data dv. split.
  - intros st i Hi Hd Hpv Hdv.
    rewrite body_posterior_variance.
    rewrite (map2_nth _ _ _ _ _ _ i 0%R 0%R 0%R Hi Hd), harmonic_R.
    split; [reflexivity|now apply harmonic_pos].
  - intros Hdv k. induction k as [|k IH]; [exact Hdv|].
    rewrite Nat.iter_succ, body_posterior_variance.
    now apply map2_harmonic_pos.
Qed.

Lemma posterior_variance_positive_witness :
  let pdf := fun (_ : R) (_ : nat) => 0%R in
  let data := [1; 2]%R in
  let data_variance := [1; 4]%R in
  let st := initial_state (ops := R_ops pdf) data data_variance in
  (nth 1 (posterior_variance
            (body (ops := R_ops pdf) data data_variance st)) 0%R
   = (1 / (1 / 4 + 1 / 4))%R /\
   (0 < nth 1 (posterior_variance
                 (body (ops := R_ops pdf) data data_variance st)) 0)%R) /\
  Forall (fun v => (0 < v)%R)
    (posterior_variance
       (Nat.iter 3 (body (ops := R_ops pdf) data data_variance) st)).
Proof.
  intros pdf data dv st.
  destruct (posterior_variance_positive pdf data dv) as [Hstep Hrun].
  split.
  - apply (Hstep st 1%nat); simpl; try lia; lra.
  - apply Hrun. repeat constructor; lra.
Defined.

(** ** Shapes *)

Section SliceFacts.
Variable A : Type.

Lemma zip_keep_length (f : A -> A -> A) xs ys :
  length (zip_keep f xs ys) = length xs.
Proof.
  revert ys; induction xs as [|x xs IH]; intros [|y ys]; simpl; auto.
Qed.

Lemma upd_last_length (f : A -> A) l : length (upd_last f l) = length l.
Proof.
  induction l as [|x l IH]; [reflexivity|].
  destruct l as [|y l]; [reflexivity|].
  change (S (length (upd_last f (y :: l))) = S (length (y :: l))).
  now rewrite IH.
Qed.

Lemma upd_init_length (f : A -> A) l : length (upd_init f l) = length l.
Proof.
  induction l as [|x l IH]; [reflexivity|].
  destruct l as [|y l]; [reflexivity|].
  change (S (length (upd_init f (y :: l))) = S (length (y :: l))).
  now rewrite IH.
Qed.

Lemma upd_head_length (f : A -> A) l : length (upd_head f l) = length l.
Proof. now destruct l. Qed.

Lemma on_tail_length (g : list A -> list A) l :
  (forall t, length (g t) = length t) ->
  length (on_tail g l) = length l.
Proof. intros Hg. destruct l; simpl; auto. Qed.
End SliceFacts.

Section ShapeFacts.
Context {T : Type} {ops : NumOps T}.
Variables data data_variance : list T.
Hypothesis same_shape : length data_variance = length data.

Lemma meanx_of_length (pm : list T) : length (meanx_of pm) = length pm.
Proof.
  unfold meanx_of.
  rewrite upd_last_length, upd_head_length.
  rewrite on_tail_length by apply upd_init_length.
  rewrite on_tail_length by (intros; apply zip_keep_length).
  apply zip_keep_length.
Qed.

Lemma initial_state_shaped : shaped data (initial_state data data_variance).
Proof.
  unfold shaped. simpl. unfold initial_evidence_of.
  rewrite !length_map. repeat split; auto.
Qed.

Lemma iterate_shaped (st : state) :
  shaped data st -> shaped data (fst (iterate data data_variance st)).
Proof.
  intros (Hm & Hv & He & Hw & Hb). unfold shaped. simpl.
  rewrite ?map2_length, ?length_map, ?map2_length, ?length_map,
    ?map2_length, ?length_map, ?meanx_of_length.
  repeat split; lia.
Qed.

Lemma iterates_shaped k : shaped data (iterates data data_variance k).
Proof.
  induction k as [|k IH]; [apply initial_state_shaped|].
  rewrite iterates_S. now apply iterate_shaped.
Qed.

Lemma combine_iteration_zero_shaped (st : state) :
  shaped data st ->
  shaped data (combine_iteration_zero data data_variance st).
Proof.
  intros (Hm & Hv & He & Hw & Hb). unfold shaped. simpl.
  unfold initial_evidence_of.
  rewrite ?map2_length, ?length_map, ?map2_length, ?length_map.
  repeat split; lia.
Qed.
End ShapeFacts.

(** ** binary64: NaN *)

Section F64Nan.
Local Open Scope float_scope.

Lemma Prim2SF_nan_eq (x : float) : Prim2SF x = S754_nan -> x = nan.
Proof.
  intros E. rewrite <- (SF2Prim_Prim2SF x), E. reflexivity.
Qed.

Lemma Prim2SF_one :
  Prim2SF 1 = S754_finite false 4503599627370496 (-52).
Proof. vm_compute. reflexivity. Qed.

Ltac sf_cases x :=
  destruct (Prim2SF x) as [[|]|[|]| |[|] ? ?].

Lemma add_nan_l x : nan + x = nan.
Proof.
  apply Prim2SF_nan_eq. rewrite add_spec.
  change (Prim2SF nan) with S754_nan. reflexivity.
Qed.

Lemma add_nan_r x : x + nan = nan.
Proof.
  apply Prim2SF_nan_eq. rewrite add_spec.
  change (Prim2SF nan) with S754_nan. sf_cases x; reflexivity.
Qed.

Lemma sub_nan_r x : x - nan = nan.
Proof.
  apply Prim2SF_nan_eq. rewrite sub_spec.
  change (Prim2SF nan) with S754_nan. sf_cases x; reflexivity.
Qed.

Lemma mul_nan_l x : nan * x = nan.
Proof.
  apply Prim2SF_nan_eq. rewrite mul_spec.
  change (Prim2SF nan) with S754_nan. reflexivity.
Qed.

Lemma mul_nan_r x : x * nan = nan.
Proof.
  apply Prim2SF_nan_eq. rewrite mul_spec.
  change (Prim2SF nan) with S754_nan. sf_cases x; reflexivity.
Qed.

Lemma div_nan_l x : nan / x = nan.
Proof.
  apply Prim2SF_nan_eq. rewrite div_spec.
  change (Prim2SF nan) with S754_nan. reflexivity.
Qed.

Lemma div_nan_r x : x / nan = nan.
Proof.
  apply Prim2SF_nan_eq. rewrite div_spec.
  change (Prim2SF nan) with S754_nan. sf_cases x; reflexivity.
Qed.

(** The Bayes update of the mean at a sample whose prior and data variance
    are one degenerate value: NaN, whatever the prior mean and the datum. *)
Lemma degenerate_update_nan (p d v : float) :
  f64_degenerate v = true ->
  (p / v + d / v) * (1 / (1 / v + 1 / v)) = nan.
Proof.
  unfold f64_degenerate. intros Hv.
  apply Prim2SF_nan_eq.
  rewrite mul_spec, add_spec, !div_spec, add_spec, !div_spec, Prim2SF_one.
  destruct (Prim2SF v) as [[|]|[|]| |? ? ?]; try discriminate;
    sf_cases p; sf_cases d; reflexivity.
Qed.

End F64Nan.

Section MoreArrayFacts.
Variables A B C : Type.

Lemma nth_map_lt (f : A -> B) (l : list A) i d d' :
  (i < length l)%nat -> nth i (map f l) d' = f (nth i l d).
Proof.
  intros Hi. rewrite (nth_indep _ d' (f d)) by now rewrite length_map.
  apply map_nth.
Qed.

Lemma Forall_map2_r (P : C -> Prop) (Q : B -> Prop) (f : A -> B -> C) :
  (forall x y, Q y -> P (f x y)) ->
  forall xs ys, Forall Q ys -> Forall P (map2 f xs ys).
Proof.
  intros Hf xs; induction xs as [|x xs IH]; intros ys Hy; [constructor|].
  destruct Hy as [|y ys Hy Hys]; simpl; constructor; auto.
Qed.

Lemma Forall_map2_l (P : C -> Prop) (Q : A -> Prop) (f : A -> B -> C) :
  (forall x y, Q x -> P (f x y)) ->
  forall xs ys, Forall Q xs -> Forall P (map2 f xs ys).
Proof.
  intros Hf xs ys Hx; revert ys; induction Hx as [|x xs Hx _ IH];
    intros [|y ys]; simpl; constructor; auto.
Qed.

Lemma Forall_eq_repeat (x : A) (l : list A) :
  Forall (fun y => y = x) l -> l = repeat x (length l).
Proof.
  induction 1 as [|y l -> _ IH]; simpl; [reflexivity|]. now rewrite <- IH.
Qed.

Lemma interleave_repeat (x : A) n :
  interleave (repeat x n) (repeat x n) = repeat x (2 * n).
Proof.
  induction n as [|n IH]; [reflexivity|].
  replace (2 * S n)%nat with (S (S (2 * n))) by lia. simpl repeat.
  simpl interleave. now rewrite IH.
Qed.

Lemma map_repeat (f : A -> B) (x : A) n :
  map f (repeat x n) = repeat (f x) n.
Proof. induction n as [|n IH]; simpl; [reflexivity|]. now rewrite IH. Qed.
End MoreArrayFacts.

Section SplitShape.
Context {T : Type} {ops : NumOps T}.

Lemma split_length (data : list T) n :
  length data = (2 * n)%nat -> length (split data) = (2 * n)%nat.
Proof.
  intros Hlen. destruct (channels_length data n Hlen) as [Hl Hr].
  unfold split. rewrite length_app. lia.
Qed.

Lemma data_variance_of_length (data dv : list T) n :
  length data = (2 * n)%nat -> (n <= residues_len)%nat ->
  data_variance_of data = Some dv ->
  (2 <= n)%nat /\ length dv = (2 * n)%nat.
Proof.
  intros Hlen Hn Hdv.
  destruct (data_variance_of_inv _ _ Hdv) as (pl & pr & Hpl & Hpr & ->).
  destruct (channels_length data n Hlen) as [Hl Hr].
  destruct (pad_length _ _ Hpl) as [H2 _].
  rewrite length_app, (padded_variance_length _ _ Hpl),
    (padded_variance_length _ _ Hpr) by lia.
  lia.
Qed.
End SplitShape.

(** ** One iteration, field by field *)

Section IterateFacts.
Context {T : Type} {ops : NumOps T}.
Variables data data_variance : list T.
Hypothesis same_shape : length data_variance = length data.
Local Open Scope num_scope.

Lemma iterates_1 :
  iterates data data_variance 1
  = fst (iterate data data_variance (initial_state data data_variance)).
Proof. reflexivity. Qed.

Lemma iterate_posterior_mean (st : state) :
  posterior_mean (fst (iterate data data_variance st))
  = map2 fmul
      (map2 fadd (map2 fdiv (meanx_of (posterior_mean st))
                            (posterior_variance st))
                 (map2 fdiv data data_variance))
      (map2 harmonic (posterior_variance st) data_variance).
Proof.
  rewrite <- (iterate_posterior_variance data). reflexivity.
Qed.

Lemma iterate_posterior_mean_nth (st : state) i d :
  shaped data st -> (i < length data)%nat ->
  nth i (posterior_mean (fst (iterate data data_variance st))) d
  = (nth i (meanx_of (posterior_mean st)) d / nth i (posterior_variance st) d
     + nth i data d / nth i data_variance d)
    * harmonic (nth i (posterior_variance st) d) (nth i data_variance d).
Proof.
  intros (Hm & Hv & _) Hi. rewrite iterate_posterior_mean.
  assert (Hx := meanx_of_length (posterior_mean st)).
  rewrite (map2_nth _ _ _ _ _ _ i d d d);
    [|rewrite !map2_length; lia|rewrite map2_length; lia].
  rewrite (map2_nth _ _ _ _ _ _ i d d d);
    [|rewrite map2_length; lia|rewrite map2_length; lia].
  now rewrite !(map2_nth _ _ _ _ _ _ i d d d) by lia.
Qed.

Lemma iterate_chi2_data (st : state) :
  chi2_data (fst (iterate data data_variance st))
  = np_sum (map2 fdiv
              (map sq (map2 fsub data
                         (posterior_mean (fst (iterate data data_variance st)))))
              data_variance).
Proof. reflexivity. Qed.

Lemma chi2_term_nth (pm : list T) i d :
  length pm = length data -> (i < length data)%nat ->
  nth i (map2 fdiv (map sq (map2 fsub data pm)) data_variance) d
  = sq (nth i data d - nth i pm d) / nth i data_variance d.
Proof.
  intros Hm Hi.
  rewrite (map2_nth _ _ _ _ _ _ i d d d);
    [|rewrite length_map, map2_length; lia|lia].
  rewrite (nth_map_lt _ _ _ _ _ d) by (rewrite map2_length; lia).
  now rewrite (map2_nth _ _ _ _ _ _ i d d d) by lia.
Qed.

Lemma iterate_bayesian_weight (st : state) :
  bayesian_weight (fst (iterate data data_variance st))
  = map2 fadd (bayesian_weight st)
      (map (fun e => e * chi2_data (fst (iterate data data_variance st)))
           (evidence (fst (iterate data data_variance st)))).
Proof. reflexivity. Qed.

Lemma iterate_bayesian_model (st : state) :
  bayesian_model (fst (iterate data data_variance st))
  = map2 fadd (bayesian_model st)
      (map2 fmul
         (map (fun e => e * chi2_data (fst (iterate data data_variance st)))
              (evidence (fst (iterate data data_variance st))))
         (posterior_mean (fst (iterate data data_variance st)))).
Proof. reflexivity. Qed.

Lemma iterate_evidence (st : state) :
  evidence (fst (iterate data data_variance st))
  = map2 gauss (map sq (map2 fsub (meanx_of (posterior_mean st)) data))
               (map2 fadd (posterior_variance st) data_variance).
Proof. reflexivity. Qed.

Lemma iterate_chi2_data_min (st : state) :
  chi2_data_min (fst (iterate data data_variance st))
  = if (S (iteration st) =? 1)%nat
    then chi2_data (fst (iterate data data_variance st))
    else chi2_data_min st.
Proof. reflexivity. Qed.

(** From the first iteration on, [chi2_data_min] holds the [chi2_data] of
    the first iteration. *)
Lemma chi2_data_min_iterates k :
  chi2_data_min (iterates data data_variance (S k))
  = chi2_data (iterates data data_variance 1).
Proof.
  induction k as [|k IH].
  - rewrite iterates_1. reflexivity.
  - rewrite iterates_S, iterate_chi2_data_min, iterates_iteration.
    exact IH.
Qed.
End IterateFacts.

(** ** binary64: one degenerate variance poisons the block *)

Section F64Poison.
Variable exp64 : float -> float.
Variable pdf : float -> nat -> float.
Local Abbreviation Fops := (F64_ops exp64 pdf).
Variables data data_variance : list float.
Hypothesis same_shape : length data_variance = length data.
Variable j : nat.
Hypothesis j_in : (j < length data)%nat.
Hypothesis j_degenerate : f64_degenerate (nth j data_variance nan) = true.

Local Abbreviation all_nan := (Forall (fun x : float => x = nan)).

Lemma fold_add_nan (l : list float) : fold_left PrimFloat.add l nan = nan.
Proof.
  induction l as [|x l IH]; simpl; [reflexivity|]. now rewrite add_nan_l.
Qed.

Lemma np_sum_nan (l : list float) : In nan l -> np_sum (ops := Fops) l = nan.
Proof.
  unfold np_sum. simpl fadd. generalize (lit (ops := Fops) 0) as a.
  induction l as [|x l IH]; intros a Hin; [destruct Hin|].
  destruct Hin as [->|Hin]; simpl.
  - rewrite add_nan_r. apply fold_add_nan.
  - now apply IH.
Qed.

Lemma first_posterior_mean_nan :
  nth j (posterior_mean (iterates (ops := Fops) data data_variance 1)) nan
  = nan.
Proof.
  rewrite iterates_1, iterate_posterior_mean_nth;
    [|exact same_shape|now apply initial_state_shaped|exact j_in].
  apply degenerate_update_nan. exact j_degenerate.
Qed.

Lemma first_chi2_data_nan :
  chi2_data (iterates (ops := Fops) data data_variance 1) = nan.
Proof.
  assert (Hpm := first_posterior_mean_nan).
  assert (Hsh := iterates_shaped (ops := Fops) data data_variance same_shape 1).
  destruct Hsh as (Hlm & _).
  rewrite iterates_1 in *. rewrite iterate_chi2_data.
  apply np_sum_nan.
  set (terms := map2 fdiv _ _).
  assert (Hlen : (j < length terms)%nat).
  { unfold terms. rewrite map2_length, length_map, map2_length. lia. }
  replace nan with (nth j terms nan) at 1; [now apply nth_In|].
  unfold terms. rewrite chi2_term_nth by assumption.
  rewrite Hpm. unfold sq. simpl. now rewrite sub_nan_r, mul_nan_l, div_nan_l.
Qed.

Lemma first_bayesian_weight_nan :
  all_nan (bayesian_weight (iterates (ops := Fops) data data_variance 1)).
Proof.
  assert (Hchi := first_chi2_data_nan).
  rewrite iterates_1 in *. rewrite iterate_bayesian_weight, Hchi.
  apply Forall_map2_r with (Q := fun y : float => y = nan).
  - intros x y ->. apply add_nan_r.
  - apply Forall_forall. intros y Hy. apply in_map_iff in Hy.
    destruct Hy as (e & <- & _). apply mul_nan_r.
Qed.

Lemma iterate_bayesian_weight_nan (st : state) :
  all_nan (bayesian_weight st) ->
  all_nan (bayesian_weight (fst (iterate (ops := Fops) data data_variance st))).
Proof.
  intros Hw. rewrite iterate_bayesian_weight.
  apply Forall_map2_l with (Q := fun y : float => y = nan); [|exact Hw].
  intros x y ->. apply add_nan_l.
Qed.

Lemma iterates_bayesian_weight_nan k :
  (1 <= k)%nat ->
  all_nan (bayesian_weight (iterates (ops := Fops) data data_variance k)).
Proof.
  induction k as [|k IH]; [lia|]. intros _.
  destruct k as [|k]; [apply first_bayesian_weight_nan|].
  rewrite iterates_S. apply iterate_bayesian_weight_nan. apply IH. lia.
Qed.

Lemma bayes_of_nan (st : state) :
  shaped data st -> all_nan (bayesian_weight st) ->
  bayes_of (ops := Fops) st = repeat nan (length data).
Proof.
  intros (_ & _ & _ & Hw & Hb) Hnan.
  assert (Hall : all_nan (bayes_of (ops := Fops) st)).
  { unfold bayes_of.
    apply Forall_map2_r with (Q := fun y : float => y = nan); [|exact Hnan].
    intros x y ->. apply div_nan_r. }
  rewrite (Forall_eq_repeat _ _ _ Hall). f_equal.
  unfold bayes_of. rewrite map2_length. lia.
Qed.

(** The smoother returns, and returns NaN at every sample. *)
Lemma smoother_poisoned :
  smoother (ops := Fops) data data_variance = Some (repeat nan (length data)).
Proof.
  unfold smoother. rewrite same_shape, Nat.eqb_refl.
  destruct (loop_result (ops := Fops) data data_variance)
    as (K & HK & Hw & _ & _).
  rewrite Hw. simpl option_map. f_equal.
  apply bayes_of_nan.
  - apply combine_iteration_zero_shaped; [exact same_shape|].
    now apply iterates_shaped.
  - cbn [combine_iteration_zero bayesian_weight].
    apply Forall_map2_l with (Q := fun y : float => y = nan).
    + intros x y ->. apply add_nan_l.
    + apply iterates_bayesian_weight_nan. lia.
Qed.
End F64Poison.

Section F64Block.
Variable exp64 : float -> float.
Variable pdf : float -> nat -> float.
Local Abbreviation Fops := (F64_ops exp64 pdf).

Lemma merge_all_nan n :
  merge (ops := Fops) (repeat nan (2 * n)) = Some (repeat None (2 * n)).
Proof.
  unfold merge.
  replace (2 * n)%nat with (n + n)%nat at 1 by lia.
  rewrite repeat_app, np_split2_app by reflexivity.
  now rewrite interleave_repeat, map_repeat.
Qed.

(** A block with one degenerate variance comes back with no defined
    sample: every float it is quantised from is NaN. *)
Lemma fabada1x_poisoned (data dv : list float) (n j : nat) :
  length data = (2 * n)%nat -> (n <= residues_len)%nat ->
  data_variance_of (ops := Fops) data = Some dv ->
  (j < 2 * n)%nat -> f64_degenerate (nth j dv nan) = true ->
  fabada1x (ops := Fops) data = Some (repeat None (2 * n)).
Proof.
  intros Hlen Hn Hdv Hj Hdeg.
  destruct (data_variance_of_length data dv n Hlen Hn Hdv) as [_ Hl].
  assert (Hs := split_length (ops := Fops) data n Hlen).
  unfold fabada1x. rewrite Hdv.
  rewrite (smoother_poisoned exp64 pdf (split data) dv) with (j := j);
    [|lia|lia|exact Hdeg].
  rewrite Hs. apply merge_all_nan.
Qed.
End F64Block.

(** C2 (as the code has it).  In binary64, when the estimated variance of
    some sample position of a block of [2n <= 65536] samples is zero,
    infinite or NaN, nothing is repaired: [chi2_data] is NaN from the first
    iteration on, every ensemble weight is NaN, and every sample of the
    returned block is the int16 conversion of NaN, which is undefined. *)
Theorem degenerate_variance_poisons_block :
  forall (exp64 : float -> float) (pdf : float -> nat -> float)
         (data dv : list float) (n : nat),
    length data = (2 * n)%nat -> (n <= residues_len)%nat ->
    data_variance_of (ops := F64_ops exp64 pdf) data = Some dv ->
    Exists (fun v => f64_degenerate v = true) dv ->
    fabada1x (ops := F64_ops exp64 pdf) data = Some (repeat None (2 * n)).
Proof.
  intros exp64 pdf data dv n Hlen Hn Hdv Hex.
  apply Exists_nth in Hex. destruct Hex as (j & d & Hj & Hdeg).
  destruct (data_variance_of_length data dv n Hlen Hn Hdv) as [_ Hl].
  apply (fabada1x_poisoned exp64 pdf data dv n j); auto; [lia|].
  now rewrite (nth_indep _ nan d Hj).
Qed.

Lemma degenerate_variance_poisons_block_witness :
  fabada1x (ops := F64_ops (fun x => x) (fun x _ => x)) [0; 0; 0; 0]%float
  = Some (repeat None 4).
Proof.
  apply (degenerate_variance_poisons_block (fun x => x) (fun x _ => x)
           [0; 0; 0; 0]%float [0; 0; 0; 0]%float 2).
  - reflexivity.
  - unfold residues_len. lia.
  - vm_compute. reflexivity.
  - constructor. vm_compute. reflexivity.
Defined.

(** C2, as stated.  The left channel of the block [0 1 0 2 0 4] is silent,
    so its three variances are zero; the block comes back with all six
    samples undefined, none replaced by the raw observation. *)
Lemma silent_channel_poisons_block :
  exists (block : list Z) (dv3 dv4 dv5 : float),
    block = [0; 1; 0; 2; 0; 4]%Z /\
    forallb (fun v => negb (f64_degenerate v)) [dv3; dv4; dv5] = true /\
    forall (exp64 : float -> float) (pdf : float -> nat -> float),
      data_variance_of (ops := F64_ops exp64 pdf) (map f64_of_int block)
      = Some [0; 0; 0; dv3; dv4; dv5]%float /\
      stream_write (ops := F64_ops exp64 pdf) block
      = Some [None; None; None; None; None; None].
Proof.
  pose (dv := data_variance_of (ops := F64_ops (fun x => x) (fun x _ => x))
                (map f64_of_int [0; 1; 0; 2; 0; 4]%Z)).
  vm_compute in dv.
  exists [0; 1; 0; 2; 0; 4]%Z.
  match eval cbv delta [dv] in dv with
  | Some [_; _; _; ?a; ?b; ?c] => exists a, b, c
  end.
  clear dv. split; [reflexivity|]. split; [vm_compute; reflexivity|].
  intros exp64 pdf.
  match goal with
  | |- ?lhs = ?rhs /\ _ => assert (Hdv : lhs = rhs) by (vm_compute; reflexivity)
  end.
  split; [exact Hdv|].
  unfold stream_write.
  eapply (fabada1x_poisoned exp64 pdf _ _ 3 0);
    [reflexivity|unfold residues_len; lia|exact Hdv|lia
    |vm_compute; reflexivity].
Qed.

(** ** binary64: quantisation *)

Lemma check_from_sound (f : Z -> bool) (n : nat) :
  forall lo, check_from f lo n = true ->
  forall z, (lo <= z < lo + Z.of_nat n)%Z -> f z = true.
Proof.
  induction n as [|n IH]; intros lo Hc z Hz; [lia|].
  simpl in Hc. apply andb_prop in Hc. destruct Hc as [Hlo Hrest].
  destruct (Z.eq_dec z lo) as [->|Hne]; [exact Hlo|].
  apply (IH (lo + 1)%Z Hrest). lia.
Qed.

Lemma map_interleave (A B : Type) (f : A -> B) (l r : list A) :
  map f (interleave l r) = interleave (map f l) (map f r).
Proof.
  revert r; induction l as [|x l IH]; intros [|y r]; simpl; auto.
  now rewrite IH.
Qed.

Section F64Quantise.
Local Open Scope float_scope.

(** Every int16 value survives the conversion to binary64, the division
    by 1.0 and the conversion back. *)
Lemma int16_cast_exact (z : Z) :
  int16_range z = true -> f64_astype_int16 (f64_of_int z / 1) = Some z.
Proof.
  intros Hz.
  pose (f := fun z => match f64_astype_int16 (f64_of_int z / 1) with
                      | Some z' => Z.eqb z z'
                      | None => false
                      end).
  assert (Hall : check_from f (-32768) (Z.to_nat 65536) = true)
    by (vm_compute; reflexivity).
  assert (Hf : f z = true).
  { apply (check_from_sound f _ _ Hall).
    unfold int16_range in Hz. apply andb_prop in Hz. lia. }
  unfold f in Hf. destruct (f64_astype_int16 (f64_of_int z / 1)) as [z'|];
    [|discriminate].
  apply Z.eqb_eq in Hf. now subst.
Qed.

(** On the quarters [k/4] between -8192 and 8192 the conversion is the
    integer part: truncation toward zero. *)
Lemma quarter_cast_truncates (k : Z) :
  (-32768 <= k <= 32767)%Z ->
  f64_astype_int16 (f64_of_int k / 4) = Some (Z.quot k 4).
Proof.
  intros Hk.
  pose (f := fun k => match f64_astype_int16 (f64_of_int k / 4) with
                      | Some z => Z.eqb z (Z.quot k 4)
                      | None => false
                      end).
  assert (Hall : check_from f (-32768) (Z.to_nat 65536) = true)
    by (vm_compute; reflexivity).
  assert (Hf : f k = true) by (apply (check_from_sound f _ _ Hall); lia).
  unfold f in Hf. destruct (f64_astype_int16 (f64_of_int k / 4)) as [z|];
    [|discriminate].
  apply Z.eqb_eq in Hf. now subst.
Qed.

(** Beyond the int16 range the conversion is undefined: nothing saturates. *)
Lemma overflow_cast_undefined (m : Z) :
  (32768 <= m <= 40000 \/ -40000 <= m <= -32769)%Z ->
  f64_astype_int16 (f64_of_int m) = None.
Proof.
  intros Hm.
  pose (f := fun m => match f64_astype_int16 (f64_of_int m) with
                      | Some _ => false
                      | None => true
                      end).
  assert (Hhi : check_from f 32768 (Z.to_nat 7233) = true)
    by (vm_compute; reflexivity).
  assert (Hlo : check_from f (-40000) (Z.to_nat 7232) = true)
    by (vm_compute; reflexivity).
  assert (Hf : f m = true).
  { destruct Hm as [Hm|Hm];
      [apply (check_from_sound f _ _ Hhi)|apply (check_from_sound f _ _ Hlo)];
      lia. }
  unfold f in Hf. now destruct (f64_astype_int16 (f64_of_int m)).
Qed.
End F64Quantise.

Section F64Codec.
Variable exp64 : float -> float.
Variable pdf : float -> nat -> float.
Local Abbreviation Fops := (F64_ops exp64 pdf).

Lemma merge_halves (l r : list float) :
  length l = length r ->
  merge (ops := Fops) (l ++ r)
  = Some (interleave (map f64_astype_int16 l) (map f64_astype_int16 r)).
Proof.
  intros E. unfold merge. rewrite np_split2_app by exact E.
  now rewrite map_interleave.
Qed.

Lemma split_merge (block : list Z) :
  Nat.even (length block) = true ->
  Forall (fun z => int16_range z = true) block ->
  merge (ops := Fops) (split (ops := Fops) (map (@of_int float Fops) block))
  = Some (map Some block).
Proof.
  intros Hev Hr.
  apply Nat.even_spec in Hev. destruct Hev as [n Hn].
  assert (Hlen : length (map (@of_int float Fops) block) = (2 * n)%nat)
    by now rewrite length_map.
  destruct (channels_length (ops := Fops) _ n Hlen) as [Hl Hrr].
  unfold split. rewrite merge_halves by (rewrite Hl, Hrr; reflexivity).
  rewrite <- map_interleave. unfold dleft_of, dright_of.
  rewrite interleave_stride2
    by (rewrite !length_map, Hn; apply Nat.even_spec; now exists n).
  rewrite !map_map. f_equal. apply map_ext_in. intros z Hz.
  apply int16_cast_exact.
  now apply (proj1 (Forall_forall _ _) Hr).
Qed.
End F64Codec.

(** C6. For every block of even length whose samples are int16 values,
    split followed by merge gives the block back, sample for sample (in
    binary64: the conversion to float, the division by 1.0 and the
    conversion to int16 are exact on these values). *)
Theorem split_merge_roundtrip :
  forall (exp64 : float -> float) (pdf : float -> nat -> float)
         (block : list Z),
    Nat.even (length block) = true ->
    Forall (fun z => int16_range z = true) block ->
    merge (ops := F64_ops exp64 pdf)
      (split (ops := F64_ops exp64 pdf) (map f64_of_int block))
    = Some (map Some block).
Proof.
  intros exp64 pdf block. apply split_merge.
Qed.

Lemma split_merge_roundtrip_witness :
  merge (ops := F64_ops (fun x => x) (fun x _ => x))
    (split (ops := F64_ops (fun x => x) (fun x _ => x))
       (map f64_of_int [1; -2; 32767; -32768]%Z))
  = Some [Some 1; Some (-2); Some 32767; Some (-32768)]%Z.
Proof.
  apply (split_merge_roundtrip (fun x => x) (fun x _ => x)
           [1; -2; 32767; -32768]%Z).
  - reflexivity.
  - repeat constructor.
Defined.

(** C7 (as the code has it).  Merge interleaves the two halves of its
    argument and converts every value with [astype(int16)], which truncates
    toward zero and neither rounds to nearest nor clamps: the quarters
    [k/4] between -8192 and 8192 go to the integer part of [k/4], and the
    integers next beyond the int16 range have no defined conversion. *)
Theorem merge_truncates_toward_zero :
  forall (exp64 : float -> float) (pdf : float -> nat -> float)
         (l r : list float) (k m : Z),
    length l = length r ->
    (-32768 <= k <= 32767)%Z ->
    (32768 <= m <= 40000 \/ -40000 <= m <= -32769)%Z ->
    merge (ops := F64_ops exp64 pdf) (l ++ r)
    = Some (interleave (map f64_astype_int16 l) (map f64_astype_int16 r)) /\
    f64_astype_int16 (PrimFloat.div (f64_of_int k) 4%float)
    = Some (Z.quot k 4) /\
    f64_astype_int16 (f64_of_int m) = None.
Proof.
  intros exp64 pdf l r k m Hlen Hk Hm.
  split; [now apply merge_halves|].
  split; [now apply quarter_cast_truncates|now apply overflow_cast_undefined].
Qed.

Lemma merge_truncates_toward_zero_witness :
  merge (ops := F64_ops (fun x => x) (fun x _ => x))
    ([0.75; 2.5] ++ [-0.75; 7])%float
  = Some (interleave (map f64_astype_int16 [0.75; 2.5]%float)
            (map f64_astype_int16 [-0.75; 7]%float)) /\
  f64_astype_int16 (PrimFloat.div (f64_of_int (-7)) 4%float)
  = Some (Z.quot (-7) 4) /\
  f64_astype_int16 (f64_of_int 40000) = None.
Proof.
  apply (merge_truncates_toward_zero (fun x => x) (fun x _ => x)
           [0.75; 2.5]%float [-0.75; 7]%float (-7) 40000).
  - reflexivity.
  - lia.
  - lia.
Defined.

(** C7, as stated.  0.75 is merged to 0 although 1 is nearer, -0.75 to 0
    although -1 is nearer, and 40000 is not brought down to 32767. *)
Lemma merge_not_nearest :
  exists bayes : list float,
    bayes = [0.75; 2.5; -0.75; 40000]%float /\
    (forall (exp64 : float -> float) (pdf : float -> nat -> float),
       merge (ops := F64_ops exp64 pdf) bayes
       = Some [Some 0; Some 0; Some 2; None]%Z) /\
    PrimFloat.ltb (PrimFloat.abs (0.75 - 1)) (PrimFloat.abs (0.75 - 0)) = true /\
    PrimFloat.ltb (PrimFloat.abs (-0.75 - -1)) (PrimFloat.abs (-0.75 - 0)) = true.
Proof.
  eexists. split; [reflexivity|]. split; [|split].
  - intros exp64 pdf. vm_compute. reflexivity.
  - vm_compute. reflexivity.
  - vm_compute. reflexivity.
Qed.

(** ** The prior mean, sample by sample *)

Section SliceNth.
Variable A : Type.

Lemma zip_keep_nth (f : A -> A -> A) xs ys i d :
  nth i (zip_keep f xs ys) d
  = if (i <? Nat.min (length xs) (length ys))%nat
    then f (nth i xs d) (nth i ys d) else nth i xs d.
Proof.
  revert ys i; induction xs as [|x xs IH]; intros ys i.
  - simpl. destruct i; reflexivity.
  - destruct ys as [|y ys].
    + simpl zip_keep. simpl length. rewrite Nat.min_0_r. reflexivity.
    + destruct i as [|i]; [reflexivity|].
      simpl zip_keep. cbn [nth length]. rewrite IH.
      rewrite <- Nat.succ_min_distr. reflexivity.
Qed.

Lemma upd_init_nth (f : A -> A) l i d :
  nth i (upd_init f l) d
  = if (S i <? length l)%nat then f (nth i l d) else nth i l d.
Proof.
  revert i; induction l as [|x l IH]; intros i.
  - destruct i; reflexivity.
  - destruct l as [|y l].
    + destruct i as [|[|i]]; reflexivity.
    + change (upd_init f (x :: y :: l)) with (f x :: upd_init f (y :: l)).
      destruct i as [|i]; [reflexivity|].
      cbn [nth]. rewrite IH. reflexivity.
Qed.

Lemma upd_last_nth (f : A -> A) l i d :
  nth i (upd_last f l) d
  = if (S i =? length l)%nat then f (nth i l d) else nth i l d.
Proof.
  revert i; induction l as [|x l IH]; intros i.
  - destruct i; reflexivity.
  - destruct l as [|y l].
    + destruct i as [|[|i]]; reflexivity.
    + change (upd_last f (x :: y :: l)) with (x :: upd_last f (y :: l)).
      destruct i as [|i]; [reflexivity|].
      cbn [nth]. rewrite IH. reflexivity.
Qed.

Lemma upd_head_nth (f : A -> A) l i d :
  l <> [] ->
  nth i (upd_head f l) d = if (i =? 0)%nat then f (nth i l d) else nth i l d.
Proof.
  destruct l as [|x l]; [congruence|]. intros _. destruct i; reflexivity.
Qed.
End SliceNth.

Section MeanxNth.
Context {T : Type} {ops : NumOps T}.
Local Open Scope num_scope.

(** For an array of at least two samples: the ends average with their
    one neighbour, the interior samples with both. *)
Lemma meanx_of_nth (pm : list T) i d :
  (2 <= length pm)%nat -> (i < length pm)%nat ->
  nth i (meanx_of pm) d
  = if (i =? 0)%nat then (nth 0 pm d + nth 1 pm d) / lit 2
    else if (S i =? length pm)%nat
         then (nth i pm d + nth (i - 1) pm d) / lit 2
         else (nth i pm d + nth (S i) pm d + nth (i - 1) pm d) / lit 3.
Proof.
  intros Hn Hi. unfold meanx_of.
  destruct pm as [|a pm]; [simpl in Hn; lia|].
  destruct pm as [|b pm]; [simpl in Hn; lia|].
  set (l := a :: b :: pm) in *.
  rewrite upd_last_nth.
  rewrite upd_head_length, !on_tail_length;
    try (intros; first [apply upd_init_length|apply zip_keep_length]).
  rewrite zip_keep_length.
  rewrite upd_head_nth by (unfold l; discriminate).
  assert (Hl : length l = S (S (length pm))) by reflexivity.
  destruct i as [|i].
  - (* first sample *)
    replace (1 =? length l)%nat with false
      by (symmetry; apply Nat.eqb_neq; lia).
    reflexivity.
  - change (S i =? 0)%nat with false. cbn iota.
    change (nth (S i) (on_tail ?g (on_tail ?h (zip_keep fadd l (tl l)))) d)
      with (nth i (g (h (zip_keep fadd (b :: pm) pm))) d).
    set (z1 := zip_keep fadd (b :: pm) pm).
    assert (Hz1 : nth i z1 d
                  = if (S (S i) =? length l)%nat then nth (S i) l d
                    else nth (S i) l d + nth (S (S i)) l d).
    { unfold z1. rewrite zip_keep_nth. cbn [length].
      rewrite Nat.min_r by lia.
      destruct (Nat.ltb_spec i (length pm));
        destruct (Nat.eqb_spec (S (S i)) (length l)); try lia; reflexivity. }
    rewrite upd_init_nth, !zip_keep_length.
    rewrite zip_keep_nth, Hz1.
    replace (length z1) with (S (length pm))
      by (unfold z1; now rewrite zip_keep_length).
    rewrite Nat.min_l by (rewrite Hl; lia).
    replace (i <? S (length pm))%nat with true
      by (symmetry; apply Nat.ltb_lt; lia).
    replace (S i - 1)%nat with i by lia.
    destruct (Nat.eqb_spec (S (S i)) (length l)) as [E|E].
    + replace (S i <? S (length pm))%nat with false
        by (symmetry; apply Nat.ltb_ge; lia).
      reflexivity.
    + replace (S i <? S (length pm))%nat with true
        by (symmetry; apply Nat.ltb_lt; lia).
      reflexivity.
Qed.
End MeanxNth.

(** ** The smoother in exact arithmetic *)

Section RealArith.
Local Open Scope R_scope.

Lemma harmonic_step (v c : R) :
  0 < v -> 0 < c -> 1 / (1 / (v / c) + 1 / v) = v / (c + 1).
Proof. intros Hv Hc. field. lra. Qed.

Lemma bayes_update_R (p d v c : R) :
  0 < v -> 0 < c ->
  (p / (v / c) + d / v) * (1 / (1 / (v / c) + 1 / v))
  = (c * p + d) / (c + 1).
Proof. intros Hv Hc. field. lra. Qed.

Lemma wavg_lower (c p d lo : R) :
  0 < c -> lo <= p -> lo <= d -> lo <= (c * p + d) / (c + 1).
Proof.
  intros Hc Hp Hd. apply Rmult_le_reg_r with (c + 1); [lra|].
  unfold Rdiv. rewrite Rmult_assoc, Rinv_l by lra. nra.
Qed.

Lemma wavg_upper (c p d hi : R) :
  0 < c -> p <= hi -> d <= hi -> (c * p + d) / (c + 1) <= hi.
Proof.
  intros Hc Hp Hd. apply Rmult_le_reg_r with (c + 1); [lra|].
  unfold Rdiv. rewrite Rmult_assoc, Rinv_l by lra. nra.
Qed.

Lemma wavg_below (c p d : R) :
  0 < c -> p < d -> (c * p + d) / (c + 1) < d.
Proof.
  intros Hc Hp. apply Rmult_lt_reg_r with (c + 1); [lra|].
  unfold Rdiv. rewrite Rmult_assoc, Rinv_l by lra. nra.
Qed.

Lemma wavg_margin (c p d D : R) :
  1 <= c -> 0 <= D -> d + 2 * D <= p -> d + D <= (c * p + d) / (c + 1).
Proof.
  intros Hc HD Hp. apply Rmult_le_reg_r with (c + 1); [lra|].
  unfold Rdiv. rewrite Rmult_assoc, Rinv_l by lra. nra.
Qed.

Lemma Rle_div_intro (x y z : R) : 0 < z -> x * z <= y -> x <= y / z.
Proof.
  intros Hz H. apply Rmult_le_reg_r with z; [exact Hz|].
  unfold Rdiv. rewrite Rmult_assoc, Rinv_l by lra. lra.
Qed.

Lemma sqrt2_le : R_sqrt.sqrt 2 <= 3 / 2.
Proof.
  pose proof (sqrt_sqrt 2 ltac:(lra)) as H.
  pose proof (sqrt_pos 2) as H0.
  destruct (Rle_dec (R_sqrt.sqrt 2) (3 / 2)) as [Hle|Hgt]; [exact Hle|].
  exfalso. nra.
Qed.

Lemma exp_le (x y : R) : x <= y -> exp x <= exp y.
Proof.
  intros [Hlt | ->]; [left; now apply exp_increasing|right; reflexivity].
Qed.

Lemma Rsum_ge_nth (l : list R) i :
  Forall (fun x => 0 <= x) l -> (i < length l)%nat -> nth i l 0 <= Rsum l.
Proof.
  intros Hl; revert i; induction Hl as [|x l Hx Hl IH]; intros i Hi;
    [simpl in Hi; lia|].
  pose proof (Rsum_nonneg l Hl) as Hs.
  destruct i as [|i]; simpl.
  - lra.
  - specialize (IH i ltac:(simpl in Hi; lia)). lra.
Qed.

Lemma S_INR_pos (k : nat) : 0 < INR (S k).
Proof. apply lt_0_INR. lia. Qed.
End RealArith.

Section RealSmoother.
Variable pdf : R -> nat -> R.
Local Abbreviation Rops := (R_ops pdf).
Variables data data_variance : list R.
Hypothesis same_shape : length data_variance = length data.
Hypothesis two_samples : (2 <= length data)%nat.
Hypothesis variance_pos : Forall (fun v => 0 < v)%R data_variance.
Variables lo hi : R.
Hypothesis data_bounds : Forall (fun x => lo <= x <= hi)%R data.
Local Open Scope R_scope.

Local Abbreviation its := (iterates (ops := Rops) data data_variance).
Local Abbreviation dat i := (nth i data 0).
Local Abbreviation var i := (nth i data_variance 0).
Local Abbreviation mean k i := (nth i (posterior_mean (its k)) 0).
Local Abbreviation prior k i :=
  (nth i (meanx_of (ops := Rops) (posterior_mean (its k))) 0).

Lemma var_pos i : (i < length data)%nat -> 0 < var i.
Proof.
  intros Hi.
  apply (proj1 (Forall_nth (fun v => 0 < v) data_variance) variance_pos).
  lia.
Qed.

Lemma dat_bounds i : (i < length data)%nat -> lo <= dat i <= hi.
Proof.
  intros Hi.
  now apply (proj1 (Forall_nth (fun x => lo <= x <= hi) data) data_bounds).
Qed.

Lemma its_shaped k : shaped data (its k).
Proof. now apply iterates_shaped. Qed.

Lemma posterior_variance_its k i :
  (i < length data)%nat ->
  nth i (posterior_variance (its k)) 0 = var i / INR (S k).
Proof.
  intros Hi. induction k as [|k IH].
  - simpl. lra.
  - destruct (its_shaped k) as (_ & Hv & _).
    rewrite iterates_S, iterate_posterior_variance.
    rewrite (map2_nth _ _ _ _ _ _ i 0 0 0) by lia.
    rewrite IH, harmonic_R, (S_INR (S k)).
    apply harmonic_step; [now apply var_pos|apply S_INR_pos].
Qed.

Lemma mean_S k i :
  (i < length data)%nat ->
  mean (S k) i = (INR (S k) * prior k i + dat i) / (INR (S k) + 1).
Proof.
  intros Hi. rewrite iterates_S.
  rewrite iterate_posterior_mean_nth;
    [|exact same_shape|apply its_shaped|exact Hi].
  rewrite posterior_variance_its, harmonic_R by exact Hi.
  apply bayes_update_R; [now apply var_pos|apply S_INR_pos].
Qed.

(** The three-point average stays between bounds of its arguments. *)
Lemma meanx_bounds (pm : list R) (a b : R) i :
  length pm = length data ->
  (forall i', (i' < length data)%nat -> a <= nth i' pm 0 <= b) ->
  (i < length data)%nat ->
  a <= nth i (meanx_of (ops := Rops) pm) 0 <= b.
Proof.
  intros Hl Hb Hi. rewrite meanx_of_nth by lia.
  assert (H0 := Hb 0%nat ltac:(lia)). assert (H1 := Hb 1%nat ltac:(lia)).
  assert (Hi0 := Hb i Hi).
  destruct (Nat.eqb_spec i 0); [unfold lit; simpl; lra|].
  assert (Hp := Hb (i - 1)%nat ltac:(lia)).
  destruct (Nat.eqb_spec (S i) (length pm)); [unfold lit; simpl; lra|].
  assert (Hs := Hb (S i) ltac:(lia)).
  unfold lit; simpl; lra.
Qed.

Lemma mean_bounds k i : (i < length data)%nat -> lo <= mean k i <= hi.
Proof.
  revert i; induction k as [|k IH]; intros i Hi.
  - now apply dat_bounds.
  - rewrite mean_S by exact Hi.
    destruct (its_shaped k) as (Hm & _).
    pose proof (meanx_bounds _ lo hi i Hm IH Hi) as Hp.
    pose proof (dat_bounds i Hi) as Hd.
    pose proof (S_INR_pos k) as Hc.
    split; [apply wavg_lower|apply wavg_upper]; lra.
Qed.

Lemma posterior_mean_S k :
  posterior_mean (its (S k))
  = map2 (fun p d => (INR (S k) * p + d) / (INR (S k) + 1))
         (meanx_of (ops := Rops) (posterior_mean (its k))) data.
Proof.
  destruct (its_shaped k) as (Hm & _).
  destruct (its_shaped (S k)) as (Hm' & _).
  assert (Hx := meanx_of_length (ops := Rops) (posterior_mean (its k))).
  apply (nth_ext _ _ 0 0).
  - rewrite map2_length. lia.
  - intros i Hi. rewrite mean_S by lia.
    now rewrite (map2_nth _ _ _ _ _ _ i 0 0 0) by lia.
Qed.

Lemma gauss_pos (num den : R) : 0 < den -> 0 < gauss (ops := Rops) num den.
Proof.
  intros Hd. unfold gauss, lit. simpl.
  apply Rdiv_lt_0_compat; [apply exp_pos|].
  apply sqrt_lt_R0. pose proof PI_RGT_0. nra.
Qed.

(** The evidence of a first iterate whose prior lies within the noise,
    against the evidence given to iteration zero. *)
Lemma gauss_ratio (x v : R) :
  0 < v -> x * x <= 2 * v ->
  2 / 3 * gauss (ops := Rops)
            (sq (ops := Rops)
               (@fsub R Rops (lit (ops := Rops) 0) (@np_sqrt R Rops v)))
            (@fadd R Rops (lit (ops := Rops) 0) v)
  <= gauss (ops := Rops) (sq (ops := Rops) x) (@fadd R Rops v v).
Proof.
  intros Hv Hx. unfold gauss, sq, lit. simpl.
  replace ((0 - R_sqrt.sqrt v) * (0 - R_sqrt.sqrt v))
    with (R_sqrt.sqrt v * R_sqrt.sqrt v) by ring.
  rewrite sqrt_sqrt by lra.
  replace (- v / (2 * (0 + v))) with (- (1 / 2)) by (field; lra).
  replace (2 * PI * (0 + v)) with (2 * PI * v) by ring.
  replace (2 * PI * (v + v)) with (2 * (2 * PI * v)) by ring.
  pose proof PI_RGT_0 as Hpi.
  assert (Hs : 0 < 2 * PI * v) by nra.
  rewrite (sqrt_mult 2 (2 * PI * v)) by lra.
  pose proof (sqrt_lt_R0 _ Hs) as Hsig.
  pose proof sqrt2_le as H2. pose proof (sqrt_lt_R0 2 ltac:(lra)) as H2p.
  assert (He : exp (- (1 / 2)) <= exp (- (x * x) / (2 * (v + v)))).
  { apply exp_le. apply Rmult_le_reg_r with (2 * (v + v)); [lra|].
    unfold Rdiv. rewrite Rmult_assoc, Rinv_l by lra. lra. }
  pose proof (exp_pos (- (1 / 2))) as He0.
  set (E0 := exp (- (1 / 2))) in *.
  set (E1 := exp (- (x * x) / (2 * (v + v)))) in *.
  set (sg := R_sqrt.sqrt (2 * PI * v)) in *.
  set (s2 := R_sqrt.sqrt 2) in *.
  assert (Hden : 0 < s2 * sg) by (apply Rmult_lt_0_compat; assumption).
  apply Rle_div_intro; [exact Hden|].
  replace (2 / 3 * (E0 / sg) * (s2 * sg)) with (2 / 3 * E0 * s2)
    by (field; lra).
  nra.
Qed.

Lemma initial_evidence_pos i :
  (i < length data)%nat ->
  0 < nth i (initial_evidence_of (ops := Rops) data_variance) 0.
Proof.
  intros Hi. unfold initial_evidence_of.
  rewrite (nth_map_lt _ _ _ _ _ 0) by lia.
  apply gauss_pos. pose proof (var_pos i Hi). unfold lit. simpl. lra.
Qed.

Lemma evidence_pos k i :
  (i < length data)%nat -> 0 < nth i (evidence (its k)) 0.
Proof.
  intros Hi. destruct k as [|k]; [now apply initial_evidence_pos|].
  destruct (its_shaped k) as (Hm & Hv & _).
  assert (Hx := meanx_of_length (ops := Rops) (posterior_mean (its k))).
  rewrite iterates_S, iterate_evidence.
  rewrite (map2_nth _ _ _ _ _ _ i 0 0 0);
    [|rewrite length_map, map2_length; lia|rewrite map2_length; lia].
  apply gauss_pos.
  rewrite (map2_nth _ _ _ _ _ _ i 0 0 0) by lia.
  rewrite posterior_variance_its by exact Hi.
  pose proof (var_pos i Hi) as Hvp. pose proof (S_INR_pos k) as Hc.
  assert (0 < var i / INR (S k)) by now apply Rdiv_lt_0_compat.
  cbn [fadd R_ops]. lra.
Qed.

(** The terms of [chi2_data]. *)
Local Abbreviation chi2_terms k :=
  (map2 (@fdiv R Rops)
     (map (@sq R Rops) (map2 (@fsub R Rops) data (posterior_mean (its k))))
     data_variance).

Lemma chi2_term k i :
  (i < length data)%nat ->
  nth i (chi2_terms k) 0
  = (dat i - mean k i) * (dat i - mean k i) / var i.
Proof.
  intros Hi. destruct (its_shaped k) as (Hm & _).
  rewrite (chi2_term_nth (ops := Rops)) by (assumption || lia).
  reflexivity.
Qed.

Lemma chi2_terms_nonneg k : Forall (fun x => 0 <= x) (chi2_terms k).
Proof.
  destruct (its_shaped k) as (Hm & _).
  apply Forall_nth. intros i d Hi.
  rewrite map2_length, length_map, map2_length in Hi.
  rewrite (nth_indep _ d 0)
    by (rewrite map2_length, length_map, map2_length; lia).
  assert (Hi' : (i < length data)%nat) by lia.
  rewrite chi2_term by exact Hi'.
  pose proof (var_pos i Hi').
  apply Rmult_le_pos; [apply Rle_0_sqr|]. apply Rlt_le. now apply Rinv_0_lt_compat.
Qed.

Lemma chi2_data_S k : chi2_data (its (S k)) = Rsum (chi2_terms (S k)).
Proof. rewrite iterates_S at 1. rewrite iterate_chi2_data. apply np_sum_R. Qed.

Lemma chi2_nonneg k : 0 <= chi2_data (its (S k)).
Proof. rewrite chi2_data_S. apply Rsum_nonneg, chi2_terms_nonneg. Qed.

Lemma chi2_ge_term k i :
  (i < length data)%nat ->
  (dat i - mean (S k) i) * (dat i - mean (S k) i) / var i
  <= chi2_data (its (S k)).
Proof.
  intros Hi. rewrite chi2_data_S, <- chi2_term by exact Hi.
  apply Rsum_ge_nth; [apply chi2_terms_nonneg|].
  destruct (its_shaped (S k)) as (Hm & _).
  rewrite map2_length, length_map, map2_length. lia.
Qed.

Lemma chi2_pos k i :
  (i < length data)%nat -> mean (S k) i <> dat i ->
  0 < chi2_data (its (S k)).
Proof.
  intros Hi Hne. eapply Rlt_le_trans; [|apply (chi2_ge_term k i Hi)].
  pose proof (var_pos i Hi).
  apply Rdiv_lt_0_compat; [|assumption].
  assert (Hd : dat i - mean (S k) i <> 0) by lra.
  apply (Rlt_0_sqr _ Hd).
Qed.

(** The ensemble accumulators, sample by sample. *)
Local Abbreviation bw k i := (nth i (bayesian_weight (its k)) 0).
Local Abbreviation bm k i := (nth i (bayesian_model (its k)) 0).
Local Abbreviation ev k i := (nth i (evidence (its k)) 0).
Local Abbreviation chi2 k := (chi2_data (its k)).

Lemma acc_0 i : (i < length data)%nat -> bw 0 i = 0 /\ bm 0 i = 0.
Proof.
  intros Hi. simpl.
  rewrite !(nth_map_lt _ _ (fun _ : R => lit (ops := Rops) 0) _ _ 0) by lia.
  split; reflexivity.
Qed.

Lemma bw_S k i :
  (i < length data)%nat -> bw (S k) i = bw k i + ev (S k) i * chi2 (S k).
Proof.
  intros Hi.
  destruct (its_shaped k) as (_ & _ & _ & Hw & _).
  destruct (its_shaped (S k)) as (_ & _ & He & _).
  pose proof (iterate_bayesian_weight (ops := Rops) data data_variance (its k))
    as E.
  rewrite <- !iterates_S in E. rewrite E.
  rewrite (map2_nth _ _ _ _ _ _ i 0 0 0) by (rewrite ?length_map; lia).
  now rewrite (nth_map_lt _ _ _ _ _ 0) by lia.
Qed.

Lemma bm_S k i :
  (i < length data)%nat ->
  bm (S k) i = bm k i + ev (S k) i * chi2 (S k) * mean (S k) i.
Proof.
  intros Hi.
  destruct (its_shaped k) as (_ & _ & _ & _ & Hb).
  destruct (its_shaped (S k)) as (Hm & _ & He & _).
  pose proof (iterate_bayesian_model (ops := Rops) data data_variance (its k))
    as E.
  rewrite <- !iterates_S in E. rewrite E.
  rewrite (map2_nth _ _ _ _ _ _ i 0 0 0)
    by (rewrite ?map2_length, ?length_map; lia).
  rewrite (map2_nth _ _ _ _ _ _ i 0 0 0) by (rewrite ?length_map; lia).
  now rewrite (nth_map_lt _ _ _ _ _ 0) by lia.
Qed.

Lemma weight_nonneg k i : (i < length data)%nat -> 0 <= ev (S k) i * chi2 (S k).
Proof.
  intros Hi. apply Rmult_le_pos; [|apply chi2_nonneg].
  apply Rlt_le. now apply evidence_pos.
Qed.

Lemma acc_lower (c : R) i K :
  (i < length data)%nat ->
  (forall k, (1 <= k <= K)%nat -> c <= mean k i) ->
  0 <= bw K i /\ c * bw K i <= bm K i.
Proof.
  intros Hi. induction K as [|K IH]; intros Hc.
  - destruct (acc_0 i Hi) as [-> ->]. lra.
  - destruct IH as [IH1 IH2]; [intros; apply Hc; lia|].
    rewrite bw_S, bm_S by exact Hi.
    pose proof (weight_nonneg K i Hi) as Hw.
    assert (Hm : c <= mean (S K) i) by (apply Hc; lia).
    split; [lra|]. nra.
Qed.

Lemma acc_upper (c : R) i K :
  (i < length data)%nat ->
  (forall k, (1 <= k <= K)%nat -> mean k i <= c) ->
  bm K i <= c * bw K i.
Proof.
  intros Hi. induction K as [|K IH]; intros Hc.
  - destruct (acc_0 i Hi) as [-> ->]. lra.
  - assert (IH' : bm K i <= c * bw K i) by (apply IH; intros; apply Hc; lia).
    rewrite bw_S, bm_S by exact Hi.
    pose proof (weight_nonneg K i Hi) as Hw.
    assert (Hm : mean (S K) i <= c) by (apply Hc; lia).
    nra.
Qed.

(** The state the loop returns when its [K]-th test passes. *)
Local Abbreviation fin K :=
  (combine_iteration_zero (ops := Rops) data data_variance (its K)).
Local Abbreviation w0 i :=
  (nth i (initial_evidence_of (ops := Rops) data_variance) 0 * chi2 1).

Lemma bayes_nth K i :
  (i < length data)%nat ->
  nth i (bayes_of (ops := Rops) (fin (S K))) 0
  = (bm (S K) i + w0 i * dat i) / (bw (S K) i + w0 i).
Proof.
  intros Hi.
  destruct (its_shaped (S K)) as (_ & _ & _ & Hw & Hb).
  unfold bayes_of. cbn [combine_iteration_zero bayesian_model bayesian_weight].
  rewrite chi2_data_min_iterates.
  assert (He : length (initial_evidence_of (ops := Rops) data_variance)
               = length data)
    by (unfold initial_evidence_of; rewrite length_map; lia).
  rewrite (map2_nth _ _ _ _ _ _ i 0 0 0)
    by (rewrite ?map2_length, ?length_map; lia).
  rewrite !(map2_nth _ _ _ _ _ _ i 0 0 0)
    by (rewrite ?map2_length, ?length_map; lia).
  now rewrite !(nth_map_lt _ _ _ _ _ 0) by lia.
Qed.

Lemma w0_pos i : (i < length data)%nat -> 0 < chi2 1 -> 0 < w0 i.
Proof.
  intros Hi Hchi. apply Rmult_lt_0_compat; [|exact Hchi].
  now apply initial_evidence_pos.
Qed.

Lemma bayes_lower (c : R) i K :
  (i < length data)%nat -> 0 < chi2 1 -> c <= dat i ->
  (forall k, (1 <= k <= S K)%nat -> c <= mean k i) ->
  c <= nth i (bayes_of (ops := Rops) (fin (S K))) 0.
Proof.
  intros Hi Hchi Hd Hc. rewrite bayes_nth by exact Hi.
  destruct (acc_lower c i (S K) Hi Hc) as [Hw Hm].
  pose proof (w0_pos i Hi Hchi) as H0.
  apply Rmult_le_reg_r with (bw (S K) i + w0 i); [lra|].
  unfold Rdiv. rewrite Rmult_assoc, Rinv_l by lra. nra.
Qed.

Lemma bayes_upper (c : R) i K :
  (i < length data)%nat -> 0 < chi2 1 -> dat i <= c ->
  (forall k, (1 <= k <= S K)%nat -> mean k i <= c) ->
  nth i (bayes_of (ops := Rops) (fin (S K))) 0 <= c.
Proof.
  intros Hi Hchi Hd Hc. rewrite bayes_nth by exact Hi.
  pose proof (acc_upper c i (S K) Hi Hc) as Hm.
  assert (Hlo : forall k, (1 <= k <= S K)%nat -> lo <= mean k i)
    by (intros; now apply mean_bounds).
  destruct (acc_lower lo i (S K) Hi Hlo) as [Hw _].
  pose proof (w0_pos i Hi Hchi) as H0.
  apply Rmult_le_reg_r with (bw (S K) i + w0 i); [lra|].
  unfold Rdiv. rewrite Rmult_assoc, Rinv_l by lra. nra.
Qed.

Lemma bw_ge_first i K :
  (i < length data)%nat -> ev 1 i * chi2 1 <= bw (S K) i.
Proof.
  intros Hi. induction K as [|K IH].
  - rewrite bw_S by exact Hi. destruct (acc_0 i Hi) as [-> _]. lra.
  - rewrite (bw_S (S K)) by exact Hi.
    pose proof (weight_nonneg (S K) i Hi). lra.
Qed.

(** All iterates at least [D] above [c], and the first of them weighted
    at least two thirds of iteration zero: the estimate is [2D/5] above. *)
Lemma bayes_margin (c D : R) i K :
  (i < length data)%nat -> 0 < chi2 1 -> c <= dat i -> 0 <= D ->
  (forall k, (1 <= k <= S K)%nat -> c + D <= mean k i) ->
  2 / 3 * ev 0 i <= ev 1 i ->
  c + 2 / 5 * D <= nth i (bayes_of (ops := Rops) (fin (S K))) 0.
Proof.
  intros Hi Hchi Hd HD Hc Hev. rewrite bayes_nth by exact Hi.
  destruct (acc_lower (c + D) i (S K) Hi Hc) as [Hw Hm].
  pose proof (w0_pos i Hi Hchi) as H0.
  pose proof (bw_ge_first i K Hi) as H1.
  change (ev 0 i)
    with (nth i (initial_evidence_of (ops := Rops) data_variance) 0) in Hev.
  set (e0 := nth i (initial_evidence_of (ops := Rops) data_variance) 0) in *.
  set (W := bw (S K) i) in *. set (M := bm (S K) i) in *.
  set (e1 := ev 1 i) in *. set (x1 := chi2 1) in *.
  assert (H2 : 2 / 3 * (e0 * x1) <= W) by nra.
  apply Rle_div_intro; [lra|]. nra.
Qed.

(** The smoother returns the estimate of some iterate [1 .. 129]. *)
Lemma smoother_R_result :
  exists K, (K <= max_iter)%nat /\
    smoother (ops := Rops) data data_variance
    = Some (bayes_of (ops := Rops) (fin (S K))) /\
    length (bayes_of (ops := Rops) (fin (S K))) = length data.
Proof.
  destruct (loop_result (ops := Rops) data data_variance)
    as (K & HK & Hw & _ & _).
  destruct K as [|K]; [lia|]. exists K. split; [lia|].
  unfold smoother. rewrite same_shape, Nat.eqb_refl, Hw. split; [reflexivity|].
  destruct (combine_iteration_zero_shaped (ops := Rops) data data_variance
              same_shape (its (S K)) (its_shaped (S K)))
    as (_ & _ & _ & Hbw & Hbm).
  unfold bayes_of. rewrite map2_length. lia.
Qed.

Section Seam.
Variable j : nat.
Hypothesis j_interior : (1 <= j)%nat /\ (S j < length data)%nat.

(** The seam is the middle of the array, the mirrored pairs of data sum
    to [Q] at least, and the first prior at [j] is within the noise: the
    estimate at [j] ends two fifths of [D] above the datum at least. *)
Section PulledUp.
Hypothesis middle : length data = (2 * S j)%nat.
Variable Q : R.
Hypothesis pairs :
  forall i, (i < length data)%nat -> Q <= dat i + dat (length data - 1 - i).
Variable D : R.
Hypothesis margin : 0 < D /\ dat j + 2 * D <= (Q + lo) / 3.
Hypothesis gentle :
  ((dat j + dat (S j) + dat (j - 1)) / 3 - dat j)
  * ((dat j + dat (S j) + dat (j - 1)) / 3 - dat j) <= 2 * var j.

Lemma meanx_pairs (pm : list R) i :
  length pm = length data ->
  (forall i', (i' < length data)%nat ->
     Q <= nth i' pm 0 + nth (length data - 1 - i') pm 0) ->
  (i < length data)%nat ->
  Q <= nth i (meanx_of (ops := Rops) pm) 0
       + nth (length data - 1 - i) (meanx_of (ops := Rops) pm) 0.
Proof.
  intros Hl Hq Hi. rewrite !meanx_of_nth by lia. rewrite Hl.
  destruct (Nat.eqb_spec i 0) as [->|Hi0].
  - (* first and last sample *)
    replace (length data - 1 - 0 =? 0)%nat with false
      by (symmetry; apply Nat.eqb_neq; lia).
    replace (S (length data - 1 - 0) =? length data)%nat with true
      by (symmetry; apply Nat.eqb_eq; lia).
    pose proof (Hq 0%nat ltac:(lia)) as H0.
    pose proof (Hq 1%nat ltac:(lia)) as H1.
    replace (length data - 1 - 0 - 1)%nat with (length data - 1 - 1)%nat
      by lia.
    unfold lit. simpl. lra.
  - destruct (Nat.eqb_spec (S i) (length data)) as [Hil|Hil].
    + (* last and first sample *)
      replace (length data - 1 - i)%nat with 0%nat by lia.
      pose proof (Hq i Hi) as H0.
      pose proof (Hq (i - 1)%nat ltac:(lia)) as H1.
      replace (length data - 1 - i)%nat with 0%nat in H0 by lia.
      replace (length data - 1 - (i - 1))%nat with 1%nat in H1 by lia.
      unfold lit. simpl. lra.
    + (* two interior samples *)
      replace (length data - 1 - i =? 0)%nat with false
        by (symmetry; apply Nat.eqb_neq; lia).
      replace (S (length data - 1 - i) =? length data)%nat with false
        by (symmetry; apply Nat.eqb_neq; lia).
      pose proof (Hq i Hi) as H0.
      pose proof (Hq (S i) ltac:(lia)) as H1.
      pose proof (Hq (i - 1)%nat ltac:(lia)) as H2.
      replace (length data - 1 - S i)%nat
        with (length data - 1 - i - 1)%nat in H1 by lia.
      replace (length data - 1 - (i - 1))%nat
        with (S (length data - 1 - i)) in H2 by lia.
      unfold lit. simpl. lra.
Qed.

Lemma mean_pairs k i :
  (i < length data)%nat -> Q <= mean k i + mean k (length data - 1 - i).
Proof.
  revert i; induction k as [|k IH]; intros i Hi.
  - now apply pairs.
  - rewrite !mean_S by lia.
    destruct (its_shaped k) as (Hm & _).
    pose proof (meanx_pairs _ i Hm IH Hi) as Hp.
    pose proof (pairs i Hi) as Hd.
    pose proof (S_INR_pos k) as Hc.
    set (c := INR (S k)) in *.
    replace ((c * prior k i + dat i) / (c + 1)
             + (c * prior k (length data - 1 - i)
                + dat (length data - 1 - i)) / (c + 1))
      with ((c * (prior k i + prior k (length data - 1 - i))
             + (dat i + dat (length data - 1 - i))) / (c + 1))
      by (field; lra).
    now apply wavg_lower.
Qed.

Lemma prior_high k : dat j + 2 * D <= prior k j.
Proof.
  destruct (its_shaped k) as (Hm & _).
  rewrite meanx_of_nth by lia.
  replace (j =? 0)%nat with false by (symmetry; apply Nat.eqb_neq; lia).
  replace (S j =? length (posterior_mean (its k)))%nat with false
    by (symmetry; apply Nat.eqb_neq; lia).
  pose proof (mean_pairs k j ltac:(lia)) as Hq.
  replace (length data - 1 - j)%nat with (S j) in Hq by lia.
  pose proof (mean_bounds k (j - 1) ltac:(lia)) as Hp.
  unfold lit. simpl. lra.
Qed.

Lemma mean_high k : dat j + D <= mean (S k) j.
Proof.
  rewrite mean_S by lia.
  pose proof (prior_high k) as Hp.
  assert (Hc : 1 <= INR (S k)) by (rewrite S_INR; pose proof (pos_INR k); lra).
  apply wavg_margin; lra.
Qed.

Lemma first_evidence_high : 2 / 3 * ev 0 j <= ev 1 j.
Proof.
  assert (Hj : (j < length data)%nat) by lia.
  assert (Hx := meanx_of_length (ops := Rops) data).
  rewrite iterates_1, iterate_evidence.
  change (evidence (its 0))
    with (initial_evidence_of (ops := Rops) data_variance).
  cbn [posterior_mean posterior_variance initial_state].
  rewrite (map2_nth _ _ _ _ _ _ j 0 0 0);
    [|rewrite length_map, map2_length; lia|rewrite map2_length; lia].
  rewrite (nth_map_lt _ _ _ _ _ 0) by (rewrite map2_length; lia).
  rewrite !(map2_nth _ _ _ _ _ _ j 0 0 0) by lia.
  unfold initial_evidence_of. rewrite (nth_map_lt _ _ _ _ _ 0) by lia.
  rewrite meanx_of_nth by lia.
  replace (j =? 0)%nat with false by (symmetry; apply Nat.eqb_neq; lia).
  replace (S j =? length data)%nat with false
    by (symmetry; apply Nat.eqb_neq; lia).
  apply gauss_ratio; [now apply var_pos|].
  replace (j - 1)%nat with (j - 1)%nat by lia. exact gentle.
Qed.

Lemma seam_estimate_high :
  exists bayes,
    smoother (ops := Rops) data data_variance = Some bayes /\
    length bayes = length data /\
    dat j + 2 / 5 * D <= nth j bayes 0 <= hi.
Proof.
  destruct smoother_R_result as (K & HK & Hs & Hl).
  exists (bayes_of (ops := Rops) (fin (S K))). split; [exact Hs|].
  split; [exact Hl|].
  assert (Hj : (j < length data)%nat) by lia.
  pose proof (dat_bounds j Hj) as Hd.
  assert (Hchi : 0 < chi2 1).
  { apply (chi2_pos 0 j Hj). pose proof (mean_high 0). lra. }
  split.
  - apply bayes_margin; auto; try lra.
    + intros k Hk. destruct k as [|k]; [lia|]. apply mean_high.
    + apply first_evidence_high.
  - apply bayes_upper; auto; [lra|].
    intros k Hk. now apply mean_bounds.
Qed.
End PulledUp.

(** The datum at [j] is the largest of the block and the next one is
    smaller: the estimate at [j] cannot exceed it. *)
Section Peak.
Hypothesis peak : dat j = hi.
Hypothesis next_lower : dat (S j) < dat j.

Lemma peak_estimate_below :
  exists bayes,
    smoother (ops := Rops) data data_variance = Some bayes /\
    length bayes = length data /\
    lo <= nth j bayes 0 <= dat j.
Proof.
  destruct smoother_R_result as (K & HK & Hs & Hl).
  exists (bayes_of (ops := Rops) (fin (S K))). split; [exact Hs|].
  split; [exact Hl|].
  assert (Hj : (j < length data)%nat) by lia.
  assert (Hchi : 0 < chi2 1).
  { apply (chi2_pos 0 j Hj). rewrite mean_S by exact Hj.
    assert (Hp : prior 0 j < dat j).
    { rewrite meanx_of_nth by (simpl; lia).
      replace (j =? 0)%nat with false by (symmetry; apply Nat.eqb_neq; lia).
      replace (S j =? length (posterior_mean (its 0)))%nat with false
        by (symmetry; apply Nat.eqb_neq; simpl; lia).
      pose proof (dat_bounds (j - 1) ltac:(lia)) as Hq.
      simpl. unfold lit. simpl. unfold Rdiv. lra. }
    pose proof (wavg_below (INR 1) _ _ (S_INR_pos 0) Hp). lra. }
  pose proof (dat_bounds j Hj) as Hd.
  split.
  - apply bayes_lower; auto; [lra|].
    intros k Hk. now apply mean_bounds.
  - rewrite peak. apply bayes_upper; auto; [lra|].
    intros k Hk. now apply mean_bounds.
Qed.
End Peak.
End Seam.

End RealSmoother.

(** ** Blocks of six samples in exact arithmetic *)

(** Two lists of real constants, equal element by element. *)
Ltac list_eq := repeat (apply f_equal2; [lra|]); reflexivity.

Section RealBlocks.
Variable pdf : R -> nat -> R.
Local Abbreviation Rops := (R_ops pdf).
Local Open Scope R_scope.

Lemma scale1_R (l : list R) :
  map (fun x => @fdiv R Rops x (@lit R Rops 1)) l = l.
Proof.
  rewrite <- (map_id l) at 2. apply map_ext. intros x.
  unfold lit. simpl. field.
Qed.

Lemma split_R (l : list R) :
  split (ops := Rops) l = stride2 l ++ stride2 (tl l).
Proof. unfold split, dleft_of, dright_of. now rewrite scale1_R. Qed.

Lemma data_variance_of_R (l pl pr : list R) :
  pad (ops := Rops) (stride2 l) = Some pl ->
  pad (ops := Rops) (stride2 (tl l)) = Some pr ->
  data_variance_of (ops := Rops) l
  = Some (noise_variance (ops := Rops) pl ++ noise_variance (ops := Rops) pr).
Proof.
  intros Hl Hr. apply data_variance_of_some; unfold dleft_of, dright_of;
    now rewrite scale1_R.
Qed.

Lemma pad_3 (c0 c1 c2 : R) :
  pad (ops := Rops) [c0; c1; c2]
  = Some [(c0 + c1) / 2; c0; c1; c2; (c2 + c1) / 2].
Proof.
  unfold pad, avar, zvar, nth_back, lit. simpl.
  replace (c0 / 2 + c1 / 2) with ((c0 + c1) / 2) by lra.
  replace (c2 / 2 + c1 / 2) with ((c2 + c1) / 2) by lra.
  reflexivity.
Qed.

(** The variance estimate of a three-sample channel, step by step. *)
Lemma noise_variance_3 (p0 p1 p2 p3 p4 b0 b1 b2 m r0 r1 r2 rm v : R) :
  b0 = p0 + p1 + p2 / 3 -> b1 = p1 + p2 + p3 / 3 -> b2 = p2 + p3 + p4 / 3 ->
  m = (b0 + b1 + b2) / 3 ->
  r0 = Rabs (b0 - m) -> r1 = Rabs (b1 - m) -> r2 = Rabs (b2 - m) ->
  rm = (r0 + r1 + r2) / 3 ->
  v = ((r0 - rm) ^ 2 + (r1 - rm) ^ 2 + (r2 - rm) ^ 2) / 3 ->
  noise_variance (ops := Rops) [p0; p1; p2; p3; p4] = [r0 * v; r1 * v; r2 * v].
Proof.
  intros Hb0 Hb1 Hb2 Hm Hr0 Hr1 Hr2 Hrm Hv.
  unfold noise_variance.
  assert (Hbeta : data_beta (ops := Rops) [p0; p1; p2; p3; p4] = [b0; b1; b2])
    by (subst b0 b1 b2; reflexivity).
  rewrite Hbeta.
  assert (Hres : data_variance_residues (ops := Rops) [b0; b1; b2]
                 = [r0; r1; r2]).
  { rewrite data_variance_residues_eq, firstn_all2
      by (unfold residues_len; simpl length; lia).
    rewrite np_mean_R.
    assert (Hmean : Rmean [b0; b1; b2] = m)
      by (unfold Rmean, Rsum; simpl; lra).
    rewrite Hmean. subst r0 r1 r2. reflexivity. }
  rewrite Hres. unfold scale_residues. rewrite np_var_R.
  assert (Hvar : Rpop_variance [r0; r1; r2] = v).
  { unfold Rpop_variance.
    assert (Hmean : Rmean [r0; r1; r2] = rm)
      by (unfold Rmean, Rsum; simpl; lra).
    rewrite Hmean. unfold Rmean, Rsum. simpl. lra. }
  rewrite Hvar. reflexivity.
Qed.

Lemma Rabs_of_pos (x y : R) : 0 <= x -> x = y -> y = Rabs x.
Proof. intros Hx <-. symmetry. now apply Rabs_right, Rle_ge. Qed.

Lemma Rabs_of_neg (x y : R) : x <= 0 -> - x = y -> y = Rabs x.
Proof. intros Hx <-. symmetry. now apply Rabs_left1. Qed.

Lemma block6_split (a0 b0 a1 b1 a2 b2 : R) :
  split (ops := Rops) [a0; b0; a1; b1; a2; b2] = [a0; a1; a2; b0; b1; b2].
Proof. rewrite split_R. reflexivity. Qed.

Lemma block6_variance (a0 b0 a1 b1 a2 b2 : R) :
  data_variance_of (ops := Rops) [a0; b0; a1; b1; a2; b2]
  = Some (noise_variance (ops := Rops)
            [(a0 + a1) / 2; a0; a1; a2; (a2 + a1) / 2]
          ++ noise_variance (ops := Rops)
               [(b0 + b1) / 2; b0; b1; b2; (b2 + b1) / 2]).
Proof. apply data_variance_of_R; apply pad_3. Qed.

Ltac channel_variance b0 b1 b2 m r0 r1 r2 rm v :=
  rewrite (noise_variance_3 _ _ _ _ _ b0 b1 b2 m r0 r1 r2 rm v);
  [list_eq|..];
  try lra;
  try (apply Rabs_of_pos; lra);
  try (apply Rabs_of_neg; lra).

Lemma variance_0_1_1 :
  noise_variance (ops := Rops) [(0 + 1) / 2; 0; 1; 1; (1 + 1) / 2]
  = [13 / 243; 13 / 972; 65 / 972].
Proof.
  channel_variance (5 / 6) (4 / 3) (7 / 3) (3 / 2)
                   (2 / 3) (1 / 6) (5 / 6) (5 / 9) (13 / 162).
Qed.

Lemma variance_3_m2_m3 :
  noise_variance (ops := Rops) [(3 + -2) / 2; 3; -2; -3; (-3 + -2) / 2]
  = [9821 / 972; 427 / 162; 12383 / 972].
Proof.
  channel_variance (17 / 6) 0 (- 35 / 6) (- 1)
                   (23 / 6) 1 (29 / 6) (29 / 9) (427 / 162).
Qed.

Lemma variance_left :
  noise_variance (ops := Rops)
    [(-2000 + -1000) / 2; -2000; -1000; 0; (0 + -1000) / 2]
  = [22750000000 / 81; 6500000000 / 81; 3250000000 / 9].
Proof.
  channel_variance (- 11500 / 3) (- 3000) (- 3500 / 3) (- 8000 / 3)
                   (3500 / 3) (1000 / 3) 1500 1000 (6500000 / 27).
Qed.

Lemma variance_right_high :
  noise_variance (ops := Rops)
    [(20000 + 21000) / 2; 20000; 21000; 21000; (21000 + 21000) / 2]
  = [13000000000 / 243; 3250000000 / 243; 16250000000 / 243].
Proof.
  channel_variance 47500 48000 49000 (144500 / 3)
                   (2000 / 3) (500 / 3) (2500 / 3) (5000 / 9) (6500000 / 81).
Qed.

Lemma variance_right_low :
  noise_variance (ops := Rops)
    [(-20000 + -21000) / 2; -20000; -21000; -21000; (-21000 + -21000) / 2]
  = [13000000000 / 243; 3250000000 / 243; 16250000000 / 243].
Proof.
  channel_variance (- 47500) (- 48000) (- 49000) (- 144500 / 3)
                   (2000 / 3) (500 / 3) (2500 / 3) (5000 / 9) (6500000 / 81).
Qed.
End RealBlocks.

(** ** The iteration-zero model *)

(** C3 (as the code has it).  The loop passes its test once, at some
    iteration [K <= 129]; no earlier state is converged; on that transition
    the iteration-zero model enters the ensemble with the weight
    [initial_evidence * chi2_data_min], and [chi2_data_min] is the
    [chi2_data] of iteration 1. *)
Theorem iteration_zero_folded_once :
  forall (T : Type) (ops : NumOps T) (data data_variance : list T),
  exists (K : nat) (st : state),
    (1 <= K <= 129)%nat /\
    while_not_converged data data_variance (S max_iter)
      (initial_state data data_variance) = Some st /\
    st = combine_iteration_zero data data_variance
           (iterates data data_variance K) /\
    (forall k, converged (iterates data data_variance k) = false) /\
    converged st = true /\
    chi2_data_min st = chi2_data (iterates data data_variance 1) /\
    let model_weight0 :=
      map (fun e => fmul e (chi2_data (iterates data data_variance 1)))
          (initial_evidence_of data_variance) in
    bayesian_weight st
    = map2 fadd (bayesian_weight (iterates data data_variance K)) model_weight0
    /\
    bayesian_model st
    = map2 fadd (bayesian_model (iterates data data_variance K))
        (map2 fmul model_weight0 data).
Proof.
  intros T ops data dv.
  destruct (loop_result data dv) as (K & HK & Hw & _ & _).
  exists K, (combine_iteration_zero data dv (iterates data dv K)).
  destruct K as [|K]; [lia|].
  split; [exact HK|]. split; [exact Hw|]. split; [reflexivity|].
  split; [apply iterates_converged|]. split; [reflexivity|].
  cbn [combine_iteration_zero chi2_data_min bayesian_weight bayesian_model].
  rewrite chi2_data_min_iterates. repeat split.
Qed.

Section MinimumCounterexample.
Variable pdf : R -> nat -> R.
Local Abbreviation Rops := (R_ops pdf).
Local Open Scope R_scope.

Local Abbreviation data := [0; 1; 1; 3; -2; -3].
Local Abbreviation dv :=
  [13 / 243; 13 / 972; 65 / 972; 9821 / 972; 427 / 162; 12383 / 972].
Local Abbreviation its := (iterates (ops := Rops) data dv).

Lemma example_variance_pos : Forall (fun v => 0 < v) dv.
Proof. repeat constructor; lra. Qed.

Lemma example_two : (2 <= length data)%nat.
Proof. simpl. lia. Qed.

Lemma example_mean_1 :
  posterior_mean (its 1) = [1 / 4; 5 / 6; 4 / 3; 11 / 6; - 4 / 3; - 11 / 4].
Proof.
  rewrite (posterior_mean_S pdf data dv eq_refl example_two
             example_variance_pos).
  change (posterior_mean (its 0)) with data.
  unfold meanx_of, lit. simpl. list_eq.
Qed.

Lemma example_mean_2 :
  posterior_mean (its 2)
  = [13 / 36; 47 / 54; 11 / 9; 38 / 27; - 7 / 6; - 85 / 36].
Proof.
  rewrite (posterior_mean_S pdf data dv eq_refl example_two
             example_variance_pos).
  rewrite example_mean_1.
  unfold meanx_of, lit. simpl. list_eq.
Qed.

Lemma example_chi2_1 : chi2_data (its 1) = 1544680107 / 296201360.
Proof.
  rewrite (chi2_data_S pdf data dv), example_mean_1.
  unfold sq, Rsum. simpl. lra.
Qed.

Lemma example_chi2_2 : chi2_data (its 2) = 1474758267 / 296201360.
Proof.
  rewrite (chi2_data_S pdf data dv), example_mean_2.
  unfold sq, Rsum. simpl. lra.
Qed.

Lemma example_goes_on : stops_at (ops := Rops) data dv 1 = false.
Proof.
  unfold stops_at, stop_test. rewrite iterates_iteration, example_chi2_1.
  unfold size_of. simpl.
  destruct (Rlt_dec 6 (1544680107 / 296201360)) as [H|H]; [lra|reflexivity].
Qed.
End MinimumCounterexample.

(** C3, the minimum as stated.  For the block [0 3 1 -2 1 -3] the first
    test fails, so a second iteration runs, and its [chi2_data] is smaller
    than the one of iteration 1 that [chi2_data_min] keeps. *)
Lemma chi2_data_min_not_minimal :
  exists (block : list Z) (data data_variance : list R),
    block = [0; 3; 1; -2; 1; -3]%Z /\
    Forall (fun v => (0 < v)%R) data_variance /\
    forall pdf : R -> nat -> R,
      split (ops := R_ops pdf) (map IZR block) = data /\
      data_variance_of (ops := R_ops pdf) (map IZR block)
      = Some data_variance /\
      stops_at (ops := R_ops pdf) data data_variance 1 = false /\
      (chi2_data (iterates (ops := R_ops pdf) data data_variance 2)
       < chi2_data (iterates (ops := R_ops pdf) data data_variance 1))%R /\
      forall k,
        chi2_data_min (iterates (ops := R_ops pdf) data data_variance (S k))
        = chi2_data (iterates (ops := R_ops pdf) data data_variance 1).
Proof.
  exists [0; 3; 1; -2; 1; -3]%Z, [0; 1; 1; 3; -2; -3]%R,
    [13 / 243; 13 / 972; 65 / 972; 9821 / 972; 427 / 162; 12383 / 972]%R.
  split; [reflexivity|]. split; [apply example_variance_pos|].
  intros pdf. split; [apply block6_split|]. split.
  - simpl map. rewrite block6_variance.
    now rewrite variance_0_1_1, variance_3_m2_m3.
  - split; [apply example_goes_on|]. split.
    + rewrite example_chi2_1, example_chi2_2. lra.
    + intros k. apply chi2_data_min_iterates.
Qed.

(** ** The left channel of the output *)

Section MergeSample.
Context {T : Type} {ops : NumOps T}.

(** Output sample [2j] is the quantised estimate [j] of the first half. *)
Lemma merge_left_sample (bayes : list T) (n j : nat) (d : T) :
  length bayes = (2 * n)%nat -> (j < n)%nat ->
  exists out,
    merge bayes = Some out /\
    nth (2 * j) out None = astype_int16 (nth j bayes d).
Proof.
  intros Hlen Hj.
  assert (Hf : length (firstn n bayes) = n) by (rewrite length_firstn; lia).
  assert (Hs : length (skipn n bayes) = n) by (rewrite length_skipn; lia).
  unfold merge.
  replace (np_split2 bayes)
    with (np_split2 (firstn n bayes ++ skipn n bayes))
    by now rewrite firstn_skipn.
  rewrite np_split2_app by lia.
  eexists. split; [reflexivity|].
  rewrite (nth_map_lt _ _ _ _ _ d)
    by (rewrite interleave_length; lia).
  destruct (interleave_nth _ (firstn n bayes) (skipn n bayes) j d) as [E _];
    [lia|lia|].
  rewrite E, nth_firstn.
  now replace (j <? n)%nat with true by (symmetry; apply Nat.ltb_lt; lia).
Qed.
End MergeSample.

Section RealQuantise.
Local Open Scope R_scope.

Lemma R_astype_ge (x : R) (n : Z) :
  (0 <= n)%Z -> IZR n <= x <= 32767 ->
  exists z, R_astype_int16 x = Some z /\ (n <= z)%Z.
Proof.
  intros Hn [Hlo Hhi]. unfold R_astype_int16, R_trunc, int16_range.
  assert (H0 : 0 <= IZR n) by now apply IZR_le.
  destruct (Rle_dec 0 x) as [Hx|Hx]; [|lra].
  destruct (base_Int_part x) as [H1 H2].
  assert (Ha : (n <= Int_part x)%Z).
  { apply Z.lt_succ_r, lt_IZR. rewrite succ_IZR. lra. }
  assert (Hb : (Int_part x <= 32767)%Z) by (apply le_IZR; lra).
  exists (Int_part x).
  replace (-32768 <=? Int_part x)%Z with true
    by (symmetry; apply Z.leb_le; lia).
  replace (Int_part x <=? 32767)%Z with true
    by (symmetry; apply Z.leb_le; lia).
  split; [reflexivity|exact Ha].
Qed.

Lemma R_astype_le0 (x : R) :
  -32768 <= x <= 0 ->
  exists z, R_astype_int16 x = Some z /\ (z <= 0)%Z.
Proof.
  intros [Hlo Hhi]. unfold R_astype_int16, R_trunc, int16_range.
  destruct (Rle_dec 0 x) as [Hx|Hx].
  - destruct (base_Int_part x) as [H1 H2].
    assert (Ha : (0 <= Int_part x)%Z).
    { apply Z.lt_succ_r, lt_IZR. rewrite succ_IZR. lra. }
    assert (Hb : (Int_part x <= 0)%Z) by (apply le_IZR; lra).
    exists (Int_part x).
    replace (-32768 <=? Int_part x)%Z with true
      by (symmetry; apply Z.leb_le; lia).
    replace (Int_part x <=? 32767)%Z with true
      by (symmetry; apply Z.leb_le; lia).
    split; [reflexivity|exact Hb].
  - destruct (base_Int_part (- x)) as [H1 H2].
    assert (Ha : (0 <= Int_part (- x))%Z).
    { apply Z.lt_succ_r, lt_IZR. rewrite succ_IZR. lra. }
    assert (Hb : (Int_part (- x) <= 32768)%Z) by (apply le_IZR; lra).
    exists (- Int_part (- x))%Z.
    replace (-32768 <=? - Int_part (- x))%Z with true
      by (symmetry; apply Z.leb_le; lia).
    replace (- Int_part (- x) <=? 32767)%Z with true
      by (symmetry; apply Z.leb_le; lia).
    split; [reflexivity|lia].
Qed.
End RealQuantise.

Section SeamCounterexample.
Variable pdf : R -> nat -> R.
Local Abbreviation Rops := (R_ops pdf).
Local Open Scope R_scope.

Local Abbreviation dv :=
  [22750000000 / 81; 6500000000 / 81; 3250000000 / 9;
   13000000000 / 243; 3250000000 / 243; 16250000000 / 243].
Local Abbreviation data_high := [-2000; -1000; 0; 20000; 21000; 21000].
Local Abbreviation data_low := [-2000; -1000; 0; -20000; -21000; -21000].

Lemma seam_variance_pos : Forall (fun v => 0 < v) dv.
Proof. repeat constructor; lra. Qed.

Lemma data_high_pairs i :
  (i < length data_high)%nat ->
  19000 <= nth i data_high 0 + nth (length data_high - 1 - i) data_high 0.
Proof.
  intros Hi. simpl in Hi.
  destruct i as [|[|[|[|[|[|i]]]]]]; simpl; try lra. lia.
Qed.

(** Right channel far above the left one: the third left sample of the
    output is 1000 at least. *)
Lemma high_right_output :
  exists out z,
    stream_write (ops := Rops) [-2000; 20000; -1000; 21000; 0; 21000]%Z
    = Some out /\
    nth 4 out None = Some z /\ (1000 <= z)%Z.
Proof.
  unfold stream_write, fabada1x. simpl map.
  rewrite block6_variance, variance_left, variance_right_high.
  rewrite block6_split. simpl app.
  destruct (seam_estimate_high pdf data_high dv
              eq_refl ltac:(simpl; lia) seam_variance_pos (-2000) 21000
              ltac:(repeat constructor; lra) 2%nat ltac:(simpl; lia)
              eq_refl 19000 data_high_pairs 2500
              ltac:(simpl; lra) ltac:(simpl; lra))
    as (bayes & Hs & Hl & Hb).
  rewrite Hs. simpl in Hb.
  destruct (merge_left_sample (ops := Rops) bayes 3 2 0 Hl ltac:(lia))
    as (out & Hm & Hn).
  destruct (R_astype_ge (nth 2 bayes 0) 1000 ltac:(lia) ltac:(lra))
    as (z & Hz & Hz0).
  exists out, z. split; [exact Hm|]. split; [|exact Hz0].
  simpl in Hn. rewrite Hn. exact Hz.
Qed.

(** Right channel far below: the same sample is 0 at most. *)
Lemma low_right_output :
  exists out z,
    stream_write (ops := Rops) [-2000; -20000; -1000; -21000; 0; -21000]%Z
    = Some out /\
    nth 4 out None = Some z /\ (z <= 0)%Z.
Proof.
  unfold stream_write, fabada1x. simpl map.
  rewrite block6_variance, variance_left, variance_right_low.
  rewrite block6_split. simpl app.
  destruct (peak_estimate_below pdf data_low dv
              eq_refl ltac:(simpl; lia) seam_variance_pos (-21000) 0
              ltac:(repeat constructor; lra) 2%nat ltac:(simpl; lia)
              eq_refl ltac:(simpl; lra))
    as (bayes & Hs & Hl & Hb).
  rewrite Hs. simpl in Hb.
  destruct (merge_left_sample (ops := Rops) bayes 3 2 0 Hl ltac:(lia))
    as (out & Hm & Hn).
  destruct (R_astype_le0 (nth 2 bayes 0) ltac:(lra)) as (z & Hz & Hz0).
  exists out, z. split; [exact Hm|]. split; [|exact Hz0].
  simpl in Hn. rewrite Hn. exact Hz.
Qed.
End SeamCounterexample.

(** C1, as stated.  Two blocks with the same left channel
    [-2000 -1000 0]: with the right channel [20000 21000 21000] the third
    left sample of the output is 1000 at least, with the right channel
    [-20000 -21000 -21000] it is 0 at most (exact arithmetic, every
    variance strictly positive). *)
Lemma right_channel_changes_left_output :
  exists block1 block2 : list Z,
    block1 = [-2000; 20000; -1000; 21000; 0; 21000]%Z /\
    block2 = [-2000; -20000; -1000; -21000; 0; -21000]%Z /\
    channel_of false block1 = channel_of false block2 /\
    forall pdf : R -> nat -> R,
    exists out1 out2 z1 z2,
      stream_write (ops := R_ops pdf) block1 = Some out1 /\
      stream_write (ops := R_ops pdf) block2 = Some out2 /\
      nth 4 out1 None = Some z1 /\ nth 4 out2 None = Some z2 /\
      (1000 <= z1)%Z /\ (z2 <= 0)%Z.
Proof.
  eexists _, _. split; [reflexivity|]. split; [reflexivity|].
  split; [reflexivity|]. intros pdf.
  destruct (high_right_output pdf) as (out1 & z1 & H1 & Hn1 & Hz1).
  destruct (low_right_output pdf) as (out2 & z2 & H2 & Hn2 & Hz2).
  exists out1, out2, z1, z2. auto 10.
Qed.

(** * Further properties of the program *)

(** ** Block shapes *)

Section BlockShape.
Context {T : Type} {ops : NumOps T}.

Lemma smoother_length (data dv bayes : list T) :
  smoother data dv = Some bayes -> length bayes = length data.
Proof.
  unfold smoother. destruct (Nat.eqb_spec (length data) (length dv)) as [E|];
    [|discriminate].
  destruct (loop_result data dv) as (K & _ & -> & _). simpl.
  intros H. injection H as <-.
  destruct (combine_iteration_zero_shaped data dv (eq_sym E)
              (iterates data dv K) (iterates_shaped data dv (eq_sym E) K))
    as (_ & _ & _ & Hw & Hm).
  unfold bayes_of. rewrite map2_length. lia.
Qed.

Lemma smoother_defined (data dv : list T) :
  length data = length dv -> exists bayes, smoother data dv = Some bayes.
Proof.
  intros E. unfold smoother.
  replace (length data =? length dv)%nat with true
    by (symmetry; now apply Nat.eqb_eq).
  destruct (loop_result data dv) as (K & _ & -> & _). simpl. eauto.
Qed.

Lemma merge_length (bayes : list T) out :
  merge bayes = Some out -> length out = length bayes.
Proof.
  unfold merge, np_split2. destruct (Nat.even (length bayes)) eqn:E;
    [|discriminate].
  intros H. injection H as <-.
  apply Nat.even_spec in E. destruct E as [m Hm].
  assert (Hd : Nat.div2 (length bayes) = m)
    by (replace (length bayes) with (m + m)%nat by lia; apply div2_double).
  rewrite Hd, length_map, interleave_length;
    rewrite ?length_firstn, ?length_skipn; lia.
Qed.

Lemma merge_odd (bayes : list T) :
  Nat.odd (length bayes) = true -> merge bayes = None.
Proof.
  intros H. unfold merge, np_split2.
  rewrite <- Nat.negb_odd, H. reflexivity.
Qed.

Lemma merge_even (bayes : list T) :
  Nat.even (length bayes) = true -> exists out, merge bayes = Some out.
Proof.
  intros H. unfold merge, np_split2. rewrite H. eauto.
Qed.

Lemma split_length_any (data : list T) : length (split data) = length data.
Proof.
  unfold split, dleft_of, dright_of.
  rewrite length_app, stride2_length, stride2_tl_length, length_map.
  assert (H : forall n, (Nat.div2 (S n) + Nat.div2 n = n)%nat).
  { intros n. induction n as [|n IH]; [reflexivity|].
    simpl Nat.div2 at 1. destruct n; simpl in *; lia. }
  apply H.
Qed.


(** The smoother and the merge on arrays of one even length: no exception,
    as many samples back. *)
Lemma smoother_merge_defined (data dv : list T) n :
  length data = (2 * n)%nat -> length dv = (2 * n)%nat ->
  exists bayes out,
    smoother data dv = Some bayes /\ merge bayes = Some out /\
    length out = (2 * n)%nat.
Proof.
  intros Hd Hv.
  destruct (smoother_defined data dv ltac:(lia)) as (bayes & Hb).
  assert (Hbl := smoother_length _ _ _ Hb).
  destruct (merge_even bayes) as (out & Ho).
  { rewrite Hbl, Hd. replace (2 * n)%nat with (n + n)%nat by lia.
    apply even_double. }
  exists bayes, out. repeat split; auto.
  rewrite (merge_length _ _ Ho). lia.
Qed.

(** [fabada1x] returns on every block of [2n] samples with
    [2 <= n <= 32768], whatever the samples are, and the block it returns
    has as many samples as the one it was given. *)
Theorem fabada1x_returns_block_of_same_length (data : list T) (n : nat) :
  length data = (2 * n)%nat -> (2 <= n <= residues_len)%nat ->
  exists out, fabada1x data = Some out /\ length out = length data.
Proof.
  intros Hlen [H2 Hn].
  destruct (data_variance_of_defined data n Hlen H2) as (dv & Hdv).
  destruct (data_variance_of_length data dv n Hlen Hn Hdv) as [_ Hl].
  assert (Hs := split_length data n Hlen).
  destruct (smoother_merge_defined (split data) dv n Hs Hl)
    as (bayes & out & Hb & Ho & Hol).
  exists out. unfold fabada1x. rewrite Hdv, Hb. split; [exact Ho|lia].
Qed.

(** A block of fewer than four samples raises: a channel of fewer than two
    samples has no [c[1]] (or no [c[0]]) for the edge estimates of lines
    78-81. *)
Theorem fabada1x_short_block_raises (data : list T) :
  (length data < 4)%nat -> fabada1x data = None.
Proof.
  intros Hlen. unfold fabada1x, data_variance_of.
  rewrite (pad_none (dright_of _)).
  - now destruct (pad (dleft_of _)).
  - unfold dright_of. rewrite stride2_tl_length, length_map.
    destruct data as [|a [|b [|c [|d l]]]]; simpl in *; lia.
Qed.

(** A block with an odd number of samples raises: if no earlier step has
    failed, the estimate of the concatenated channels cannot be split into
    two halves of one length at line 182. *)
Theorem fabada1x_odd_block_raises (data : list T) :
  Nat.odd (length data) = true -> fabada1x data = None.
Proof.
  intros Hodd. unfold fabada1x.
  destruct (data_variance_of data) as [dv|]; [|reflexivity].
  destruct (smoother (split data) dv) as [bayes|] eqn:Hb; [|reflexivity].
  apply merge_odd. now rewrite (smoother_length _ _ _ Hb), split_length_any.
Qed.

(** A block of more than [2 * 32768] samples raises: the variance array,
    cut to 32768 values a channel, is shorter than the data array it is
    combined with. *)
Theorem fabada1x_long_block_raises (data : list T) :
  (2 * residues_len < length data)%nat -> fabada1x data = None.
Proof.
  intros Hlen. unfold fabada1x.
  destruct (data_variance_of data) as [dv|] eqn:Hdv; [|reflexivity].
  destruct (data_variance_of_inv _ _ Hdv) as (pl & pr & Hpl & Hpr & ->).
  unfold smoother.
  replace (_ =? _)%nat with false; [reflexivity|].
  symmetry. apply Nat.eqb_neq.
  rewrite split_length_any, length_app, !noise_variance_length.
  lia.
Qed.
End BlockShape.

(** ** The run in exact arithmetic: bounds *)

Section RealRun.
Variable pdf : R -> nat -> R.
Local Abbreviation Rops := (R_ops pdf).
Local Open Scope R_scope.

Lemma Rsum_const (b : R) (l : list R) :
  Forall (fun x => x = b) l -> Rsum l = INR (length l) * b.
Proof.
  induction 1 as [|x l -> _ IH]; [simpl; lra|].
  change (Rsum (b :: l)) with (b + Rsum l).
  rewrite IH. change (length (b :: l)) with (S (length l)).
  rewrite S_INR. lra.
Qed.

Lemma Rmean_const (b : R) (l : list R) :
  l <> [] -> Forall (fun x => x = b) l -> Rmean l = b.
Proof.
  intros Hne H. unfold Rmean. rewrite (Rsum_const b l H).
  assert (0 < INR (length l)).
  { destruct l; [congruence|]. apply S_INR_pos. }
  field. lra.
Qed.

(** A channel of equal samples has the variance estimate 0 at its first
    sample. *)
Lemma constant_channel_variance (c : R) (l p : list R) :
  (forall i, (i < length l)%nat -> nth i l 0 = c) ->
  pad (ops := Rops) l = Some p ->
  nth 0 (noise_variance (ops := Rops) p) 0 = 0.
Proof.
  intros Hc Hp. destruct (pad_length _ _ Hp) as [H2 Hl].
  assert (Hpc : forall i, (i < length p)%nat -> nth i p 0 = c).
  { unfold pad in Hp.
    destruct (avar l) as [a|] eqn:Ea; [|discriminate].
    destruct (zvar l) as [z|] eqn:Ez; [|discriminate].
    injection Hp as <-.
    assert (Ha : a = c).
    { unfold avar in Ea. destruct l as [|x [|y l]]; try discriminate.
      simpl in Ea. injection Ea as <-.
      assert (H0 := Hc 0%nat ltac:(simpl; lia)).
      assert (H1 := Hc 1%nat ltac:(simpl; lia)).
      simpl in H0, H1. subst. unfold lit. simpl. lra. }
    assert (Hz : z = c).
    { unfold zvar, nth_back in Ez.
      replace (1 <=? length l)%nat with true in Ez
        by (symmetry; apply Nat.leb_le; lia).
      replace (2 <=? length l)%nat with true in Ez
        by (symmetry; apply Nat.leb_le; lia).
      destruct (nth_error l (length l - 1)) as [z1|] eqn:E1; [|discriminate].
      destruct (nth_error l (length l - 2)) as [z2|] eqn:E2; [|discriminate].
      injection Ez as <-.
      apply (nth_error_nth _ _ 0) in E1. apply (nth_error_nth _ _ 0) in E2.
      rewrite Hc in E1 by lia. rewrite Hc in E2 by lia.
      subst. unfold lit. simpl. lra. }
    subst a z. intros i Hi. destruct i as [|i]; [reflexivity|].
    simpl. simpl in Hi. rewrite length_app in Hi. simpl in Hi.
    destruct (Nat.lt_ge_cases i (length l)) as [Hlt|Hge].
    - rewrite app_nth1 by exact Hlt. now apply Hc.
    - rewrite app_nth2 by exact Hge.
      replace (i - length l)%nat with 0%nat by lia. reflexivity. }
  set (b := c + c + c / 3).
  assert (Hb : Forall (fun x => x = b) (data_beta (ops := Rops) p)).
  { apply Forall_nth. intros i d Hi. rewrite data_beta_length in Hi.
    rewrite (nth_indep _ d 0) by (rewrite data_beta_length; lia).
    rewrite data_beta_nth by lia. rewrite !Hpc by lia.
    unfold lit. reflexivity. }
  assert (Hne : data_beta (ops := Rops) p <> []).
  { intros E. apply (f_equal (@length R)) in E.
    rewrite data_beta_length in E. simpl in E. lia. }
  unfold noise_variance, scale_residues.
  rewrite (nth_map_lt _ _ _ _ _ 0)
    by (rewrite data_variance_residues_length, data_beta_length;
        unfold residues_len; lia).
  rewrite data_variance_residues_eq.
  rewrite (nth_map_lt _ _ _ _ _ 0)
    by (rewrite length_firstn, data_beta_length; unfold residues_len; lia).
  rewrite np_mean_R, (Rmean_const b _ Hne Hb).
  assert (Hf : nth 0 (firstn residues_len (data_beta (ops := Rops) p)) 0 = b).
  { destruct (data_beta (ops := Rops) p) as [|x t] eqn:E; [congruence|].
    inversion Hb; subst. unfold residues_len.
    replace (Z.to_nat 32768) with (S (Z.to_nat 32767)) by lia. reflexivity. }
  rewrite Hf. cbn [fsub fmul np_abs Rops R_ops].
  replace (b - b) with 0 by lra. rewrite Rabs_R0. lra.
Qed.

(** Either all of the first [i] elements equal the first one, or there is
    a first place where the list leaves that value. *)
Lemma first_step (l : list R) (i : nat) :
  (1 <= i)%nat ->
  (forall j, (j < i)%nat -> nth j l 0 = nth 0 l 0) \/
  exists j, (S j < i)%nat /\
    (forall j', (j' <= j)%nat -> nth j' l 0 = nth 0 l 0) /\
    nth (S j) l 0 <> nth 0 l 0.
Proof.
  induction i as [|i IH]; [lia|]. intros _.
  destruct i as [|i].
  - left. intros j Hj. replace j with 0%nat by lia. reflexivity.
  - destruct (IH ltac:(lia)) as [Hall|(j & Hj & Hbefore & Hstep)].
    + destruct (Req_dec (nth (S i) l 0) (nth 0 l 0)) as [E|N].
      * left. intros j Hj.
        destruct (Nat.eq_dec j (S i)) as [->|]; [exact E|apply Hall; lia].
      * right. exists i. split; [lia|]. split; [|exact N].
        intros j' Hj'. apply Hall. lia.
    + right. exists j. split; [lia|]. now split.
Qed.

(** Where the list leaves its first value, the three-point prior differs
    from the sample. *)
Lemma prior_differs_at_step (l : list R) (j : nat) :
  (S j < length l)%nat ->
  (forall j', (j' <= j)%nat -> nth j' l 0 = nth 0 l 0) ->
  nth (S j) l 0 <> nth 0 l 0 ->
  nth j (meanx_of (ops := Rops) l) 0 <> nth j l 0.
Proof.
  intros Hj Hbefore Hstep. rewrite meanx_of_nth by lia.
  destruct (Nat.eqb_spec j 0) as [->|Hj0].
  - unfold lit. simpl. intros E. apply Hstep. lra.
  - destruct (Nat.eqb_spec (S j) (length l)) as [E|_]; [lia|].
    rewrite (Hbefore j) by lia. rewrite (Hbefore (j - 1)%nat) by lia.
    unfold lit. simpl. intros E. apply Hstep. lra.
Qed.

Lemma R_astype_range (x : R) (lo hi : Z) :
  (-32768 <= lo)%Z -> (hi <= 32767)%Z -> IZR lo <= x <= IZR hi ->
  exists z, R_astype_int16 x = Some z /\ (lo <= z <= hi)%Z.
Proof.
  intros Hlo Hhi [Hl Hh]. unfold R_astype_int16, R_trunc, int16_range.
  assert (Hin : forall z, (lo <= z <= hi)%Z ->
            ((-32768 <=? z)%Z && (z <=? 32767)%Z) = true).
  { intros z Hz. apply andb_true_iff. split; apply Z.leb_le; lia. }
  destruct (Rle_dec 0 x) as [Hx|Hx].
  - destruct (base_Int_part x) as [H1 H2].
    assert (Hz : (lo <= Int_part x <= hi)%Z).
    { split.
      - apply Z.lt_succ_r, lt_IZR. rewrite succ_IZR. lra.
      - apply le_IZR. lra. }
    exists (Int_part x). now rewrite (Hin _ Hz).
  - destruct (base_Int_part (- x)) as [H1 H2].
    assert (Hz : (lo <= - Int_part (- x) <= hi)%Z).
    { split.
      - apply le_IZR. rewrite opp_IZR. lra.
      - apply Z.lt_succ_r, lt_IZR. rewrite succ_IZR, opp_IZR. lra. }
    exists (- Int_part (- x))%Z. now rewrite (Hin _ Hz).
Qed.

Lemma Forall_stride2 (A : Type) (P : A -> Prop) (l : list A) :
  Forall P l -> Forall P (stride2 l).
Proof.
  induction l as [| x | x y l IH] using list_ind2; intros H; simpl; auto.
  inversion H as [|? ? Hx Ht]; subst. inversion Ht; subst.
  constructor; auto.
Qed.

Lemma Forall_interleave (A : Type) (P : A -> Prop) (l r : list A) :
  Forall P l -> Forall P r -> Forall P (interleave l r).
Proof.
  intros Hl; revert r; induction Hl as [|x l Hx _ IH]; intros r Hr;
    [constructor|].
  destruct Hr as [|y r Hy Hr]; simpl; [constructor|].
  repeat constructor; auto.
Qed.

Section Bounded.
Variables data dv : list R.
Hypothesis same_shape : length dv = length data.
Hypothesis two_samples : (2 <= length data)%nat.
Hypothesis variance_pos : Forall (fun v => 0 < v) dv.

Lemma first_chi2_pos (j : nat) :
  (j < length data)%nat ->
  nth j (meanx_of (ops := Rops) data) 0 <> nth j data 0 ->
  0 < chi2_data (iterates (ops := Rops) data dv 1).
Proof.
  intros Hj Hne.
  apply (chi2_pos pdf data dv same_shape two_samples variance_pos 0 j Hj).
  rewrite (mean_S pdf data dv same_shape two_samples variance_pos 0 j Hj).
  change (posterior_mean (iterates (ops := Rops) data dv 0)) with data.
  simpl INR. intros E. apply Hne.
  set (p := nth j (meanx_of (ops := Rops) data) 0) in *.
  set (d := nth j data 0) in *.
  assert (E' : (1 * p + d) / (1 + 1) * 2 = d * 2) by now rewrite E.
  lra.
Qed.

Lemma smoother_within (lo hi : R) :
  Forall (fun x => lo <= x <= hi) data ->
  0 < chi2_data (iterates (ops := Rops) data dv 1) ->
  exists bayes, smoother (ops := Rops) data dv = Some bayes /\
    length bayes = length data /\
    Forall (fun x => lo <= x <= hi) bayes.
Proof.
  intros Hb Hchi.
  destruct (smoother_R_result pdf data dv same_shape two_samples)
    as (K & _ & Hs & Hl).
  eexists. split; [exact Hs|]. split; [exact Hl|].
  apply Forall_nth. intros i d Hi. rewrite Hl in Hi.
  rewrite (nth_indep _ d 0) by lia.
  assert (Hd : lo <= nth i data 0 <= hi)
    by (apply (proj1 (Forall_nth _ data) Hb); exact Hi).
  assert (Hm := mean_bounds pdf data dv same_shape two_samples variance_pos
                  lo hi Hb).
  split.
  - apply (bayes_lower pdf data dv same_shape two_samples variance_pos
             lo i K Hi Hchi); [lra|].
    intros k _. now apply Hm.
  - apply (bayes_upper pdf data dv same_shape two_samples variance_pos
             lo hi Hb hi i K Hi Hchi); [lra|].
    intros k _. now apply Hm.
Qed.
End Bounded.

(** Positive variance estimates: the block is not constant, and the
    [chi2_data] of the first iteration is positive. *)
Lemma block_first_chi2_pos (l dv : list R) (n : nat) :
  length l = (2 * n)%nat -> (n <= residues_len)%nat ->
  data_variance_of (ops := Rops) l = Some dv ->
  Forall (fun v => 0 < v) dv ->
  0 < chi2_data (iterates (ops := Rops) (split (ops := Rops) l) dv 1).
Proof.
  intros Hl Hn Hdv Hpos.
  destruct (data_variance_of_length l dv n Hl Hn Hdv) as [H2 Hdvl].
  assert (Hsl := split_length (ops := Rops) l n Hl).
  assert (Hshape : length dv = length (split (ops := Rops) l)) by lia.
  assert (Htwo : (2 <= length (split (ops := Rops) l))%nat) by lia.
  destruct (first_step (split (ops := Rops) l)
              (length (split (ops := Rops) l)) ltac:(lia))
    as [Hall|(j & Hj & Hbefore & Hstep)].
  - exfalso.
    destruct (data_variance_of_inv _ _ Hdv) as (pl & pr & Hpl & Hpr & E).
    destruct (channels_length (ops := Rops) l n Hl) as [Hcl Hcr].
    assert (Hvl := padded_variance_length _ _ Hpl ltac:(lia)).
    assert (H0 : nth 0 dv 0 = 0).
    { rewrite E, app_nth1 by lia.
      apply (constant_channel_variance
               (nth 0 (split (ops := Rops) l) 0) _ _) with (2 := Hpl).
      intros i Hi. rewrite <- (Hall i) by lia.
      unfold split. now rewrite app_nth1 by lia. }
    assert (H1 : 0 < nth 0 dv 0)
      by (apply (proj1 (Forall_nth _ dv) Hpos); lia).
    lra.
  - apply (first_chi2_pos _ _ Hshape Htwo Hpos j ltac:(lia)).
    now apply prior_differs_at_step.
Qed.

Lemma split_bounds (l : list R) (lo hi : R) :
  Forall (fun x => lo <= x <= hi) l ->
  Forall (fun x => lo <= x <= hi) (split (ops := Rops) l).
Proof.
  intros Hb. rewrite split_R. apply Forall_app.
  split; [now apply Forall_stride2|].
  apply Forall_stride2. destruct l; [constructor|]. now inversion Hb.
Qed.

(** The estimate of a block with positive variance estimates stays
    between bounds of its samples. *)
Lemma block_bayes_within (l dv : list R) (n : nat) (lo hi : R) :
  length l = (2 * n)%nat -> (n <= residues_len)%nat ->
  data_variance_of (ops := Rops) l = Some dv ->
  Forall (fun v => 0 < v) dv ->
  Forall (fun x => lo <= x <= hi) l ->
  exists bayes,
    smoother (ops := Rops) (split (ops := Rops) l) dv = Some bayes /\
    length bayes = (2 * n)%nat /\
    Forall (fun x => lo <= x <= hi) bayes.
Proof.
  intros Hl Hn Hdv Hpos Hb.
  destruct (data_variance_of_length l dv n Hl Hn Hdv) as [H2 Hdvl].
  assert (Hsl := split_length (ops := Rops) l n Hl).
  assert (Hshape : length dv = length (split (ops := Rops) l)) by lia.
  assert (Htwo : (2 <= length (split (ops := Rops) l))%nat) by lia.
  destruct (smoother_within _ _ Hshape Htwo Hpos lo hi
              (split_bounds l lo hi Hb)
              (block_first_chi2_pos l dv n Hl Hn Hdv Hpos))
    as (bayes & Hs & Hbl & Hbb).
  exists bayes. repeat split; auto. lia.
Qed.

End RealRun.

(** ** Gain and offset *)

Section RealGain.
Variable pdf : R -> nat -> R.
Local Abbreviation Rops := (R_ops pdf).
Local Open Scope R_scope.

(** Gain [s] and offset [c] applied to every sample. *)
Variables s c : R.
Local Abbreviation affine := (fun x : R => s * x + c).

Lemma pad_affine (l p : list R) :
  pad (ops := Rops) l = Some p ->
  pad (ops := Rops) (map affine l) = Some (map affine p).
Proof.
  unfold pad, avar, zvar, nth_back. rewrite length_map.
  rewrite !nth_error_map.
  destruct (nth_error l 0) as [c0|]; [|discriminate].
  destruct (nth_error l 1) as [c1|]; [|discriminate].
  destruct (1 <=? length l)%nat; [|discriminate].
  destruct (nth_error l (length l - 1)) as [z1|]; [|discriminate].
  destruct (2 <=? length l)%nat; [|discriminate].
  destruct (nth_error l (length l - 2)) as [z2|]; [|discriminate].
  cbn [option_map]. intros E. injection E as <-.
  cbn [map app]. rewrite map_app. cbn [map].
  unfold lit. cbn [fadd fdiv of_int Rops R_ops].
  f_equal. f_equal; [lra|]. f_equal. f_equal. lra.
Qed.

Lemma data_beta_affine (p : list R) :
  data_beta (ops := Rops) (map affine p)
  = map (fun b => s * b + 7 * c / 3) (data_beta (ops := Rops) p).
Proof.
  apply (nth_ext _ _ 0 0).
  - now rewrite length_map, !data_beta_length, length_map.
  - intros i Hi. rewrite data_beta_length, length_map in Hi.
    rewrite (nth_map_lt _ _ _ _ _ 0) by (rewrite data_beta_length; lia).
    rewrite !data_beta_nth by (rewrite ?length_map; lia).
    rewrite !(nth_map_lt _ _ _ _ _ 0) by lia.
    unfold lit. cbn [fadd fdiv of_int Rops R_ops]. lra.
Qed.

Lemma Rsum_affine (a b : R) (l : list R) :
  Rsum (map (fun x => a * x + b) l) = a * Rsum l + INR (length l) * b.
Proof.
  induction l as [|x l IH]; [simpl; lra|].
  change (Rsum (map (fun x => a * x + b) (x :: l)))
    with (a * x + b + Rsum (map (fun x => a * x + b) l)).
  change (Rsum (x :: l)) with (x + Rsum l).
  change (length (x :: l)) with (S (length l)).
  rewrite IH, S_INR. lra.
Qed.

Lemma Rmean_affine (a b : R) (l : list R) :
  l <> [] ->
  Rmean (map (fun x => a * x + b) l) = a * Rmean l + b.
Proof.
  intros Hne. unfold Rmean. rewrite Rsum_affine, length_map.
  assert (0 < INR (length l)) by (destruct l; [congruence|apply S_INR_pos]).
  field. lra.
Qed.

Lemma residues_affine (beta : list R) :
  beta <> [] ->
  data_variance_residues (ops := Rops)
    (map (fun b => s * b + 7 * c / 3) beta)
  = map (fun r => Rabs s * r + 0) (data_variance_residues (ops := Rops) beta).
Proof.
  intros Hne. rewrite !data_variance_residues_eq, firstn_map, !map_map.
  rewrite !np_mean_R, Rmean_affine by exact Hne.
  apply map_ext. intros b. cbn [fsub np_abs Rops R_ops].
  replace (s * b + 7 * c / 3 - (s * Rmean beta + 7 * c / 3))
    with (s * (b - Rmean beta)) by lra.
  rewrite Rabs_mult. lra.
Qed.

Lemma Rpop_variance_scale (a : R) (l : list R) :
  l <> [] ->
  Rpop_variance (map (fun r => a * r + 0) l) = a * a * Rpop_variance l.
Proof.
  intros Hne. unfold Rpop_variance.
  rewrite Rmean_affine by exact Hne. rewrite map_map.
  rewrite (map_ext _ (fun x => a * a * (x - Rmean l) ^ 2 + 0))
    by (intros x; ring).
  rewrite <- (map_map (fun x => (x - Rmean l) ^ 2)
                      (fun y => a * a * y + 0)).
  rewrite Rmean_affine; [lra|].
  intros E. apply Hne. now apply map_eq_nil in E.
Qed.

(** The variance estimate of a channel under gain and offset. *)
Lemma noise_variance_affine (p : list R) :
  (3 <= length p)%nat ->
  noise_variance (ops := Rops) (map affine p)
  = map (fun v => Rabs s * Rabs s * Rabs s * v)
        (noise_variance (ops := Rops) p).
Proof.
  intros Hp. unfold noise_variance.
  assert (Hb : data_beta (ops := Rops) p <> []).
  { intros E. apply (f_equal (@length R)) in E.
    rewrite data_beta_length in E. simpl in E. lia. }
  assert (Hr : data_variance_residues (ops := Rops)
                 (data_beta (ops := Rops) p) <> []).
  { intros E. apply (f_equal (@length R)) in E.
    rewrite data_variance_residues_length, data_beta_length in E.
    unfold residues_len in E. simpl length in E. lia. }
  rewrite data_beta_affine, residues_affine by exact Hb.
  unfold scale_residues. rewrite !np_var_R, Rpop_variance_scale by exact Hr.
  rewrite !map_map. apply map_ext. intros r.
  cbn [fmul Rops R_ops]. ring.
Qed.

(** Lines 78-110 under gain and offset: the offset does not enter the
    variance estimate, and the gain enters with its third power. *)
Lemma data_variance_of_affine (block dv : list R) :
  data_variance_of (ops := Rops) block = Some dv ->
  data_variance_of (ops := Rops) (map affine block)
  = Some (map (fun v => Rabs s * Rabs s * Rabs s * v) dv).
Proof.
  intros Hdv.
  destruct (data_variance_of_inv _ _ Hdv) as (pl & pr & Hpl & Hpr & ->).
  unfold dleft_of, dright_of in Hpl, Hpr. rewrite scale1_R in Hpl, Hpr.
  destruct (pad_length _ _ Hpl) as [Hl2 Hll].
  destruct (pad_length _ _ Hpr) as [Hr2 Hrl].
  rewrite (data_variance_of_R pdf (map affine block)
             (map affine pl) (map affine pr)).
  - rewrite !noise_variance_affine by lia. now rewrite map_app.
  - rewrite stride2_map. now apply pad_affine.
  - replace (tl (map affine block)) with (map affine (tl block))
      by now destruct block.
    rewrite stride2_map. now apply pad_affine.
Qed.
End RealGain.

Section TestFields.
Context {T : Type} {ops : NumOps T}.
Variables data data_variance : list T.
Local Abbreviation its := (iterates data data_variance).

Lemma iterates_chi2_pdf k :
  chi2_pdf (its (S k))
  = scipy_chi2_pdf (chi2_data (its (S k))) (length data).
Proof. reflexivity. Qed.

Lemma iterates_chi2_pdf_derivative k :
  chi2_pdf_derivative (its (S k))
  = fsub (chi2_pdf (its (S k))) (chi2_pdf (its k)).
Proof. reflexivity. Qed.

(** The test of iteration [k + 1], in the variables of the loop. *)
Lemma stops_at_fields k :
  stops_at data data_variance (S k)
  = ((flt (size_of data) (chi2_data (its (S k)))
      && fle (lit 0)
           (fsub (fsub (chi2_pdf (its (S k))) (chi2_pdf (its k)))
                 (chi2_pdf_derivative (its k))))
     && flt (fsub (np_mean (evidence (its (S k))))
                  (np_mean (evidence (its k))))
            (lit 0)
     || (max_iter <? S k)%nat).
Proof.
  unfold stops_at, stop_test. rewrite iterates_iteration. reflexivity.
Qed.
End TestFields.

Section RealSymmetry.
Variable pdf : R -> nat -> R.
Local Abbreviation Rops := (R_ops pdf).
Local Open Scope R_scope.
Variables s c : R.
Hypothesis unit_gain : s * s = 1.
Local Abbreviation affine := (fun x : R => s * x + c).

Variables data data_variance : list R.
Hypothesis same_shape : length data_variance = length data.
Hypothesis two_samples : (2 <= length data)%nat.
Hypothesis variance_pos : Forall (fun v => 0 < v) data_variance.

Local Abbreviation its := (iterates (ops := Rops) data data_variance).
Local Abbreviation its' :=
  (iterates (ops := Rops) (map affine data) data_variance).

Lemma same_shape' : length data_variance = length (map affine data).
Proof. now rewrite length_map. Qed.

Lemma two_samples' : (2 <= length (map affine data))%nat.
Proof. now rewrite length_map. Qed.

Lemma meanx_affine (pm : list R) :
  (2 <= length pm)%nat ->
  meanx_of (ops := Rops) (map affine pm)
  = map affine (meanx_of (ops := Rops) pm).
Proof.
  intros H2. apply (nth_ext _ _ 0 0).
  - now rewrite length_map, !meanx_of_length, length_map.
  - intros i Hi. rewrite meanx_of_length, length_map in Hi.
    rewrite (nth_map_lt _ _ _ _ _ 0) by (rewrite meanx_of_length; lia).
    rewrite !meanx_of_nth by (rewrite ?length_map; lia).
    rewrite length_map.
    destruct (Nat.eqb_spec i 0) as [E0|N0].
    + rewrite !(nth_map_lt _ _ _ _ _ 0) by lia. unfold lit; simpl; lra.
    + destruct (Nat.eqb_spec (S i) (length pm)) as [E|N].
      * rewrite !(nth_map_lt _ _ _ _ _ 0) by lia. unfold lit; simpl; lra.
      * rewrite !(nth_map_lt _ _ _ _ _ 0) by lia. unfold lit; simpl; lra.
Qed.

Lemma mean_affine k :
  posterior_mean (its' k) = map affine (posterior_mean (its k)).
Proof.
  induction k as [|k IH]; [reflexivity|].
  rewrite (posterior_mean_S pdf _ _ same_shape' two_samples' variance_pos).
  rewrite (posterior_mean_S pdf _ _ same_shape two_samples variance_pos).
  destruct (iterates_shaped (ops := Rops) data data_variance same_shape k)
    as (Hm & _).
  rewrite IH, meanx_affine by lia.
  assert (Hx := meanx_of_length (ops := Rops) (posterior_mean (its k))).
  pose proof (S_INR_pos k) as Hk.
  apply (nth_ext _ _ 0 0).
  - rewrite length_map, !map2_length, !length_map. reflexivity.
  - intros i Hi. rewrite map2_length, !length_map in Hi.
    rewrite (nth_map_lt _ _ _ _ _ 0) by (rewrite map2_length; lia).
    rewrite !(map2_nth _ _ _ _ _ _ i 0 0 0) by (rewrite ?length_map; lia).
    rewrite !(nth_map_lt _ _ _ _ _ 0) by lia.
    field. lra.
Qed.

Lemma variance_same k :
  posterior_variance (its' k) = posterior_variance (its k).
Proof.
  induction k as [|k IH]; [reflexivity|].
  rewrite !iterates_S, !iterate_posterior_variance. now rewrite IH.
Qed.

Lemma sq_diff_affine (a b : list R) :
  map (sq (ops := Rops)) (map2 (@fsub R Rops) (map affine a) (map affine b))
  = map (sq (ops := Rops)) (map2 (@fsub R Rops) a b).
Proof.
  revert b; induction a as [|x a IH]; intros [|y b]; simpl; auto.
  rewrite IH. f_equal. unfold sq. simpl.
  replace ((s * x + c - (s * y + c)) * (s * x + c - (s * y + c)))
    with (s * s * ((x - y) * (x - y))) by ring.
  rewrite unit_gain. ring.
Qed.

Lemma evidence_same k : evidence (its' k) = evidence (its k).
Proof.
  destruct k as [|k]; [reflexivity|].
  destruct (iterates_shaped (ops := Rops) data data_variance same_shape k)
    as (Hm & _).
  rewrite !iterates_S, !iterate_evidence.
  rewrite mean_affine, variance_same, meanx_affine by lia.
  now rewrite sq_diff_affine.
Qed.

Lemma chi2_same k : chi2_data (its' k) = chi2_data (its k).
Proof.
  destruct k as [|k].
  - change (size_of (ops := Rops) (map affine data)
            = size_of (ops := Rops) data).
    unfold size_of. now rewrite length_map.
  - rewrite !iterates_S, !iterate_chi2_data, <- !iterates_S.
    now rewrite mean_affine, sq_diff_affine.
Qed.

Lemma chi2_pdf_same k : chi2_pdf (its' k) = chi2_pdf (its k).
Proof.
  destruct k as [|k]; [reflexivity|].
  now rewrite !iterates_chi2_pdf, chi2_same, length_map.
Qed.

Lemma chi2_pdf_derivative_same k :
  chi2_pdf_derivative (its' k) = chi2_pdf_derivative (its k).
Proof.
  destruct k as [|k]; [reflexivity|].
  now rewrite !iterates_chi2_pdf_derivative, !chi2_pdf_same.
Qed.

Lemma stops_at_same k :
  stops_at (ops := Rops) (map affine data) data_variance (S k)
  = stops_at (ops := Rops) data data_variance (S k).
Proof.
  rewrite !stops_at_fields.
  rewrite !chi2_same, !chi2_pdf_same, !chi2_pdf_derivative_same,
    !evidence_same.
  unfold size_of. now rewrite length_map.
Qed.

Lemma weight_same k i :
  (i < length data)%nat ->
  nth i (bayesian_weight (its' k)) 0 = nth i (bayesian_weight (its k)) 0.
Proof.
  intros Hi. induction k as [|k IH].
  - destruct (acc_0 pdf _ _ same_shape' two_samples' i
                ltac:(now rewrite length_map)) as [-> _].
    now destruct (acc_0 pdf _ _ same_shape two_samples i Hi) as [-> _].
  - rewrite (bw_S pdf _ _ same_shape' two_samples' k i)
      by now rewrite length_map.
    rewrite (bw_S pdf _ _ same_shape two_samples k i Hi).
    now rewrite IH, evidence_same, chi2_same.
Qed.

Lemma model_affine k i :
  (i < length data)%nat ->
  nth i (bayesian_model (its' k)) 0
  = s * nth i (bayesian_model (its k)) 0
    + c * nth i (bayesian_weight (its k)) 0.
Proof.
  intros Hi. induction k as [|k IH].
  - destruct (acc_0 pdf _ _ same_shape' two_samples' i
                ltac:(now rewrite length_map)) as [_ ->].
    destruct (acc_0 pdf _ _ same_shape two_samples i Hi) as [-> ->]. lra.
  - destruct (iterates_shaped (ops := Rops) data data_variance same_shape
                (S k)) as (Hm & _).
    rewrite (bm_S pdf _ _ same_shape' two_samples' k i)
      by now rewrite length_map.
    rewrite (bm_S pdf _ _ same_shape two_samples k i Hi).
    rewrite (bw_S pdf _ _ same_shape two_samples k i Hi).
    rewrite IH, evidence_same, chi2_same, mean_affine.
    rewrite (nth_map_lt _ _ _ _ _ 0) by lia. ring.
Qed.

Lemma weight_acc_nonneg k i :
  (i < length data)%nat -> 0 <= nth i (bayesian_weight (its k)) 0.
Proof.
  intros Hi. induction k as [|k IH].
  - destruct (acc_0 pdf _ _ same_shape two_samples i Hi) as [-> _]. lra.
  - rewrite (bw_S pdf _ _ same_shape two_samples k i Hi).
    pose proof (weight_nonneg pdf _ _ same_shape two_samples variance_pos
                  k i Hi). lra.
Qed.

(** Gain [+1] or [-1] and any offset pass through the smoother. *)
Lemma smoother_affine :
  0 < chi2_data (its 1) ->
  exists bayes,
    smoother (ops := Rops) data data_variance = Some bayes /\
    smoother (ops := Rops) (map affine data) data_variance
    = Some (map affine bayes).
Proof.
  intros Hchi.
  destruct (loop_result (ops := Rops) data data_variance)
    as (K & HK & Hw & Hstop & Hfirst).
  destruct (loop_result (ops := Rops) (map affine data) data_variance)
    as (K' & HK' & Hw' & Hstop' & Hfirst').
  assert (EK : K' = K).
  { apply (first_stop_unique (ops := Rops) data data_variance K' K);
      try lia; auto.
    - destruct K' as [|K0]; [lia|]. now rewrite <- stops_at_same.
    - intros j Hj. destruct j as [|j0]; [lia|].
      rewrite <- stops_at_same. apply Hfirst'. lia. }
  subst K'. destruct K as [|K]; [lia|].
  eexists. unfold smoother.
  rewrite length_map, same_shape, Nat.eqb_refl, Hw, Hw'.
  split; [reflexivity|]. cbn [option_map]. f_equal.
  assert (Hl : length (bayes_of (ops := Rops)
                 (combine_iteration_zero (ops := Rops) data data_variance
                    (its (S K)))) = length data).
  { destruct (combine_iteration_zero_shaped (ops := Rops) data data_variance
                same_shape (its (S K))
                (iterates_shaped (ops := Rops) data data_variance
                   same_shape (S K)))
      as (_ & _ & _ & Hbw & Hbm).
    unfold bayes_of. rewrite map2_length. lia. }
  assert (Hl' : length (bayes_of (ops := Rops)
                 (combine_iteration_zero (ops := Rops) (map affine data)
                    data_variance (its' (S K)))) = length data).
  { destruct (combine_iteration_zero_shaped (ops := Rops) (map affine data)
                data_variance same_shape' (its' (S K))
                (iterates_shaped (ops := Rops) (map affine data)
                   data_variance same_shape' (S K)))
      as (_ & _ & _ & Hbw & Hbm).
    unfold bayes_of. rewrite map2_length. rewrite length_map in *. lia. }
  apply (nth_ext _ _ 0 0); [rewrite length_map; lia|].
  intros i Hi. rewrite Hl' in Hi.
  rewrite (nth_map_lt _ _ _ _ _ 0) by lia.
  rewrite (bayes_nth pdf _ _ same_shape' two_samples' K i)
    by now rewrite length_map.
  rewrite (bayes_nth pdf _ _ same_shape two_samples K i Hi).
  rewrite model_affine, weight_same, chi2_same by exact Hi.
  rewrite (nth_map_lt _ _ _ _ _ 0) by lia.
  pose proof (weight_acc_nonneg (S K) i Hi) as Hw0.
  pose proof (w0_pos pdf _ _ same_shape two_samples variance_pos i Hi Hchi)
    as Hw1.
  field. lra.
Qed.
End RealSymmetry.

(** ** binary64: zeros *)

Ltac sf_destruct x :=
  destruct (Prim2SF x) as [[|]|[|]| |[|] ? ?].

Section F64Zero.
Local Open Scope float_scope.

Lemma zero_div (y : float) : f64_zero_or_nan (0 / y) = true.
Proof.
  unfold f64_zero_or_nan. rewrite div_spec.
  change (Prim2SF 0) with (S754_zero false). sf_destruct y; reflexivity.
Qed.

Lemma zero_sub (x : float) :
  f64_zero_or_nan x = true -> f64_zero_or_nan (0 - x) = true.
Proof.
  unfold f64_zero_or_nan. rewrite sub_spec.
  change (Prim2SF 0) with (S754_zero false).
  sf_destruct x; try discriminate; reflexivity.
Qed.

Lemma zero_abs (x : float) :
  f64_zero_or_nan x = true -> f64_zero_or_nan (abs x) = true.
Proof.
  unfold f64_zero_or_nan. rewrite abs_spec.
  sf_destruct x; try discriminate; reflexivity.
Qed.

Lemma zero_mul (x v : float) :
  f64_zero_or_nan x = true -> f64_degenerate (x * v) = true.
Proof.
  unfold f64_zero_or_nan, f64_degenerate. rewrite mul_spec.
  sf_destruct x; try discriminate; intros _; sf_destruct v; reflexivity.
Qed.

Lemma ltb_nan_r (x : float) : (x <? nan) = false.
Proof.
  rewrite ltb_spec. change (Prim2SF nan) with S754_nan.
  sf_destruct x; reflexivity.
Qed.
End F64Zero.

Section F64Silence.
Variable exp64 : float -> float.
Variable pdf : float -> nat -> float.
Local Abbreviation Fops := (F64_ops exp64 pdf).
Local Open Scope float_scope.

Local Abbreviation zeros := (Forall (fun x : float => x = 0)).

Lemma zeros_nth (l : list float) i : zeros l -> (i < length l)%nat -> nth i l 0 = 0.
Proof.
  intros H Hi. exact (proj1 (Forall_nth _ l) H i 0 Hi).
Qed.

Lemma pad_zeros (c p : list float) :
  zeros c -> pad (ops := Fops) c = Some p -> zeros p.
Proof.
  intros Hc Hp. unfold pad in Hp.
  destruct (avar c) as [a|] eqn:Ea; [|discriminate].
  destruct (zvar c) as [z|] eqn:Ez; [|discriminate].
  injection Hp as <-.
  assert (Hin : forall i x, nth_error c i = Some x -> x = 0).
  { intros i x E. apply nth_error_In in E.
    exact (proj1 (Forall_forall _ c) Hc x E). }
  assert (Ha : a = 0).
  { unfold avar in Ea.
    destruct (nth_error c 0) as [c0|] eqn:E0; [|discriminate].
    destruct (nth_error c 1) as [c1|] eqn:E1; [|discriminate].
    injection Ea as <-. rewrite (Hin _ _ E0), (Hin _ _ E1). reflexivity. }
  assert (Hz : z = 0).
  { unfold zvar, nth_back in Ez.
    destruct (1 <=? length c)%nat; [|discriminate].
    destruct (nth_error c (length c - 1)) as [z1|] eqn:E1; [|discriminate].
    destruct (2 <=? length c)%nat; [|discriminate].
    destruct (nth_error c (length c - 2)) as [z2|] eqn:E2; [|discriminate].
    injection Ez as <-. rewrite (Hin _ _ E1), (Hin _ _ E2). reflexivity. }
  subst a z. constructor; [reflexivity|].
  apply Forall_app. split; [exact Hc|]. now constructor.
Qed.

Lemma data_beta_zeros (p : list float) :
  zeros p -> zeros (data_beta (ops := Fops) p).
Proof.
  intros Hp. apply Forall_nth. intros i d Hi. rewrite data_beta_length in Hi.
  rewrite (nth_indep _ d 0) by (rewrite data_beta_length; lia).
  rewrite data_beta_nth by lia. rewrite !zeros_nth by (auto; lia).
  reflexivity.
Qed.

Lemma np_sum_zeros (l : list float) : zeros l -> np_sum (ops := Fops) l = 0.
Proof.
  unfold np_sum. change (lit (ops := Fops) 0) with 0.
  induction 1 as [|x l -> _ IH]; [reflexivity|exact IH].
Qed.

(** The variance estimate of a silent channel is zero or NaN at its first
    sample. *)
Lemma silent_channel_variance (c p : list float) :
  zeros c -> pad (ops := Fops) c = Some p ->
  f64_degenerate (nth 0 (noise_variance (ops := Fops) p) nan) = true.
Proof.
  intros Hc Hp. destruct (pad_length _ _ Hp) as [H2 Hl].
  assert (Hb := data_beta_zeros p (pad_zeros c p Hc Hp)).
  assert (Hbl := data_beta_length (ops := Fops) p).
  unfold noise_variance, scale_residues.
  rewrite (nth_map_lt _ _ _ _ _ 0)
    by (rewrite data_variance_residues_length; unfold residues_len; lia).
  apply zero_mul.
  rewrite data_variance_residues_eq.
  rewrite (nth_map_lt _ _ _ _ _ 0)
    by (rewrite length_firstn; unfold residues_len; lia).
  assert (Hf : nth 0 (firstn residues_len (data_beta (ops := Fops) p)) 0 = 0).
  { destruct (data_beta (ops := Fops) p) as [|x t] eqn:E;
      [simpl in Hbl; lia|].
    inversion Hb; subst. unfold residues_len.
    replace (Z.to_nat 32768) with (S (Z.to_nat 32767)) by lia. reflexivity. }
  rewrite Hf. unfold np_mean. rewrite (np_sum_zeros _ Hb).
  cbn [fsub fdiv np_abs Fops F64_ops].
  apply zero_abs, zero_sub, zero_div.
Qed.

Lemma channel_zeros (right : bool) (block : list Z) :
  Forall (fun z => z = 0%Z) (channel_of right block) ->
  zeros (channel_of right
           (map (fun x => @fdiv float Fops x (@lit float Fops 1))
                (map (@of_int float Fops) block))).
Proof.
  intros H. rewrite map_map.
  assert (E : channel_of right (map (fun z => @fdiv float Fops (@of_int float Fops z) (@lit float Fops 1)) block)
              = map (fun z => @fdiv float Fops (@of_int float Fops z) (@lit float Fops 1))
                    (channel_of right block)).
  { unfold channel_of. destruct right; [|apply stride2_map].
    rewrite <- stride2_map. now destruct block. }
  rewrite E. apply Forall_map. revert H. apply Forall_impl.
  intros z ->. reflexivity.
Qed.

(** Digital silence on one channel: in binary64, a block of [2n] int16
    samples, [2 <= n <= 32768], whose left or right channel is all zero
    comes back with no defined sample at all, whatever the other channel
    holds. *)
Theorem silent_channel_block_undefined (block : list Z) (n : nat)
    (right : bool) :
  length block = (2 * n)%nat -> (2 <= n <= residues_len)%nat ->
  Forall (fun z => z = 0%Z) (channel_of right block) ->
  stream_write (ops := Fops) block = Some (repeat None (2 * n)).
Proof.
  intros Hlen [H2 Hn] Hsilent. unfold stream_write.
  set (data := map (@of_int float Fops) block).
  assert (Hdl : length data = (2 * n)%nat)
    by (unfold data; now rewrite length_map).
  destruct (data_variance_of_defined (ops := Fops) data n Hdl H2)
    as (dv & Hdv).
  destruct (data_variance_of_inv _ _ Hdv) as (pl & pr & Hpl & Hpr & E).
  destruct (channels_length (ops := Fops) data n Hdl) as [Hcl Hcr].
  assert (Hvl := padded_variance_length _ _ Hpl ltac:(lia)).
  assert (Hvr := padded_variance_length _ _ Hpr ltac:(lia)).
  assert (Hz := channel_zeros right block Hsilent). fold data in Hz.
  destruct right.
  - apply (fabada1x_poisoned exp64 pdf data dv n n Hdl Hn Hdv ltac:(lia)).
    rewrite E, app_nth2 by lia.
    replace (n - length (noise_variance (ops := Fops) pl))%nat with 0%nat by lia.
    exact (silent_channel_variance _ _ Hz Hpr).
  - apply (fabada1x_poisoned exp64 pdf data dv n 0 Hdl Hn Hdv ltac:(lia)).
    rewrite E, app_nth1 by lia.
    exact (silent_channel_variance _ _ Hz Hpl).
Qed.
End F64Silence.

Section F64Cap.
Variable exp64 : float -> float.
Variable pdf : float -> nat -> float.
Local Abbreviation Fops := (F64_ops exp64 pdf).
Variables data data_variance : list float.
Hypothesis same_shape : length data_variance = length data.
Hypothesis two_samples : (2 <= length data)%nat.
Variable j : nat.
Hypothesis j_in : (j < length data)%nat.
Hypothesis j_degenerate : f64_degenerate (nth j data_variance nan) = true.

Local Abbreviation its := (iterates (ops := Fops) data data_variance).

(** A NaN in the posterior mean stays: the prior of its own place is NaN. *)
Lemma meanx_nan (pm : list float) :
  length pm = length data -> nth j pm nan = nan ->
  nth j (meanx_of (ops := Fops) pm) nan = nan.
Proof.
  intros Hl Hj. rewrite meanx_of_nth by lia.
  destruct (j =? 0)%nat eqn:E0.
  - apply Nat.eqb_eq in E0. rewrite E0 in Hj. rewrite Hj.
    cbn [fadd fdiv Fops F64_ops]. now rewrite add_nan_l, div_nan_l.
  - rewrite Hj. cbn [fadd fdiv Fops F64_ops].
    destruct (S j =? length pm)%nat;
      now rewrite ?add_nan_l, div_nan_l.
Qed.

Lemma posterior_mean_nan k :
  nth j (posterior_mean (its (S k))) nan = nan.
Proof.
  induction k as [|k IH];
    [exact (first_posterior_mean_nan exp64 pdf data data_variance same_shape
              j j_in j_degenerate)|].
  assert (Hsh := iterates_shaped (ops := Fops) data data_variance
                   same_shape (S k)).
  rewrite (iterates_S data data_variance (S k)).
  rewrite iterate_posterior_mean_nth; [|exact same_shape|exact Hsh|exact j_in].
  rewrite meanx_nan; [|apply Hsh|exact IH].
  cbn [fadd fdiv fmul Fops F64_ops].
  now rewrite div_nan_l, add_nan_l, mul_nan_l.
Qed.

Lemma chi2_data_nan k : chi2_data (its (S k)) = nan.
Proof.
  assert (Hpm := posterior_mean_nan k).
  destruct (iterates_shaped (ops := Fops) data data_variance same_shape (S k))
    as (Hlm & _).
  rewrite (iterates_S data data_variance k) in *. rewrite iterate_chi2_data.
  apply np_sum_nan.
  set (terms := map2 fdiv _ _).
  assert (Hlen : (j < length terms)%nat).
  { unfold terms. rewrite map2_length, length_map, map2_length. lia. }
  replace nan with (nth j terms nan) at 1; [now apply nth_In|].
  unfold terms. rewrite chi2_term_nth by assumption.
  rewrite Hpm. unfold sq. simpl. now rewrite sub_nan_r, mul_nan_l, div_nan_l.
Qed.

Lemma never_converges_early k :
  (1 <= k <= max_iter)%nat -> stops_at (ops := Fops) data data_variance k = false.
Proof.
  intros [H1 Hk]. destruct k as [|k]; [lia|].
  unfold stops_at, stop_test. rewrite chi2_data_nan, iterates_iteration.
  cbn [flt Fops F64_ops]. rewrite ltb_nan_r. simpl andb.
  apply Nat.ltb_ge. lia.
Qed.

(** The loop runs to the cap: its result is the 129th iterate. *)
Lemma runs_to_cap :
  while_not_converged (ops := Fops) data data_variance (S max_iter)
    (initial_state (ops := Fops) data data_variance)
  = Some (combine_iteration_zero (ops := Fops) data data_variance
            (its (S max_iter))).
Proof.
  destruct (loop_result (ops := Fops) data data_variance)
    as (K & HK & Hw & Hs & _).
  destruct (Nat.eq_dec K (S max_iter)) as [->|Hne]; [exact Hw|].
  rewrite never_converges_early in Hs by lia. discriminate.
Qed.
End F64Cap.

(** ** The device table *)

Module DeviceFacts.
Import Stdlib.Strings.String.
Import Devices.
Local Open Scope string_scope.

Lemma prefix_spec (k s : string) :
  prefix k s = true <-> exists b, s = k ++ b.
Proof.
  revert s; induction k as [|a k IH]; intros s.
  - split; [intros _; now exists s|intros _; now destruct s].
  - destruct s as [|c s]; simpl.
    + split; [discriminate|intros (b & Hb); discriminate].
    + destruct (Ascii.ascii_dec a c) as [->|Hne].
      * rewrite IH. split; intros (b & Hb); exists b; [now rewrite Hb|].
        now injection Hb.
      * split; [discriminate|intros (b & Hb)]. injection Hb as E _.
        now subst.
Qed.

(** [contains] is Python's substring test. *)
Lemma contains_spec (k s : string) :
  contains k s = true <-> exists a b, s = a ++ k ++ b.
Proof.
  induction s as [|c s IH].
  - cbn [contains]. rewrite orb_false_r, prefix_spec. split.
    + intros (b & Hb). now exists EmptyString, b.
    + intros (a & b & Hab). destruct a as [|x a]; [now exists b|discriminate].
  - cbn [contains]. rewrite orb_true_iff, prefix_spec, IH. split.
    + intros [(b & Hb)|(a & b & Hab)].
      * now exists EmptyString, b.
      * exists (String c a), b. simpl. now rewrite Hab.
    + intros (a & b & Hab). destruct a as [|x a].
      * left. now exists b.
      * right. injection Hab as _ Hab. now exists a, b.
Qed.

Section ScanFacts.
Variable lower : string -> string.
Variable channels_of : devinfo -> Z.
Variable found : nat -> devinfo -> string.

(** The body of the loop over the device table, as both scans write it. *)
Let step (acc : scan) (idev : nat * devinfo) : scan :=
  let '(i, devinfo) := idev in
  if (channels_of devinfo =? 2)%Z then
    fold_left
      (fun (acc : scan) (keyword : string) =>
         let '(device_index, index, out) := acc in
         if contains keyword (lower (name devinfo)) then
           (Some i, i, List.app out [found i devinfo])
         else acc)
      ["microsoft"] acc
  else acc.

Lemma preferred_dec (d : devinfo) :
  {preferred lower channels_of d} + {~ preferred lower channels_of d}.
Proof.
  unfold preferred.
  destruct (Z.eq_dec (channels_of d) 2) as [E|N]; [|right; tauto].
  destruct (contains "microsoft" (lower (name d))) eqn:C.
  - left. split; [exact E|]. now apply contains_spec.
  - right. intros [_ H]. apply contains_spec in H. congruence.
Qed.

Lemma step_preferred (acc : scan) i d :
  preferred lower channels_of d ->
  exists out, step acc (i, d) = (Some i, i, out).
Proof.
  intros [E H]. apply contains_spec in H. unfold step.
  apply Z.eqb_eq in E. rewrite E. cbn [fold_left].
  destruct acc as [[di idx] out]. rewrite H. eauto.
Qed.

Lemma step_other (acc : scan) i d :
  ~ preferred lower channels_of d -> step acc (i, d) = acc.
Proof.
  intros N. unfold step.
  destruct (Z.eqb_spec (channels_of d) 2) as [E|_]; [|reflexivity].
  cbn [fold_left]. destruct acc as [[di idx] out].
  destruct (contains "microsoft" (lower (name d))) eqn:C; [|reflexivity].
  exfalso. apply N. split; [exact E|]. now apply contains_spec.
Qed.

Lemma scan_none (l : list devinfo) : forall s acc,
  Forall (fun d => ~ preferred lower channels_of d) l ->
  fold_left step (combine (seq s (List.length l)) l) acc = acc.
Proof.
  induction l as [|d l IH]; intros s acc H; [reflexivity|].
  inversion H as [|? ? Hd Hl]; subst. cbn [List.length seq combine fold_left].
  rewrite step_other by exact Hd. now apply IH.
Qed.

Lemma scan_last (l : list devinfo) : forall s acc i d,
  nth_error l i = Some d ->
  preferred lower channels_of d ->
  (forall j d', (i < j)%nat -> nth_error l j = Some d' ->
                ~ preferred lower channels_of d') ->
  exists out,
    fold_left step (combine (seq s (List.length l)) l) acc
    = (Some (s + i)%nat, (s + i)%nat, out).
Proof.
  induction l as [|x l IH]; intros s acc i d Hi Hd Hlater;
    [destruct i; discriminate|].
  cbn [List.length seq combine fold_left].
  destruct i as [|i].
  - injection Hi as ->.
    destruct (step_preferred acc s d Hd) as (out & ->).
    exists out. rewrite scan_none; [now rewrite Nat.add_0_r|].
    apply Forall_forall. intros d' Hin.
    apply In_nth_error in Hin. destruct Hin as (j & Hj).
    apply (Hlater (S j) d'); [lia|exact Hj].
  - destruct (IH (S s) (step acc (s, x)) i d Hi Hd) as (out & ->).
    + intros j d' Hj Hn. apply (Hlater (S j) d'); [lia|exact Hn].
    + exists out. now replace (S s + i)%nat with (s + S i)%nat by lia.
Qed.
End ScanFacts.
End DeviceFacts.

(** ** Reading the capture buffer *)

Section DecodeFacts.

Lemma int16_of_bytes_range order b0 b1 :
  int16_range (int16_of_bytes order b0 b1) = true.
Proof.
  unfold int16_of_bytes, int16_range.
  assert (H0 := Byte.to_N_bounded b0). assert (H1 := Byte.to_N_bounded b1).
  destruct order;
    match goal with
    | |- context [(?u <? 32768)%Z] =>
        destruct (Z.ltb_spec u 32768);
          apply andb_true_iff; split; apply Z.leb_le; lia
    end.
Qed.

Lemma ndarray_int16_some order n : forall buffer,
  (2 * n <= length buffer)%nat ->
  exists row, ndarray_int16 order n buffer = Some row /\
    length row = n /\
    (forall i, (i < n)%nat ->
       nth i row 0%Z
       = int16_of_bytes order (nth (2 * i) buffer x00)
                              (nth (2 * i + 1) buffer x00)) /\
    Forall (fun z => int16_range z = true) row.
Proof.
  induction n as [|n IH]; intros buffer Hlen.
  - exists []. repeat split; [intros i Hi; lia|constructor].
  - destruct buffer as [|b0 [|b1 rest]]; try (simpl in Hlen; lia).
    destruct (IH rest ltac:(simpl in Hlen; lia)) as (row & E & Hl & Hn & Hr).
    exists (int16_of_bytes order b0 b1 :: row).
    cbn [ndarray_int16]. rewrite E. split; [reflexivity|].
    split; [simpl; lia|]. split.
    + intros [|i] Hi; [reflexivity|].
      replace (2 * S i)%nat with (S (S (2 * i))) by lia.
      replace (S (S (2 * i)) + 1)%nat with (S (S (2 * i + 1))) by lia.
      cbn [nth]. apply Hn. lia.
    + constructor; [apply int16_of_bytes_range|exact Hr].
Qed.

Lemma ndarray_int16_none order n : forall buffer,
  (length buffer < 2 * n)%nat -> ndarray_int16 order n buffer = None.
Proof.
  induction n as [|n IH]; intros buffer Hlen; [lia|].
  destruct buffer as [|b0 [|b1 rest]]; try reflexivity.
  cbn [ndarray_int16]. rewrite IH by (simpl in Hlen; lia). reflexivity.
Qed.
End DecodeFacts.

(** ** Which blocks [fabada1x] accepts *)

Lemma fabada1x_returns_block_of_same_length_witness :
  exists out,
    fabada1x (ops := R_ops (fun _ _ => 0%R)) [1; 5; 2; 6; 4; 7]%R = Some out /\
    length out = length [1; 5; 2; 6; 4; 7]%R.
Proof.
  apply (@fabada1x_returns_block_of_same_length R (R_ops (fun _ _ => 0%R))
           [1; 5; 2; 6; 4; 7]%R 3).
  - reflexivity.
  - unfold residues_len. lia.
Defined.

Lemma fabada1x_short_block_raises_witness :
  fabada1x (ops := R_ops (fun _ _ => 0%R)) [1; 2; 3]%R = None.
Proof.
  apply (@fabada1x_short_block_raises R (R_ops (fun _ _ => 0%R))
           [1; 2; 3]%R).
  simpl. lia.
Defined.

Lemma fabada1x_odd_block_raises_witness :
  fabada1x (ops := R_ops (fun _ _ => 0%R)) [1; 5; 2; 6; 4]%R = None.
Proof.
  apply (@fabada1x_odd_block_raises R (R_ops (fun _ _ => 0%R))
           [1; 5; 2; 6; 4]%R).
  reflexivity.
Defined.

Lemma fabada1x_long_block_raises_witness :
  fabada1x (ops := R_ops (fun _ _ => 0%R)) (repeat 0%R (Z.to_nat 65538))
  = None.
Proof.
  apply (@fabada1x_long_block_raises R (R_ops (fun _ _ => 0%R))
           (repeat 0%R (Z.to_nat 65538))).
  rewrite repeat_length. unfold residues_len. lia.
Defined.

(** ** The prior *)

(** Lines 135-141, sample by sample, for an array of two samples at least:
    the prior mean is [(pm[0] + pm[1]) / 2] at the first sample,
    [(pm[-1] + pm[-2]) / 2] at the last and
    [((pm[i] + pm[i+1]) + pm[i-1]) / 3] in between. *)
Theorem prior_mean_three_point :
  forall (T : Type) (ops : NumOps T) (pm : list T) (i : nat) (d : T),
    (2 <= length pm)%nat -> (i < length pm)%nat ->
    nth i (meanx_of pm) d
    = if (i =? 0)%nat
      then fdiv (fadd (nth 0 pm d) (nth 1 pm d)) (lit 2)
      else if (S i =? length pm)%nat
           then fdiv (fadd (nth i pm d) (nth (i - 1) pm d)) (lit 2)
           else fdiv (fadd (fadd (nth i pm d) (nth (S i) pm d))
                           (nth (i - 1) pm d))
                     (lit 3).
Proof. intros T ops pm i d. apply meanx_of_nth. Qed.

Lemma prior_mean_three_point_witness :
  nth 1 (meanx_of (ops := R_ops (fun _ _ => 0%R)) [1; 2; 6]%R) 0%R
  = ((2 + 6 + 1) / 3)%R.
Proof.
  apply (prior_mean_three_point R (R_ops (fun _ _ => 0%R)) [1; 2; 6]%R 1 0%R).
  - simpl. lia.
  - simpl. lia.
Defined.

(** ** The run in exact arithmetic *)

(** With positive variance estimates, the posterior variance after [k]
    iterations is the data variance divided by [k + 1]: the harmonic update
    of line 145 never looks at the samples. *)
Theorem posterior_variance_closed_form :
  forall (pdf : R -> nat -> R) (data data_variance : list R) (k i : nat),
    length data_variance = length data ->
    (2 <= length data)%nat ->
    Forall (fun v => (0 < v)%R) data_variance ->
    (i < length data)%nat ->
    nth i (posterior_variance
             (iterates (ops := R_ops pdf) data data_variance k)) 0%R
    = (nth i data_variance 0 / INR (S k))%R.
Proof.
  intros pdf data dv k i Hs H2 Hpos Hi.
  now apply posterior_variance_its.
Qed.

Lemma posterior_variance_closed_form_witness :
  nth 1 (posterior_variance
           (iterates (ops := R_ops (fun _ _ => 0%R))
              [0; 1; 1; 3]%R [2; 3; 4; 5]%R 2)) 0%R
  = (nth 1 [2; 3; 4; 5]%R 0 / INR 3)%R.
Proof.
  apply (posterior_variance_closed_form (fun _ _ => 0%R)
           [0; 1; 1; 3]%R [2; 3; 4; 5]%R 2 1).
  - reflexivity.
  - simpl. lia.
  - repeat constructor; lra.
  - simpl. lia.
Defined.

(** With positive variance estimates, the posterior means of every
    iteration are the same whatever the variances are: in line 146 the
    variances cancel, and the update is
    [(k * prior_mean + data) / (k + 1)] at iteration [k]. *)
Theorem posterior_mean_ignores_variance :
  forall (pdf1 pdf2 : R -> nat -> R) (data dv1 dv2 : list R) (k : nat),
    length dv1 = length data -> length dv2 = length data ->
    (2 <= length data)%nat ->
    Forall (fun v => (0 < v)%R) dv1 -> Forall (fun v => (0 < v)%R) dv2 ->
    posterior_mean (iterates (ops := R_ops pdf1) data dv1 (S k))
    = map2 (fun p d => ((INR (S k) * p + d) / (INR (S k) + 1))%R)
        (meanx_of (ops := R_ops pdf1)
           (posterior_mean (iterates (ops := R_ops pdf1) data dv1 k)))
        data /\
    posterior_mean (iterates (ops := R_ops pdf1) data dv1 k)
    = posterior_mean (iterates (ops := R_ops pdf2) data dv2 k).
Proof.
  intros pdf1 pdf2 data dv1 dv2 k H1 H2 Htwo Hp1 Hp2.
  split; [now apply posterior_mean_S|].
  induction k as [|k IH]; [reflexivity|].
  rewrite (posterior_mean_S pdf1 data dv1 H1 Htwo Hp1).
  rewrite (posterior_mean_S pdf2 data dv2 H2 Htwo Hp2).
  rewrite IH. reflexivity.
Qed.

Lemma posterior_mean_ignores_variance_witness :
  posterior_mean (iterates (ops := R_ops (fun _ _ => 0%R))
                    [0; 1; 1; 3]%R [1; 1; 1; 1]%R 3)
  = map2 (fun p d => ((INR 3 * p + d) / (INR 3 + 1))%R)
      (meanx_of (ops := R_ops (fun _ _ => 0%R))
         (posterior_mean (iterates (ops := R_ops (fun _ _ => 0%R))
                            [0; 1; 1; 3]%R [1; 1; 1; 1]%R 2)))
      [0; 1; 1; 3]%R /\
  posterior_mean (iterates (ops := R_ops (fun _ _ => 0%R))
                    [0; 1; 1; 3]%R [1; 1; 1; 1]%R 2)
  = posterior_mean (iterates (ops := R_ops (fun _ _ => 1%R))
                      [0; 1; 1; 3]%R [2; 3; 4; 5]%R 2).
Proof.
  apply (posterior_mean_ignores_variance (fun _ _ => 0%R) (fun _ _ => 1%R)
           [0; 1; 1; 3]%R [1; 1; 1; 1]%R [2; 3; 4; 5]%R 2).
  - reflexivity.
  - reflexivity.
  - simpl. lia.
  - repeat constructor; lra.
  - repeat constructor; lra.
Defined.

(** The evidence of iteration zero (lines 115-118) does not depend on the
    samples: at a positive variance [v] it is [exp(-1/2) / sqrt(2 pi v)]. *)
Theorem initial_evidence_closed_form :
  forall (pdf : R -> nat -> R) (data_variance : list R) (i : nat),
    (i < length data_variance)%nat ->
    (0 < nth i data_variance 0)%R ->
    nth i (initial_evidence_of (ops := R_ops pdf) data_variance) 0%R
    = (Rtrigo_def.exp (- (1 / 2))
       / R_sqrt.sqrt (2 * PI * nth i data_variance 0))%R.
Proof.
  intros pdf dv i Hi Hv. unfold initial_evidence_of.
  rewrite (nth_map_lt _ _ _ _ _ 0%R) by exact Hi.
  set (v := nth i dv 0%R) in *.
  unfold gauss, sq, lit. cbn [fadd fsub fmul fdiv fneg np_exp np_sqrt np_pi
                              of_int R_ops].
  replace (0 + v)%R with v by lra.
  replace (- ((0 - R_sqrt.sqrt v) * (0 - R_sqrt.sqrt v)) / (2 * v))%R
    with (- (1 / 2))%R; [reflexivity|].
  replace ((0 - R_sqrt.sqrt v) * (0 - R_sqrt.sqrt v))%R
    with (R_sqrt.sqrt v * R_sqrt.sqrt v)%R by lra.
  rewrite sqrt_sqrt by lra. field. lra.
Qed.

Lemma initial_evidence_closed_form_witness :
  nth 0 (initial_evidence_of (ops := R_ops (fun _ _ => 0%R)) [2]%R) 0%R
  = (Rtrigo_def.exp (- (1 / 2)) / R_sqrt.sqrt (2 * PI * nth 0 [2]%R 0))%R.
Proof.
  apply (initial_evidence_closed_form (fun _ _ => 0%R) [2]%R 0).
  - simpl. lia.
  - simpl. lra.
Defined.


(** ** binary64: silence and the iteration cap *)

Lemma silent_channel_block_undefined_witness :
  stream_write (ops := F64_ops (fun x => x) (fun x _ => x))
    [7; 0; -3; 0; 12; 0]%Z
  = Some (repeat None (2 * 3)).
Proof.
  apply (silent_channel_block_undefined (fun x => x) (fun x _ => x)
           [7; 0; -3; 0; 12; 0]%Z 3 true).
  - reflexivity.
  - unfold residues_len. lia.
  - repeat constructor.
Defined.

(** In binary64, a zero, infinite or NaN variance at one sample makes
    [chi2_data] NaN at every iteration, so the test of lines 168-172 fails
    until the counter passes [max_iter]: the loop runs all 129 iterations. *)
Theorem degenerate_variance_runs_to_cap :
  forall (exp64 : float -> float) (pdf : float -> nat -> float)
         (data data_variance : list float) (j : nat),
    length data_variance = length data ->
    (2 <= length data)%nat ->
    (j < length data)%nat ->
    f64_degenerate (nth j data_variance nan) = true ->
    (forall k, (1 <= k <= max_iter)%nat ->
       stops_at (ops := F64_ops exp64 pdf) data data_variance k = false) /\
    while_not_converged (ops := F64_ops exp64 pdf) data data_variance
      (S max_iter) (initial_state (ops := F64_ops exp64 pdf) data data_variance)
    = Some (combine_iteration_zero (ops := F64_ops exp64 pdf)
              data data_variance
              (iterates (ops := F64_ops exp64 pdf) data data_variance
                 (S max_iter))).
Proof.
  intros exp64 pdf data dv j Hs H2 Hj Hdeg. split.
  - intros k Hk. now apply (never_converges_early exp64 pdf data dv Hs H2 j).
  - now apply (runs_to_cap exp64 pdf data dv Hs H2 j).
Qed.

Lemma degenerate_variance_runs_to_cap_witness :
  (forall k, (1 <= k <= max_iter)%nat ->
     stops_at (ops := F64_ops (fun x => x) (fun x _ => x))
       [1; 2; 3; 4]%float [0; 1; 1; 1]%float k = false) /\
  while_not_converged (ops := F64_ops (fun x => x) (fun x _ => x))
    [1; 2; 3; 4]%float [0; 1; 1; 1]%float (S max_iter)
    (initial_state (ops := F64_ops (fun x => x) (fun x _ => x))
       [1; 2; 3; 4]%float [0; 1; 1; 1]%float)
  = Some (combine_iteration_zero (ops := F64_ops (fun x => x) (fun x _ => x))
            [1; 2; 3; 4]%float [0; 1; 1; 1]%float
            (iterates (ops := F64_ops (fun x => x) (fun x _ => x))
               [1; 2; 3; 4]%float [0; 1; 1; 1]%float (S max_iter))).
Proof.
  apply (degenerate_variance_runs_to_cap (fun x => x) (fun x _ => x)
           [1; 2; 3; 4]%float [0; 1; 1; 1]%float 0).
  - reflexivity.
  - simpl. lia.
  - simpl. lia.
  - reflexivity.
Defined.

(** ** The device scan *)

Module ScanTheorems.
Import Stdlib.Strings.String.
Import Devices DeviceFacts.
Local Open Scope string_scope.

(** [open_mic_stream] opens the capture stream on the last device of the
    table that has exactly two input channels and the keyword in its
    lowered name, and sets [micindex] to it: a later match overrides an
    earlier one. *)
Theorem open_mic_stream_selects_last_preferred :
  forall (lower : string -> string) (pa : list devinfo) (micindex i : nat)
         (d : devinfo),
    nth_error pa i = Some d ->
    preferred lower maxInputChannels d ->
    (forall j d', (i < j)%nat -> nth_error pa j = Some d' ->
                  ~ preferred lower maxInputChannels d') ->
    exists out,
      open_mic_stream lower pa micindex
      = (i,
         {| format := paInt16; channels := 2; rate := 48000;
            input := true; output := false;
            device_index := i;
            frames_per_buffer := 16384;
            stream_callback := stream_read_callback |},
         out).
Proof.
  intros lower pa micindex i d Hi Hd Hlater.
  destruct (scan_last lower maxInputChannels
              (fun i devinfo =>
                 "Found an input: device " ++ dec i ++ " - " ++ name devinfo)
              pa 0 (None, micindex, []) i d Hi Hd Hlater) as (out & E).
  exists out. unfold open_mic_stream. cbv zeta. rewrite E. reflexivity.
Qed.

Lemma open_mic_stream_selects_last_preferred_witness :
  exists out,
    open_mic_stream (fun s => s)
      [mkDevinfo "microsoft mapper" 2 0; mkDevinfo "microsoft mic" 2 0;
       mkDevinfo "line out" 0 2] 1
    = (1%nat,
       {| format := paInt16; channels := 2; rate := 48000;
          input := true; output := false;
          device_index := 1;
          frames_per_buffer := 16384;
          stream_callback := stream_read_callback |},
       out).
Proof.
  apply (open_mic_stream_selects_last_preferred (fun s => s)
           [mkDevinfo "microsoft mapper" 2 0; mkDevinfo "microsoft mic" 2 0;
            mkDevinfo "line out" 0 2] 1 1 (mkDevinfo "microsoft mic" 2 0)).
  - reflexivity.
  - split; [reflexivity|]. now exists EmptyString, " mic".
  - intros j d' Hj Hn [Hc _].
    destruct j as [|[|[|j]]]; try lia.
    + injection Hn as <-. discriminate.
    + destruct j; discriminate.
Defined.

(** [open_speaker_stream] does the same on the output side: the playback
    stream is opened on the last device with exactly two output channels
    and the keyword in its lowered name. *)
Theorem open_speaker_stream_selects_last_preferred :
  forall (lower : string -> string) (pa : list devinfo)
         (speakerindex i : nat) (d : devinfo),
    nth_error pa i = Some d ->
    preferred lower maxOutputChannels d ->
    (forall j d', (i < j)%nat -> nth_error pa j = Some d' ->
                  ~ preferred lower maxOutputChannels d') ->
    exists out,
      open_speaker_stream lower pa speakerindex
      = (i,
         {| format := paInt16; channels := 2; rate := 48000;
            input := false; output := true;
            device_index := i;
            frames_per_buffer := 16384;
            stream_callback := stream_write_callback |},
         out).
Proof.
  intros lower pa speakerindex i d Hi Hd Hlater.
  destruct (scan_last lower maxOutputChannels
              (fun i devinfo =>
                 "Found an output: device " ++ dec i ++ " - " ++ name devinfo)
              pa 0 (None, speakerindex, []) i d Hi Hd Hlater) as (out & E).
  exists out. unfold open_speaker_stream. cbv zeta. rewrite E. reflexivity.
Qed.

Lemma open_speaker_stream_selects_last_preferred_witness :
  exists out,
    open_speaker_stream (fun s => s)
      [mkDevinfo "microsoft mic" 2 0; mkDevinfo "microsoft out" 0 2;
       mkDevinfo "hdmi" 0 2] 1
    = (1%nat,
       {| format := paInt16; channels := 2; rate := 48000;
          input := false; output := true;
          device_index := 1;
          frames_per_buffer := 16384;
          stream_callback := stream_write_callback |},
       out).
Proof.
  apply (open_speaker_stream_selects_last_preferred (fun s => s)
           [mkDevinfo "microsoft mic" 2 0; mkDevinfo "microsoft out" 0 2;
            mkDevinfo "hdmi" 0 2] 1 1 (mkDevinfo "microsoft out" 0 2)).
  - reflexivity.
  - split; [reflexivity|]. now exists EmptyString, " out".
  - intros j d' Hj Hn [_ Hk]. apply contains_spec in Hk.
    destruct j as [|[|[|j]]]; try lia.
    + injection Hn as <-. discriminate.
    + destruct j; discriminate.
Defined.

(** When no device of the table is preferred for input and none for
    output, [__init__] opens both streams on device index 1, the value the
    two index attributes start with: not on the default device of the host
    that the printed lines name, and whether or not the table has a device
    1 with channels of that direction. *)
Theorem init_falls_back_to_device_one :
  forall (lower : string -> string) (pa : list devinfo)
         (uninitialised : nat -> Z),
    Forall (fun d => ~ preferred lower maxInputChannels d) pa ->
    Forall (fun d => ~ preferred lower maxOutputChannels d) pa ->
    init lower pa uninitialised
    = ({| Devices.pa := pa; micindex := 1; speakerindex := 1;
          micstream :=
            {| format := paInt16; channels := 2; rate := 48000;
               input := true; output := false;
               device_index := 1;
               frames_per_buffer := 16384;
               stream_callback := stream_read_callback |};
          speakerstream :=
            {| format := paInt16; channels := 2; rate := 48000;
               input := false; output := true;
               device_index := 1;
               frames_per_buffer := 16384;
               stream_callback := stream_write_callback |};
          xbuffer := map uninitialised (seq 0 xbuffer_len) |},
       ["No preferred input found; using default input device.";
        "No preferred output found; using default output device."]).
Proof.
  intros lower pa u Hin Hout.
  assert (Ei := scan_none lower maxInputChannels
                  (fun i devinfo =>
                     "Found an input: device " ++ dec i ++ " - "
                       ++ name devinfo)
                  pa 0 (None, 1%nat, []) Hin).
  assert (Eo := scan_none lower maxOutputChannels
                  (fun i devinfo =>
                     "Found an output: device " ++ dec i ++ " - "
                       ++ name devinfo)
                  pa 0 (None, 1%nat, []) Hout).
  unfold init, open_mic_stream, open_speaker_stream. cbv zeta.
  rewrite Ei, Eo. reflexivity.
Qed.

Lemma init_falls_back_to_device_one_witness :
  init (fun s => s) [mkDevinfo "realtek audio" 2 2] (fun _ => 0%Z)
  = ({| Devices.pa := [mkDevinfo "realtek audio" 2 2];
        micindex := 1; speakerindex := 1;
        micstream :=
          {| format := paInt16; channels := 2; rate := 48000;
             input := true; output := false;
             device_index := 1;
             frames_per_buffer := 16384;
             stream_callback := stream_read_callback |};
        speakerstream :=
          {| format := paInt16; channels := 2; rate := 48000;
             input := false; output := true;
             device_index := 1;
             frames_per_buffer := 16384;
             stream_callback := stream_write_callback |};
        xbuffer := map (fun _ => 0%Z) (seq 0 xbuffer_len) |},
     ["No preferred input found; using default input device.";
      "No preferred output found; using default output device."]).
Proof.
  apply (init_falls_back_to_device_one (fun s => s)
           [mkDevinfo "realtek audio" 2 2] (fun _ => 0%Z)).
  - repeat constructor. intros [_ Hk]. apply contains_spec in Hk.
    discriminate.
  - repeat constructor. intros [_ Hk]. apply contains_spec in Hk.
    discriminate.
Defined.
End ScanTheorems.

(** ** The callbacks *)

Section CallbackTheorems.
Import Devices.

(** The capture callback on a buffer of [2 * 32768] bytes or more: it
    returns [(None, paContinue)] and leaves in [xbuffer] the 32768 int16
    samples of the first 65536 bytes, sample [i] read from bytes [2i] and
    [2i + 1] in the byte order of the host; nothing else of the object
    changes. *)
Theorem stream_read_fills_buffer (order : byteorder) (self : StreamSampler)
    (in_data : list byte) :
  length (xbuffer self) = xbuffer_len ->
  (2 * xbuffer_len <= length in_data)%nat ->
  exists row,
    non_blocking_stream_read order self in_data
    = Some ({| pa := pa self;
               micindex := micindex self;
               speakerindex := speakerindex self;
               micstream := micstream self;
               speakerstream := speakerstream self;
               xbuffer := row |},
            (None, paContinue)) /\
    length row = xbuffer_len /\
    (forall i, (i < xbuffer_len)%nat ->
       nth i row 0%Z
       = int16_of_bytes order (nth (2 * i) in_data x00)
                              (nth (2 * i + 1) in_data x00)) /\
    Forall (fun z => int16_range z = true) row.
Proof.
  intros Hx Hlen.
  destruct (ndarray_int16_some order xbuffer_len in_data Hlen)
    as (row & E & Hl & Hn & Hr).
  exists row. unfold non_blocking_stream_read.
  rewrite E, Hx, Hl, Nat.eqb_refl. auto.
Qed.

Lemma stream_read_fills_buffer_witness :
  exists row,
    non_blocking_stream_read little
      (mkStreamSampler [] 1 1
         (mkStream paInt16 2 48000 true false 1 16384 stream_read_callback)
         (mkStream paInt16 2 48000 false true 1 16384 stream_write_callback)
         (repeat 0%Z xbuffer_len))
      (repeat x01 (2 * xbuffer_len))
    = Some (mkStreamSampler [] 1 1
              (mkStream paInt16 2 48000 true false 1 16384
                 stream_read_callback)
              (mkStream paInt16 2 48000 false true 1 16384
                 stream_write_callback)
              row,
            (None, paContinue)) /\
    length row = xbuffer_len /\
    (forall i, (i < xbuffer_len)%nat ->
       nth i row 0%Z
       = int16_of_bytes little
           (nth (2 * i) (repeat x01 (2 * xbuffer_len)) x00)
           (nth (2 * i + 1) (repeat x01 (2 * xbuffer_len)) x00)) /\
    Forall (fun z => int16_range z = true) row.
Proof.
  apply (stream_read_fills_buffer little
           (mkStreamSampler [] 1 1
              (mkStream paInt16 2 48000 true false 1 16384
                 stream_read_callback)
              (mkStream paInt16 2 48000 false true 1 16384
                 stream_write_callback)
              (repeat 0%Z xbuffer_len))
           (repeat x01 (2 * xbuffer_len))).
  - apply repeat_length.
  - rewrite repeat_length. lia.
Defined.

(** The capture callback raises on a buffer of fewer than [2 * 32768]
    bytes: the array of shape [[1, 32768]] does not fit in it. *)
Theorem stream_read_short_buffer_raises :
  forall (order : byteorder) (self : StreamSampler) (in_data : list byte),
    (length in_data < 2 * xbuffer_len)%nat ->
    non_blocking_stream_read order self in_data = None.
Proof.
  intros order self in_data Hlen. unfold non_blocking_stream_read.
  now rewrite ndarray_int16_none.
Qed.

Lemma stream_read_short_buffer_raises_witness :
  non_blocking_stream_read big
    (mkStreamSampler [] 1 1
       (mkStream paInt16 2 48000 true false 1 16384 stream_read_callback)
       (mkStream paInt16 2 48000 false true 1 16384 stream_write_callback)
       (repeat 0%Z xbuffer_len))
    [x00; x01; x02]
  = None.
Proof.
  apply (stream_read_short_buffer_raises big
           (mkStreamSampler [] 1 1
              (mkStream paInt16 2 48000 true false 1 16384
                 stream_read_callback)
              (mkStream paInt16 2 48000 false true 1 16384
                 stream_write_callback)
              (repeat 0%Z xbuffer_len))
           [x00; x01; x02]).
  unfold xbuffer_len. simpl length. lia.
Defined.

(** Capture, then playback: on the object [__init__] builds, whatever the
    device table, a capture buffer of the size the capture stream was
    opened with ([frames_per_buffer] frames of [channels] two-byte samples)
    is accepted, and the playback callback then returns, without raising,
    a block of as many samples as the playback stream takes
    ([frames_per_buffer * channels]) with [paContinue]. *)
Theorem capture_then_playback_block :
  forall (T : Type) (ops : NumOps T)
         (lower : String.string -> String.string) (pa : list devinfo)
         (uninitialised : nat -> Z) (order : byteorder)
         (in_data : list byte) (out_data : option (list byte)),
    let self := fst (init lower pa uninitialised) in
    Z.of_nat (length in_data)
    = (frames_per_buffer (micstream self) * channels (micstream self) * 2)%Z ->
    exists self' data2,
      non_blocking_stream_read order self in_data
      = Some (self', (None, paContinue)) /\
      non_blocking_stream_write self' out_data = Some (data2, paContinue) /\
      Z.of_nat (length data2)
      = (frames_per_buffer (speakerstream self)
         * channels (speakerstream self))%Z.
Proof.
  intros T ops lower pa u order in_data out_data self Hlen.
  assert (Hself : exists mi si, self =
            {| Devices.pa := pa; micindex := mi; speakerindex := si;
               micstream :=
                 {| format := paInt16; channels := 2; rate := 48000;
                    input := true; output := false;
                    device_index := mi;
                    frames_per_buffer := 16384;
                    stream_callback := stream_read_callback |};
               speakerstream :=
                 {| format := paInt16; channels := 2; rate := 48000;
                    input := false; output := true;
                    device_index := si;
                    frames_per_buffer := 16384;
                    stream_callback := stream_write_callback |};
               xbuffer := map u (seq 0 xbuffer_len) |}).
  { unfold self, init, open_mic_stream, open_speaker_stream. cbv zeta.
    destruct (fold_left _ _ _) as [[di mi] out1].
    destruct (fold_left _ _ _) as [[dj si] out2].
    exists mi, si. reflexivity. }
  destruct Hself as (mi & si & Eself). rewrite Eself in *. clear Eself self.
  cbn [micstream speakerstream frames_per_buffer channels] in *.
  assert (Hin : (2 * xbuffer_len <= length in_data)%nat)
    by (unfold xbuffer_len; lia).
  destruct (ndarray_int16_some order xbuffer_len in_data Hin)
    as (row & Hread & Hrow & _).
  unfold non_blocking_stream_read. rewrite Hread. cbn [xbuffer].
  rewrite length_map, length_seq, Hrow, Nat.eqb_refl.
  cbn [Devices.pa micindex speakerindex micstream speakerstream].
  set (data := map of_int row).
  assert (Hd : length data = (2 * Z.to_nat 16384)%nat)
    by (unfold data; rewrite length_map, Hrow; unfold xbuffer_len; lia).
  destruct (data_variance_of_defined data _ Hd ltac:(lia)) as (dv & Hdv).
  destruct (data_variance_of_length data dv _ Hd
              ltac:(unfold residues_len; lia) Hdv) as [_ Hl].
  destruct (smoother_merge_defined (split data) dv _
              (split_length data _ Hd) Hl)
    as (bayes & data2 & Hb & Ho & Hol).
  eexists _, data2. split; [reflexivity|].
  unfold non_blocking_stream_write, stream_write. cbn [xbuffer].
  fold data. unfold fabada1x. rewrite Hdv, Hb, Ho.
  split; [reflexivity|]. rewrite Hol. lia.
Qed.

Lemma capture_then_playback_block_witness :
  let self := fst (init (fun s => s) [] (fun _ => 0%Z)) in
  exists self' data2,
    non_blocking_stream_read little self (repeat x00 (Z.to_nat 65536))
    = Some (self', (None, paContinue)) /\
    non_blocking_stream_write (ops := R_ops (fun _ _ => 0%R)) self' None
    = Some (data2, paContinue) /\
    Z.of_nat (length data2)
    = (frames_per_buffer (speakerstream self)
       * channels (speakerstream self))%Z.
Proof.
  apply (capture_then_playback_block R (R_ops (fun _ _ => 0%R))
           (fun s => s) [] (fun _ => 0%Z) little
           (repeat x00 (Z.to_nat 65536)) None).
  rewrite repeat_length, Z2Nat.id by lia. reflexivity.
Defined.
End CallbackTheorems.

(** ** Polarity *)

Section RealPolarity.
Variable pdf : R -> nat -> R.
Local Abbreviation Rops := (R_ops pdf).
Local Open Scope R_scope.

Lemma unit_gain_abs (s : R) : s * s = 1 -> Rabs s * Rabs s * Rabs s = 1.
Proof.
  intros Hs. assert (H : Rabs s * Rabs s = 1)
    by (rewrite <- Rabs_mult, Hs; apply Rabs_R1).
  pose proof (Rabs_pos s). nra.
Qed.

Lemma split_map (f : R -> R) (l : list R) :
  split (ops := Rops) (map f l) = map f (split (ops := Rops) l).
Proof.
  rewrite !split_R, map_app, stride2_map. f_equal.
  destruct l as [|x l]; [reflexivity|]. apply stride2_map.
Qed.

(** Gain [+1] or [-1] and any offset leave the variance estimate as it
    is. *)
Lemma unit_gain_variance (s c : R) (l dv : list R) :
  s * s = 1 ->
  data_variance_of (ops := Rops) l = Some dv ->
  data_variance_of (ops := Rops) (map (fun x => s * x + c) l) = Some dv.
Proof.
  intros Hs Hdv.
  rewrite (data_variance_of_affine pdf s c l dv Hdv). f_equal.
  rewrite <- (map_id dv) at 2. apply map_ext. intros v.
  rewrite (unit_gain_abs s Hs). lra.
Qed.

(** In exact arithmetic, on a block of [2n] samples, [n <= 32768], with
    positive variance estimates: inverting the polarity of every sample
    ([s = -1]) or not ([s = 1]) and adding an offset [c] leaves the
    variance estimate as it is and moves the estimate of the smoother in
    the same way, [s * bayes + c]. *)
Theorem smoother_commutes_with_polarity_and_offset (s c : R)
    (block dv : list R) (n : nat) :
  s * s = 1 ->
  length block = (2 * n)%nat -> (n <= residues_len)%nat ->
  data_variance_of (ops := Rops) block = Some dv ->
  Forall (fun v => 0 < v) dv ->
  data_variance_of (ops := Rops) (map (fun x => s * x + c) block)
  = Some dv /\
  exists bayes,
    smoother (ops := Rops) (split (ops := Rops) block) dv = Some bayes /\
    smoother (ops := Rops)
      (split (ops := Rops) (map (fun x => s * x + c) block)) dv
    = Some (map (fun x => s * x + c) bayes).
Proof.
  intros Hs Hl Hn Hdv Hpos. split; [now apply unit_gain_variance|].
  destruct (data_variance_of_length block dv n Hl Hn Hdv) as [H2 Hdvl].
  assert (Hsl := split_length (ops := Rops) block n Hl).
  rewrite split_map.
  apply (smoother_affine pdf s c Hs); try lia; auto.
  now apply (block_first_chi2_pos pdf block dv n).
Qed.

Lemma R_astype_opp (x : R) :
  -32767 <= x <= 32767 ->
  R_astype_int16 (- x) = option_map Z.opp (R_astype_int16 x).
Proof.
  intros Hx.
  destruct (R_astype_range x (-32767) 32767 ltac:(lia) ltac:(lia) Hx)
    as (z & Ez & Hz).
  rewrite Ez. cbn [option_map].
  unfold R_astype_int16 in *.
  assert (Et : R_trunc (- x) = (- R_trunc x)%Z).
  { unfold R_trunc.
    destruct (Rle_dec 0 x) as [H0|H0]; destruct (Rle_dec 0 (- x)) as [H1|H1].
    - assert (x = 0) by lra. subst x. rewrite Ropp_0.
      replace (Int_part 0) with 0%Z; [reflexivity|].
      apply (Int_part_spec 0 0). simpl. lra.
    - now rewrite Ropp_involutive.
    - lia.
    - lra. }
  rewrite Et.
  destruct (int16_range (R_trunc x)) eqn:Er; [|discriminate].
  injection Ez as <-.
  unfold int16_range. 
  replace ((-32768 <=? - R_trunc x)%Z && (- R_trunc x <=? 32767)%Z) with true;
    [reflexivity|].
  symmetry. apply andb_true_iff. split; apply Z.leb_le; lia.
Qed.

Lemma merge_map (f : R -> R) (g : option Z -> option Z) (bayes : list R) out :
  merge (ops := Rops) bayes = Some out ->
  Forall (fun x => R_astype_int16 (f x) = g (R_astype_int16 x)) bayes ->
  merge (ops := Rops) (map f bayes) = Some (map g out).
Proof.
  unfold merge, np_split2. rewrite length_map.
  destruct (Nat.even (length bayes)); [|discriminate].
  intros E Hb. injection E as <-. f_equal.
  rewrite firstn_map, skipn_map, <- map_interleave, !map_map.
  apply map_ext_in. intros x Hx.
  assert (Hf : Forall (fun x => R_astype_int16 (f x) = g (R_astype_int16 x))
                 (interleave (firstn (Nat.div2 (length bayes)) bayes)
                             (skipn (Nat.div2 (length bayes)) bayes))).
  { rewrite <- (firstn_skipn (Nat.div2 (length bayes)) bayes) in Hb at 1.
    apply Forall_app in Hb. destruct Hb as [Hb1 Hb2].
    apply Forall_interleave; assumption. }
  exact (proj1 (Forall_forall _ _) Hf x Hx).
Qed.

(** In exact arithmetic, on an int16 block of [2n] samples, [n <= 32768],
    with positive variance estimates and no sample below [-32767]:
    inverting the polarity of the block inverts the block returned, sample
    by sample. *)
Theorem stream_write_inverts_with_polarity (block : list Z) (n : nat)
    (dv : list R) :
  length block = (2 * n)%nat -> (n <= residues_len)%nat ->
  data_variance_of (ops := Rops) (map IZR block) = Some dv ->
  Forall (fun v => 0 < v) dv ->
  Forall (fun z => (-32767 <= z <= 32767)%Z) block ->
  exists out,
    stream_write (ops := Rops) block = Some out /\
    stream_write (ops := Rops) (map Z.opp block)
    = Some (map (option_map Z.opp) out).
Proof.
  intros Hlen Hn Hdv Hpos Hblock.
  set (l := map IZR block) in *.
  assert (Hl : length l = (2 * n)%nat) by (unfold l; now rewrite length_map).
  assert (Hbounds : Forall (fun x => -32767 <= x <= 32767) l).
  { unfold l. apply Forall_map. revert Hblock. apply Forall_impl.
    intros z [Ha Hb]. split; now apply IZR_le. }
  destruct (block_bayes_within pdf l dv n (-32767) 32767 Hl Hn Hdv Hpos
              Hbounds) as (bayes & Hs & Hbl & Hb).
  assert (Hdv' := unit_gain_variance (-1) 0 l dv ltac:(lra) Hdv).
  destruct (data_variance_of_length l dv n Hl Hn Hdv) as [H2 Hdvl].
  destruct (smoother_affine pdf (-1) 0 ltac:(lra)
              (split (ops := Rops) l) dv
              ltac:(rewrite (split_length (ops := Rops) l n Hl); lia)
              ltac:(rewrite (split_length (ops := Rops) l n Hl); lia)
              Hpos (block_first_chi2_pos pdf l dv n Hl Hn Hdv Hpos))
    as (bayes' & Hs' & Hs'').
  rewrite Hs in Hs'. injection Hs' as <-.
  rewrite <- split_map in Hs''.
  assert (El : map IZR (map Z.opp block) = map (fun x => -1 * x + 0) l).
  { unfold l. rewrite !map_map. apply map_ext. intros z.
    rewrite opp_IZR. lra. }
  destruct (merge_even (ops := Rops) bayes) as (out & Ho).
  { rewrite Hbl. replace (2 * n)%nat with (n + n)%nat by lia.
    apply even_double. }
  exists out. split.
  - unfold stream_write. change (map (@of_int R Rops) block) with l.
    unfold fabada1x. now rewrite Hdv, Hs.
  - unfold stream_write.
    change (map (@of_int R Rops) (map Z.opp block))
      with (map IZR (map Z.opp block)).
    rewrite El. unfold fabada1x. rewrite Hdv', Hs''.
    apply merge_map; [exact Ho|].
    revert Hb. apply Forall_impl. intros x Hx.
    replace (-1 * x + 0) with (- x) by lra. now apply R_astype_opp.
Qed.
End RealPolarity.

(** ** Gain, offset and polarity *)

(** The variance estimate of a block (lines 78-110) does not see an offset
    added to every sample, and a gain [s] applied to every sample
    multiplies every variance by [|s|^3]. *)
Theorem variance_estimate_gain_and_offset :
  forall (pdf : R -> nat -> R) (s c : R) (block dv : list R),
    data_variance_of (ops := R_ops pdf) block = Some dv ->
    data_variance_of (ops := R_ops pdf) (map (fun x => s * x + c)%R block)
    = Some (map (fun v => Rabs s ^ 3 * v)%R dv).
Proof.
  intros pdf s c block dv Hdv.
  rewrite (data_variance_of_affine pdf s c block dv Hdv). f_equal.
  apply map_ext. intros v. ring.
Qed.

Lemma variance_estimate_gain_and_offset_witness :
  data_variance_of (ops := R_ops (fun _ _ => 0%R))
    (map (fun x => 2 * x + 5)%R [0; 3; 1; -2; 1; -3]%R)
  = Some (map (fun v => Rabs 2 ^ 3 * v)%R
            [13 / 243; 13 / 972; 65 / 972;
             9821 / 972; 427 / 162; 12383 / 972]%R).
Proof.
  apply (variance_estimate_gain_and_offset (fun _ _ => 0%R) 2 5
           [0; 3; 1; -2; 1; -3]%R).
  rewrite block6_variance.
  now rewrite variance_0_1_1, variance_3_m2_m3.
Defined.

Lemma smoother_commutes_with_polarity_and_offset_witness :
  data_variance_of (ops := R_ops (fun _ _ => 0%R))
    (map (fun x => -1 * x + 7)%R [0; 3; 1; -2; 1; -3]%R)
  = Some [13 / 243; 13 / 972; 65 / 972;
          9821 / 972; 427 / 162; 12383 / 972]%R /\
  exists bayes,
    smoother (ops := R_ops (fun _ _ => 0%R))
      (split (ops := R_ops (fun _ _ => 0%R)) [0; 3; 1; -2; 1; -3]%R)
      [13 / 243; 13 / 972; 65 / 972; 9821 / 972; 427 / 162; 12383 / 972]%R
    = Some bayes /\
    smoother (ops := R_ops (fun _ _ => 0%R))
      (split (ops := R_ops (fun _ _ => 0%R))
         (map (fun x => -1 * x + 7)%R [0; 3; 1; -2; 1; -3]%R))
      [13 / 243; 13 / 972; 65 / 972; 9821 / 972; 427 / 162; 12383 / 972]%R
    = Some (map (fun x => -1 * x + 7)%R bayes).
Proof.
  apply (smoother_commutes_with_polarity_and_offset (fun _ _ => 0%R) (-1) 7
           [0; 3; 1; -2; 1; -3]%R
           [13 / 243; 13 / 972; 65 / 972;
            9821 / 972; 427 / 162; 12383 / 972]%R 3).
  - lra.
  - reflexivity.
  - unfold residues_len. lia.
  - rewrite block6_variance.
    now rewrite variance_0_1_1, variance_3_m2_m3.
  - repeat constructor; lra.
Defined.

Lemma stream_write_inverts_with_polarity_witness :
  exists out,
    stream_write (ops := R_ops (fun _ _ => 0%R)) [0; 3; 1; -2; 1; -3]%Z
    = Some out /\
    stream_write (ops := R_ops (fun _ _ => 0%R))
      (map Z.opp [0; 3; 1; -2; 1; -3]%Z)
    = Some (map (option_map Z.opp) out).
Proof.
  apply (stream_write_inverts_with_polarity (fun _ _ => 0%R)
           [0; 3; 1; -2; 1; -3]%Z 3
           [13 / 243; 13 / 972; 65 / 972;
            9821 / 972; 427 / 162; 12383 / 972]%R).
  - reflexivity.
  - unfold residues_len. lia.
  - simpl map. rewrite block6_variance.
    now rewrite variance_0_1_1, variance_3_m2_m3.
  - repeat constructor; lra.
  - repeat constructor; lia.
Defined.
